(** * Greenhouse layout designer: the stripe packer and the layout builder

    A shallow embedding of [app.py].  Python's [float] is IEEE 754
    binary64, which is exactly Rocq's primitive [float]; the arithmetic
    below is therefore the arithmetic the script performs, rounding
    included.  Exceptions ([math.floor] on a NaN or an infinity, a division
    by zero) are results of type [res].

    The definitions come first: the script's functions, then the
    vocabulary of the proofs (exact values, rounding on the grid of the
    smallest subnormal, the closed form of the placement loop).  The facts
    follow: how binary64 sums, differences and quotients of non-negative
    floats round, proved from the specification of the operations, and
    the properties of the packer and of the layout; the last part adds
    further properties of the packer, the placement pass, the derived
    dimensions, the key figures, the drawing and the export rows. *)

From Stdlib Require Import ZArith QArith Qround Qabs List String Bool Lia Lqa Floats.
From Stdlib Require Import DecimalString.
Import ListNotations.

Set Warnings "-inexact-float".

Local Open Scope Z_scope.

(** ** Python values and exceptions *)

Inductive exn : Type :=
  | ValueError
  | OverflowError
  | ZeroDivisionError.

Inductive res (A : Type) : Type :=
  | Ok (a : A)
  | Raise (e : exn).

Arguments Ok {A} a.
Arguments Raise {A} e.

Definition bind {A B : Type} (r : res A) (k : A -> res B) : res B :=
  match r with
  | Ok a => k a
  | Raise e => Raise e
  end.

Notation "x <- r ;; k" := (bind r (fun x => k))
  (at level 61, r at next level, right associativity).

(** ** Binary64 numbers *)

Module F64.

(** The rational number a binary64 datum denotes; the two zeros denote 0,
    and so do, by convention, NaN and the infinities. *)
Definition SF2Q (f : spec_float) : Q :=
  match f with
  | S754_finite s m e =>
      let z := if s then Z.neg m else Z.pos m in
      match e with
      | Z.neg p => z # (2 ^ p)
      | _ => (z * 2 ^ e) # 1
      end
  | _ => 0%Q
  end.

Definition to_Q (x : float) : Q := SF2Q (Prim2SF x).

Definition SFfinite (f : spec_float) : bool :=
  match f with
  | S754_zero _ | S754_finite _ _ _ => true
  | S754_infinity _ | S754_nan => false
  end.

Definition finite (x : float) : bool := SFfinite (Prim2SF x).

(** Sign of a datum: [Some true] below zero, [Some false] above,
    [None] for zeros and NaN. *)
Definition SFneg (f : spec_float) : option bool :=
  match f with
  | S754_finite s _ _ | S754_infinity s => Some s
  | _ => None
  end.

Definition SFzero (f : spec_float) : bool :=
  match f with
  | S754_zero _ => true
  | _ => false
  end.

(** [math.floor]: the integer floor of a finite float; [ValueError] on a
    NaN, [OverflowError] on an infinity. *)
Definition SFfloor (f : spec_float) : res Z :=
  match f with
  | S754_nan => Raise ValueError
  | S754_infinity _ => Raise OverflowError
  | _ => Ok (Qfloor (SF2Q f))
  end.

Definition floor (x : float) : res Z := SFfloor (Prim2SF x).

(** [a / b] on floats: [ZeroDivisionError] when the divisor compares equal
    to zero. *)
Definition truediv (a b : float) : res float :=
  if PrimFloat.eqb b 0 then Raise ZeroDivisionError else Ok (a / b)%float.

(** [max(0.0, v)]: Python's [max] keeps its first argument unless a later
    one is strictly greater. *)
Definition max0 (v : float) : float :=
  if PrimFloat.ltb 0 v then v else 0%float.

(** Round to the nearest integer, ties to the even one. *)
Definition round_half_even (q : Q) : Z :=
  let n := Qfloor q in
  match (q - inject_Z n ?= 1 # 2)%Q with
  | Lt => n
  | Gt => n + 1
  | Eq => if Z.even n then n else n + 1
  end.

(** *** Rounding on the grid of the smallest subnormal *)

Definition rnd_shift (T : Q) : Z := Z.max (Zdigits2 (Qfloor T) - 53) 0.

Definition rndG (T : Q) : Z :=
  round_half_even (T / inject_Z (2 ^ rnd_shift T)) * 2 ^ rnd_shift T.

Definition b2z (b : bool) : Z := if b then 1 else 0.

(** The mantissa with its round and sticky bits, read as an integer with
    two extra binary places. *)
Definition K_of (mrs : shr_record) : Z :=
  4 * shr_m mrs + 2 * b2z (shr_r mrs) + b2z (shr_s mrs).

(** [K] stands for the value [u]: exactly when [K] is even, and for some
    value strictly between its two even neighbours when [K] is odd. *)
Definition sticky (K : Z) (u : Q) : Prop :=
  if Z.even K then (u == inject_Z K)%Q
  else (inject_Z K - 1 < u < inject_Z K + 1)%Q.

(** The float a rounded mantissa [m1 <= 2 ^ 53] at exponent [e1] packs
    into. *)
Definition pack_round (sx : bool) (m1 e1 : Z) : spec_float :=
  if m1 =? 0 then S754_zero sx
  else if m1 =? 2 ^ 53 then
    if e1 + 1 <=? 971 then S754_finite sx (Z.to_pos (2 ^ 52)) (e1 + 1)
    else S754_infinity sx
  else if e1 <=? 971 then S754_finite sx (Z.to_pos m1) e1
  else S754_infinity sx.

(** The float [r] is what the grid value [G] (a count of units of
    [2 ^ -1074]) packs into: a zero, the finite float of that value, or an
    infinity from [2 ^ 1024] on. *)
Definition rounds_to (sx : bool) (G : Z) (r : spec_float) : Prop :=
  (G = 0 /\ r = S754_zero sx) \/
  (0 < G < 2 ^ 2098 /\
   exists m e, r = S754_finite sx m e /\ -1074 <= e /\
               Z.pos m * 2 ^ (e + 1074) = G) \/
  (2 ^ 2098 <= G /\ r = S754_infinity sx).

(** How the value [u / 4] at exponent [ex] reads in grid units. *)
Definition scaled (u : Q) (ex : Z) (T : Q) : Prop :=
  if 0 <=? ex + 1074 then (T == u / 4 * inject_Z (2 ^ (ex + 1074)))%Q
  else (T == u / 4 / inject_Z (2 ^ (- 1074 - ex)))%Q.

(** The magnitude of a float in units of [2 ^ -1074]. *)
Definition gz (f : spec_float) : Z :=
  match f with
  | S754_finite _ m e => Z.pos m * 2 ^ (e + 1074)
  | _ => 0
  end.

(** A zero of either sign or a positive finite float. *)
Definition SFnonneg (f : spec_float) : bool :=
  match f with
  | S754_zero _ => true
  | S754_finite s _ _ => negb s
  | _ => false
  end.

(** [r] is what the grid value [G] rounds to, the sign of a zero left
    open. *)
Definition rounds (G : Z) (r : spec_float) : Prop :=
  (G = 0 /\ exists s, r = S754_zero s) \/
  (0 < G < 2 ^ 2098 /\
   exists m e, r = S754_finite false m e /\ -1074 <= e /\
               Z.pos m * 2 ^ (e + 1074) = G) \/
  (2 ^ 2098 <= G /\ r = S754_infinity false).

(** A positive finite float. *)
Definition SFpos (f : spec_float) : bool :=
  match f with
  | S754_finite s _ _ => negb s
  | _ => false
  end.

(** Neither a NaN nor below zero. *)
Definition SFnn (f : spec_float) : bool :=
  match f with
  | S754_zero _ => true
  | S754_finite s _ _ | S754_infinity s => negb s
  | S754_nan => false
  end.

(** The grid value of a non-negative float, with [2 ^ 2098] (the grid value
    of [2 ^ 1024]) standing for plus infinity. *)
Definition rank (f : spec_float) : Z :=
  match f with
  | S754_finite _ m e => Z.pos m * 2 ^ (e + 1074)
  | S754_infinity _ => 2 ^ 2098
  | _ => 0
  end.

(** *** Non-negative floats and their grid values *)

(** The float is neither a NaN nor below zero. *)
Definition nonneg (x : float) : bool := SFnn (Prim2SF x).

(** Its value in units of [2 ^ -1074], plus infinity counting
    [2 ^ 2098]. *)
Definition grid (x : float) : Z := rank (Prim2SF x).

End F64.

(** ** The stripe packer *)

(** [pack_repeating_stripes(total, stripe, gap)], lines 26-30. *)
Definition pack_repeating_stripes (total stripe gap : float) : res Z :=
  if (PrimFloat.leb stripe 0 || PrimFloat.leb total 0)%bool then Ok 0
  else if PrimFloat.leb 0 gap then
    q <- F64.truediv (total + gap)%float (stripe + gap)%float ;;
    n <- F64.floor q ;;
    Ok (Z.max 0 n)
  else Ok 0.

(** ** Rectangles *)

(** A value stored in a rectangle's [meta] dictionary or in an export row. *)
Inductive pyval : Type :=
  | VInt (z : Z)
  | VFloat (f : float)
  | VStr (s : string).

(** An insertion-ordered dictionary with string keys. *)
Definition dict : Type := list (string * pyval).

(** The [Rect] dataclass, lines 17-24. *)
Record Rect : Type := mkRect {
  kind : string;
  x : float;
  y : float;
  w : float;
  h : float;
  meta : dict
}.

(** [str(n)] for an integer. *)
Definition str_of_Z (n : Z) : string := NilZero.string_of_int (Z.to_int n).

(** [range(count)]: empty when [count <= 0]. *)
Definition range (count : Z) : list Z := map Z.of_nat (seq 0 (Z.to_nat count)).

(** ** Placement *)

(** The loop state of [place_stripes]: the cursor and the two lists. *)
Record cursor : Type := mkCursor {
  cur_x : float;
  cur_y : float;
  cur_beds : list Rect;
  cur_aisles : list Rect
}.

(** One iteration of the [for i in range(count)] loop, lines 86-95. *)
Definition place_step (length stripe_w gap_w : float) (count : Z)
    (along_length : bool) (c : cursor) (i : Z) : cursor :=
  let between := VStr (str_of_Z (i + 1) ++ "-" ++ str_of_Z (i + 2)) in
  if along_length then
    let beds := cur_beds c ++
      [mkRect "bed" (cur_x c) (cur_y c) stripe_w length [("index"%string, VInt (i + 1))]] in
    if i <? count - 1 then
      mkCursor (cur_x c + (stripe_w + gap_w))%float (cur_y c) beds
        (cur_aisles c ++
           [mkRect "aisle" (cur_x c + stripe_w)%float (cur_y c) gap_w length
              [("between"%string, between)]])
    else mkCursor (cur_x c) (cur_y c) beds (cur_aisles c)
  else
    let beds := cur_beds c ++
      [mkRect "bed" (cur_x c) (cur_y c) length stripe_w [("index"%string, VInt (i + 1))]] in
    if i <? count - 1 then
      mkCursor (cur_x c) (cur_y c + (stripe_w + gap_w))%float beds
        (cur_aisles c ++
           [mkRect "aisle" (cur_x c) (cur_y c + stripe_w)%float length gap_w
              [("between"%string, between)]])
    else mkCursor (cur_x c) (cur_y c) beds (cur_aisles c).

(** [place_stripes], lines 82-96: returns [(beds, aisles)]. *)
Definition place_stripes (start_x start_y length stripe_w gap_w : float)
    (count : Z) (along_length : bool) : list Rect * list Rect :=
  let c := fold_left (place_step length stripe_w gap_w count along_length)
             (range count) (mkCursor start_x start_y [] []) in
  (cur_beds c, cur_aisles c).

(** ** Parameters *)

(** The two choices of the "Bed Orientation" select box; the script tests
    [orientation.startswith("North")]. *)
Inductive Orientation : Type := NorthSouth | EastWest.

(** The two choices of the "Choose Layout" select box. *)
Inductive Mode : Type := SoilBeds | Benches.

(** What the sidebar collects, lines 33-58. *)
Record Params : Type := mkParams {
  W : float;
  buffer : float;
  headhouse_depth : float;
  L : float;
  orientation : Orientation;
  include_service : bool;
  service_w : float;
  mode : Mode;
  bed_w : float;
  aisle_w : float;
  export_dpi : Z
}.

(** The floors the number inputs enforce ([min_value]); a number input
    yields a finite float. *)
Definition ui_valid (p : Params) : bool :=
  (F64.finite (W p) && PrimFloat.leb 2 (W p) &&
   F64.finite (buffer p) && PrimFloat.leb 0 (buffer p) &&
   F64.finite (headhouse_depth p) && PrimFloat.leb 0 (headhouse_depth p) &&
   F64.finite (L p) && PrimFloat.leb 3 (L p) &&
   F64.finite (service_w p) && PrimFloat.leb 0 (service_w p) &&
   F64.finite (bed_w p) && PrimFloat.leb 0.3 (bed_w p) &&
   F64.finite (aisle_w p) && PrimFloat.leb 0.3 (aisle_w p) &&
   (100 <=? export_dpi p) && (export_dpi p <=? 300))%bool.

(** House dimensions and an aisle width far below the overflow threshold
    of binary64: the packer's sum and quotient then stay finite. *)
Definition moderate (p : Params) : bool :=
  (PrimFloat.leb (W p) 1e300 && PrimFloat.leb (L p) 1e300 &&
   PrimFloat.leb (aisle_w p) 1e300)%bool.

(** ** Derived dimensions, lines 61-72 *)

Definition grow_L (p : Params) : float :=
  F64.max0 (L p - headhouse_depth p - 2 * buffer p)%float.

Definition grow_W (p : Params) : float :=
  F64.max0 (W p - 2 * buffer p)%float.

Definition beds_along_length (p : Params) : bool :=
  match orientation p with
  | NorthSouth => true
  | EastWest => false
  end.

Definition stripes_span (p : Params) : float :=
  if beds_along_length p then grow_W p else grow_L p.

Definition stripe_length (p : Params) : float :=
  if beds_along_length p then grow_L p else grow_W p.

Definition n_beds (p : Params) : res Z :=
  pack_repeating_stripes (stripes_span p) (bed_w p) (aisle_w p).

(** ** Building the rectangles, lines 75-102 *)

Definition headhouse_rects (p : Params) : list Rect :=
  if PrimFloat.ltb 0 (headhouse_depth p) then
    [mkRect "headhouse" 0 0 (W p) (headhouse_depth p)
       [("label"%string, VStr "Headhouse")]]
  else [].

Definition start_x (p : Params) : float := buffer p.

Definition start_y (p : Params) : float := (headhouse_depth p + buffer p)%float.

(** [sum(r.w * r.h for r in rects if r.kind == k)].  Python starts the sum
    at the integer 0, which the first addition converts to 0.0. *)
Definition area_of (k : string) (rects : list Rect) : float :=
  fold_left (fun acc r => (acc + w r * h r)%float)
    (filter (fun r => String.eqb (kind r) k) rects) 0%float.

(** The script's globals once line 108 has run. *)
Record Layout : Type := mkLayout {
  rects : list Rect;
  beds : list Rect;
  aisles : list Rect;
  bed_area : float;
  aisle_area : float;
  headhouse_area : float;
  total_area : float
}.

Definition compute_layout (p : Params) : res Layout :=
  n <- n_beds p ;;
  let '(bs, ais) :=
    place_stripes (start_x p) (start_y p) (stripe_length p) (bed_w p)
      (aisle_w p) n (beds_along_length p) in
  let rs := headhouse_rects p ++ bs ++ ais in
  Ok (mkLayout rs bs ais (area_of "bed" rs) (area_of "aisle" rs)
        (headhouse_depth p * W p)%float (W p * L p)%float).

(** ** Key figures and export, lines 113-144 *)

(** [f"{v:.1f}"]: the exact value of [v] correctly rounded to one decimal. *)
Definition format_f1 (v : float) : string :=
  match Prim2SF v with
  | S754_nan => "nan"
  | S754_infinity s => if s then "-inf" else "inf"
  | f =>
      let neg := match f with
                 | S754_zero s | S754_finite s _ _ => s
                 | _ => false
                 end in
      let t := F64.round_half_even (Qabs (F64.SF2Q f) * 10) in
      (if neg then "-" else "") ++ str_of_Z (t / 10) ++ "." ++ str_of_Z (t mod 10)
  end%string.

(** The three metric tiles: bed count, cultivable area with its share of the
    footprint, headhouse area (the unit suffixes are left out). *)
Record Kpis : Type := mkKpis {
  kpi_beds : string;
  kpi_cultivable : string;
  kpi_cultivable_pct : string;
  kpi_headhouse : string
}.

Definition kpis (lay : Layout) : res Kpis :=
  pct <- F64.truediv (100 * bed_area lay)%float (total_area lay) ;;
  Ok (mkKpis (str_of_Z (Z.of_nat (List.length (beds lay))))
        (format_f1 (bed_area lay)) (format_f1 pct)
        (format_f1 (headhouse_area lay))).

(** One export row per rectangle, line 142. *)
Definition export_row (r : Rect) : dict :=
  [("Type", VStr (kind r)); ("x", VFloat (x r)); ("y", VFloat (y r));
   ("width", VFloat (w r)); ("height", VFloat (h r))]%string ++ meta r.

Definition export_rows (lay : Layout) : list dict := map export_row (rects lay).

(** The spec's end-to-end example. *)
Definition example_params : Params :=
  mkParams 9 0.3 2 24 NorthSouth true 0.8 SoilBeds 1.2 0.5 160.

(** A tight fit in decimals: a 3 m wide house with a 0.3 buffer leaves a
    span of 2.4 for beds 0.8 wide with 0.8 aisles. *)
Definition tight_params : Params :=
  mkParams 3 0.3 2 24 NorthSouth true 0.8 SoilBeds 0.8 0.8 160.

(** A plain small house in decimals: 2 m wide, no buffer, beds 0.3 wide
    and aisles 0.6 wide give two beds. *)
Definition small_params : Params :=
  mkParams 2 0 2 24 NorthSouth true 0.8 SoilBeds 0.3 0.6 160.

(** East-west beds behind a headhouse [2 ^ 53] deep in a house 2 longer:
    the pass starts at [y = 2 ^ 53], where consecutive floats are 2
    apart. *)
Definition absorbing_params : Params :=
  mkParams 9 0 9007199254740992 9007199254740994 EastWest true 0.8 SoilBeds
    0.5 0.5 160.

(** A house with dyadic dimensions, where nothing is rounded: 6.5 m wide, a
    0.25 buffer, beds 1.5 wide and 0.5 aisles give three beds on a span
    of 6. *)
Definition dyadic_params : Params :=
  mkParams 6.5 0.25 2 24 NorthSouth true 0.75 SoilBeds 1.5 0.5 160.

(** The whole script up to the export table: layout, key figures, rows. *)
Definition run (p : Params) : res (Layout * Kpis * list dict) :=
  lay <- compute_layout p ;;
  k <- kpis lay ;;
  Ok (lay, k, export_rows lay).

(** Two parameter tuples that agree on everything but the two service-aisle
    inputs. *)
Definition same_but_service (p1 p2 : Params) : Prop :=
  W p1 = W p2 /\ buffer p1 = buffer p2 /\
  headhouse_depth p1 = headhouse_depth p2 /\ L p1 = L p2 /\
  orientation p1 = orientation p2 /\ mode p1 = mode p2 /\
  bed_w p1 = bed_w p2 /\ aisle_w p1 = aisle_w p2 /\
  export_dpi p1 = export_dpi p2.

(** Degenerate geometry as the packer sees it. *)
Definition degenerate (total stripe gap : float) : Prop :=
  (stripe <=? 0)%float = true \/ (total <=? 0)%float = true \/
  (gap <? 0)%float = true.

(** Looking a key up in a dictionary. *)
Fixpoint dict_get (k : string) (d : dict) : option pyval :=
  match d with
  | [] => None
  | (k', v) :: d' => if String.eqb k k' then Some v else dict_get k d'
  end.

(** ** Exact values and rounding *)

(** [a + b] (resp. [a / b]) is finite and carries no rounding error. *)
Definition exact_add (a b : float) : bool :=
  (F64.finite (a + b) &&
   Qeq_bool (F64.to_Q (a + b)) (F64.to_Q a + F64.to_Q b))%bool.

Definition exact_div (a b : float) : bool :=
  (F64.finite (a / b) &&
   Qeq_bool (F64.to_Q (a / b)) (F64.to_Q a / F64.to_Q b))%bool.

(** The two sums and the quotient of the packer's closed form are exact. *)
Definition pack_exact (total stripe gap : float) : bool :=
  (exact_add total gap && exact_add stripe gap &&
   exact_div (total + gap) (stripe + gap))%bool.

(** [n] stripes with their [n - 1] gaps fit in [total], and [n + 1] with
    [n] gaps do not; widths are the exact values of the floats. *)
Definition pack_fits (total stripe gap : float) (n : Z) : Prop :=
  (inject_Z n * F64.to_Q stripe + inject_Z (Z.max 0 (n - 1)) * F64.to_Q gap
     <= F64.to_Q total /\
   F64.to_Q total
     < inject_Z (n + 1) * F64.to_Q stripe + inject_Z n * F64.to_Q gap)%Q.

(** ** Closed form of a placement pass *)

(** The cursor after [k] advances of [step] from [start]; every advance is
    one rounded addition, as [x += stripe_w + gap_w] is. *)
Fixpoint advance (start step : float) (k : nat) : float :=
  match k with
  | O => start
  | S k' => (advance start step k' + step)%float
  end.

(** The bed and the aisle that iteration [i] appends. *)
Definition bed_at (start_x start_y length stripe_w gap_w : float)
    (along_length : bool) (i : Z) : Rect :=
  if along_length then
    mkRect "bed" (advance start_x (stripe_w + gap_w) (Z.to_nat i)) start_y
      stripe_w length [("index"%string, VInt (i + 1))]
  else
    mkRect "bed" start_x (advance start_y (stripe_w + gap_w) (Z.to_nat i))
      length stripe_w [("index"%string, VInt (i + 1))].

Definition aisle_at (start_x start_y length stripe_w gap_w : float)
    (along_length : bool) (i : Z) : Rect :=
  let between := VStr (str_of_Z (i + 1) ++ "-" ++ str_of_Z (i + 2)) in
  if along_length then
    mkRect "aisle" (advance start_x (stripe_w + gap_w) (Z.to_nat i) + stripe_w)
      start_y gap_w length [("between"%string, between)]
  else
    mkRect "aisle" start_x
      (advance start_y (stripe_w + gap_w) (Z.to_nat i) + stripe_w)
      length gap_w [("between"%string, between)].

(** ** Geometry along the packed axis *)

(** Position and extent of a rectangle along the packed axis (x and width
    for north-south beds, y and height otherwise), as exact values. *)
Definition axis_pos (along_length : bool) (r : Rect) : Q :=
  F64.to_Q (if along_length then x r else y r).

Definition axis_ext (along_length : bool) (r : Rect) : Q :=
  F64.to_Q (if along_length then w r else h r).

Definition Qsum (l : list Q) : Q := fold_right Qplus 0%Q l.

(** Where the pass starts along the packed axis. *)
Definition axis_start (p : Params) : float :=
  if beds_along_length p then start_x p else start_y p.

(** Every cursor update [x += stripe_w + gap_w] and every aisle position
    [x + stripe_w] of a pass of [count] beds is exact. *)
Definition place_exact (start stripe_w gap_w : float) (count : Z) : bool :=
  forallb
    (fun k =>
       (exact_add (advance start (stripe_w + gap_w) k) (stripe_w + gap_w) &&
        exact_add (advance start (stripe_w + gap_w) k) stripe_w)%bool)
    (seq 0 (Z.to_nat (count - 1))).

(** The packer and the placement pass of a layout run without rounding. *)
Definition layout_exact (p : Params) : bool :=
  (pack_exact (stripes_span p) (bed_w p) (aisle_w p) &&
   match n_beds p with
   | Ok n => place_exact (axis_start p) (bed_w p) (aisle_w p) n
   | Raise _ => false
   end)%bool.

(** The beds and aisles stay inside the span: their extents add up to at
    most [stripes_span], and no far edge lies beyond
    [start + stripes_span]. *)
Definition within_span (p : Params) (lay : Layout) : Prop :=
  let along := beds_along_length p in
  (Qsum (map (axis_ext along) (beds lay ++ aisles lay))
     <= F64.to_Q (stripes_span p))%Q /\
  Forall
    (fun r =>
       (axis_pos along r + axis_ext along r
          <= F64.to_Q (axis_start p) + F64.to_Q (stripes_span p))%Q)
    (beds lay ++ aisles lay).

(** Two rectangles share interior points. *)
Definition overlap (r1 r2 : Rect) : Prop :=
  (F64.to_Q (x r1) < F64.to_Q (x r2) + F64.to_Q (w r2) /\
   F64.to_Q (x r2) < F64.to_Q (x r1) + F64.to_Q (w r1) /\
   F64.to_Q (y r1) < F64.to_Q (y r2) + F64.to_Q (h r2) /\
   F64.to_Q (y r2) < F64.to_Q (y r1) + F64.to_Q (h r1))%Q.

(** No two rectangles at different places of the list overlap. *)
Definition pairwise_disjoint (l : list Rect) : Prop :=
  forall i j r1 r2,
    i <> j -> nth_error l i = Some r1 -> nth_error l j = Some r2 ->
    ~ overlap r1 r2.

(** ** Drawing, lines 120-130 *)

(** The face colours of [draw_rect], line 124. *)
Definition colors : list (string * string) :=
  [("bed", "#7cd992"); ("aisle", "#e5e7eb"); ("headhouse", "#fbcfe8")]%string.

(** [d.get(k, default)]. *)
Fixpoint get_default (k : string) (d : list (string * string))
    (default : string) : string :=
  match d with
  | [] => default
  | (k', v) :: d' => if String.eqb k k' then v else get_default k d' default
  end.

(** What a [plt.Rectangle] call is given: the anchor, the extent and the
    keyword arguments the script passes ([None] for one it leaves out). *)
Record Patch : Type := mkPatch {
  patch_x : pyval;
  patch_y : pyval;
  patch_w : float;
  patch_h : float;
  fill : option bool;
  linewidth : option Z;
  facecolor : option string;
  edgecolor : option string;
  alpha : option float
}.

(** The outline of the house, line 121. *)
Definition outline (p : Params) : Patch :=
  mkPatch (VInt 0) (VInt 0) (W p) (L p) (Some false) (Some 2) None None None.

(** [draw_rect], lines 123-127. *)
Definition draw_rect (r : Rect) : Patch :=
  mkPatch (VFloat (x r)) (VFloat (y r)) (w r) (h r) None None
    (Some (get_default (kind r) colors "#ddd")) (Some "black"%string)
    (Some 0.7%float).

(** The patches added to the axes, in the order of the [add_patch] calls:
    the outline, then one patch per rectangle (lines 121 and 129-130). *)
Definition plot_patches (p : Params) (lay : Layout) : list Patch :=
  outline p :: map draw_rect (rects lay).

(** ** Vocabulary of the further properties *)

(** A rectangle mirrored in the diagonal: x and y, width and height
    exchanged. *)
Definition transpose (r : Rect) : Rect :=
  mkRect (kind r) (y r) (x r) (h r) (w r) (meta r).

(** The coordinate of a rectangle along the packed axis, as the float the
    script stores. *)
Definition axis_coord (along_length : bool) (r : Rect) : float :=
  if along_length then x r else y r.

(** The area one rectangle adds to its sum: [r.w * r.h]. *)
Definition bed_product (p : Params) : float :=
  if beds_along_length p then (bed_w p * stripe_length p)%float
  else (stripe_length p * bed_w p)%float.

Definition aisle_product (p : Params) : float :=
  if beds_along_length p then (aisle_w p * stripe_length p)%float
  else (stripe_length p * aisle_w p)%float.

(** Two parameter tuples with the same house, buffer, headhouse,
    orientation and widths; the layout mode, the service-aisle inputs and
    the export resolution are free. *)
Definition same_geometry (p1 p2 : Params) : Prop :=
  W p1 = W p2 /\ buffer p1 = buffer p2 /\
  headhouse_depth p1 = headhouse_depth p2 /\ L p1 = L p2 /\
  orientation p1 = orientation p2 /\
  bed_w p1 = bed_w p2 /\ aisle_w p1 = aisle_w p2.

(** The house of [p1] is no larger, its buffer and headhouse no smaller
    than those of [p2]; orientation and widths agree. *)
Definition tighter (p1 p2 : Params) : Prop :=
  PrimFloat.leb (W p1) (W p2) = true /\
  PrimFloat.leb (L p1) (L p2) = true /\
  PrimFloat.leb (buffer p2) (buffer p1) = true /\
  PrimFloat.leb (headhouse_depth p2) (headhouse_depth p1) = true /\
  orientation p1 = orientation p2 /\
  bed_w p1 = bed_w p2 /\ aisle_w p1 = aisle_w p2.

(** * Facts about binary64 comparisons with zero *)

Module F64Facts.
Import F64.

Lemma Prim2SF_0 : Prim2SF 0 = S754_zero false.
Proof. reflexivity. Qed.

Lemma leb_0_r v :
  (v <=? 0)%float = (SFzero (Prim2SF v) || match SFneg (Prim2SF v) with Some s => s | None => false end)%bool.
Proof.
  rewrite leb_spec, Prim2SF_0.
  destruct (Prim2SF v) as [s|s| |s m e]; try destruct s; reflexivity.
Qed.

Lemma leb_0_l v :
  (0 <=? v)%float = (SFzero (Prim2SF v) || match SFneg (Prim2SF v) with Some s => negb s | None => false end)%bool.
Proof.
  rewrite leb_spec, Prim2SF_0.
  destruct (Prim2SF v) as [s|s| |s m e]; try destruct s; reflexivity.
Qed.

Lemma ltb_0_l v :
  (0 <? v)%float = match SFneg (Prim2SF v) with Some s => negb s | None => false end.
Proof.
  rewrite ltb_spec, Prim2SF_0.
  destruct (Prim2SF v) as [s|s| |s m e]; try destruct s; reflexivity.
Qed.

Lemma ltb_0_r v :
  (v <? 0)%float = match SFneg (Prim2SF v) with Some s => s | None => false end.
Proof.
  rewrite ltb_spec, Prim2SF_0.
  destruct (Prim2SF v) as [s|s| |s m e]; try destruct s; reflexivity.
Qed.

Lemma eqb_0_r v : (v =? 0)%float = SFzero (Prim2SF v).
Proof.
  rewrite eqb_spec, Prim2SF_0.
  destruct (Prim2SF v) as [s|s| |s m e]; try destruct s; reflexivity.
Qed.

(** A gap below zero is not at least zero, whatever else it is. *)
Lemma ltb_0_r_not_leb v : (v <? 0)%float = true -> (0 <=? v)%float = false.
Proof.
  rewrite ltb_0_r, leb_0_l.
  destruct (Prim2SF v) as [s|s| |s m e]; simpl; try discriminate;
    intros ->; reflexivity.
Qed.

Lemma SF2Q_finite_sign (s : bool) m e :
  if s then (SF2Q (S754_finite s m e) < 0)%Q else (0 < SF2Q (S754_finite s m e))%Q.
Proof.
  destruct s, e as [|p|p]; unfold Qlt; cbn [SF2Q Qnum Qden]; rewrite ?Z.mul_1_r;
    try lia;
    pose proof (Z.pow_pos_nonneg 2 (Z.pos p) ltac:(lia) ltac:(lia)); nia.
Qed.

Lemma to_Q_pos v : finite v = true -> (0 <? v)%float = true -> (0 < to_Q v)%Q.
Proof.
  unfold finite, to_Q. rewrite ltb_0_l.
  destruct (Prim2SF v) as [s|s| |s m e]; simpl; try discriminate.
  destruct s; try discriminate. intros _ _.
  apply (SF2Q_finite_sign false).
Qed.

Lemma to_Q_nonneg v : (0 <=? v)%float = true -> (0 <= to_Q v)%Q.
Proof.
  unfold to_Q. rewrite leb_0_l.
  destruct (Prim2SF v) as [s|s| |s m e]; simpl; try discriminate;
    try (intros _; apply Qle_refl).
  destruct s; try discriminate. intros _.
  apply Qlt_le_weak, (SF2Q_finite_sign false).
Qed.

Lemma to_Q_nonzero_eqb v : ~ (to_Q v == 0)%Q -> (v =? 0)%float = false.
Proof.
  unfold to_Q. rewrite eqb_0_r.
  destruct (Prim2SF v) as [s|s| |s m e]; simpl; try reflexivity.
  intros H. exfalso. apply H. reflexivity.
Qed.

Lemma floor_finite v : finite v = true -> floor v = Ok (Qfloor (to_Q v)).
Proof.
  unfold finite, floor, to_Q.
  destruct (Prim2SF v); simpl; try discriminate; reflexivity.
Qed.

(** A sum is finite only if both addends are. *)
Lemma finite_add a b : finite (a + b)%float = true -> finite a = true /\ finite b = true.
Proof.
  unfold finite. rewrite add_spec.
  destruct (Prim2SF a) as [sa|sa| |sa ma ea], (Prim2SF b) as [sb|sb| |sb mb eb];
    try (intros _; split; reflexivity);
    try destruct sa; try destruct sb; simpl; discriminate.
Qed.

Lemma ltb_0_l_not_leb v : (0 <? v)%float = true -> (v <=? 0)%float = false.
Proof.
  rewrite ltb_0_l, leb_0_r.
  destruct (Prim2SF v) as [s|s| |s m e]; simpl; try discriminate;
    destruct s; simpl; congruence.
Qed.

Lemma leb_both_zero v :
  (v <=? 0)%float = true -> (0 <=? v)%float = true -> (to_Q v == 0)%Q.
Proof.
  unfold to_Q. rewrite leb_0_l, leb_0_r.
  destruct (Prim2SF v) as [s|s| |s m e]; simpl; try discriminate;
    try (intros _ _; reflexivity); destruct s; simpl; discriminate.
Qed.

End F64Facts.

(** * Correct rounding of sums and quotients of non-negative floats *)

Module F64Round.
Import F64.

(** * Binary digits *)

Lemma digits2_pos_bounds p :
  2 ^ (Z.pos (digits2_pos p) - 1) <= Z.pos p < 2 ^ Z.pos (digits2_pos p).
Proof.
  induction p as [p IH|p IH|]; cbn [digits2_pos].
  - rewrite Pos2Z.inj_succ.
    replace (Z.succ (Z.pos (digits2_pos p)) - 1) with (Z.succ (Z.pos (digits2_pos p) - 1)) by lia.
    rewrite !Z.pow_succ_r by lia. lia.
  - rewrite Pos2Z.inj_succ.
    replace (Z.succ (Z.pos (digits2_pos p)) - 1) with (Z.succ (Z.pos (digits2_pos p) - 1)) by lia.
    rewrite !Z.pow_succ_r by lia. lia.
  - cbn. lia.
Qed.

Lemma Zdigits2_nonneg m : 0 <= Zdigits2 m.
Proof. destruct m; cbn; lia. Qed.

Lemma Zdigits2_bounds m :
  0 < m -> 2 ^ (Zdigits2 m - 1) <= m < 2 ^ Zdigits2 m.
Proof.
  destruct m as [|p|p]; try lia. intros _. apply digits2_pos_bounds.
Qed.

Lemma Zdigits2_pos m : 0 < m -> 0 < Zdigits2 m.
Proof. destruct m; cbn; lia. Qed.

Lemma Zdigits2_lt_pow m k : 0 <= k -> 0 <= m < 2 ^ k -> Zdigits2 m <= k.
Proof.
  intros Hk [H0 Hm]. destruct (Z.eq_dec m 0) as [->|Hnz]; [cbn; lia|].
  destruct (Zdigits2_bounds m ltac:(lia)) as [Hlo _].
  destruct (Z.le_gt_cases (Zdigits2 m) k) as [|Hgt]; [assumption|exfalso].
  assert (2 ^ k <= 2 ^ (Zdigits2 m - 1)) by (apply Z.pow_le_mono_r; lia).
  lia.
Qed.

Lemma Zdigits2_ge_pow m k : 0 <= k -> 2 ^ k <= m -> k + 1 <= Zdigits2 m.
Proof.
  intros Hk Hm.
  assert (0 < 2 ^ k) by (apply Z.pow_pos_nonneg; lia).
  destruct (Zdigits2_bounds m ltac:(lia)) as [_ Hhi].
  destruct (Z.le_gt_cases (k + 1) (Zdigits2 m)) as [|Hgt]; [assumption|exfalso].
  assert (2 ^ Zdigits2 m <= 2 ^ k)
    by (apply Z.pow_le_mono_r; pose proof (Zdigits2_nonneg m); lia).
  lia.
Qed.

Lemma Zdigits2_le a b : 0 <= a <= b -> Zdigits2 a <= Zdigits2 b.
Proof.
  intros [Ha Hab]. destruct (Z.eq_dec a 0) as [->|Hnz].
  - apply Zdigits2_nonneg.
  - destruct (Zdigits2_bounds a ltac:(lia)) as [Hlo _].
    pose proof (Zdigits2_pos a ltac:(lia)).
    pose proof (Zdigits2_ge_pow b (Zdigits2 a - 1) ltac:(lia) ltac:(lia)). lia.
Qed.

Lemma Zdigits2_mul_pow2 m k :
  0 < m -> 0 <= k -> Zdigits2 (m * 2 ^ k) = Zdigits2 m + k.
Proof.
  intros Hm Hk.
  destruct (Zdigits2_bounds m Hm) as [Hlo Hhi].
  pose proof (Zdigits2_pos m Hm) as Hd.
  assert (Hp : 0 < 2 ^ k) by (apply Z.pow_pos_nonneg; lia).
  apply Z.le_antisymm.
  - apply Zdigits2_lt_pow; [lia|]. split; [nia|].
    rewrite Z.pow_add_r by lia. nia.
  - pose proof (Zdigits2_ge_pow (m * 2 ^ k) (Zdigits2 m - 1 + k) ltac:(lia)) as H.
    rewrite Z.pow_add_r in H by lia. specialize (H ltac:(nia)). lia.
Qed.

Lemma Zdigits2_div_pow2 m k :
  0 <= m -> 0 <= k -> Zdigits2 (m / 2 ^ k) = Z.max (Zdigits2 m - k) 0.
Proof.
  intros Hm Hk.
  assert (Hp : 0 < 2 ^ k) by (apply Z.pow_pos_nonneg; lia).
  destruct (Z.eq_dec m 0) as [->|Hnz].
  { rewrite Z.div_0_l by lia. cbn. lia. }
  destruct (Zdigits2_bounds m ltac:(lia)) as [Hlo Hhi].
  pose proof (Zdigits2_pos m ltac:(lia)) as Hd.
  destruct (Z.le_gt_cases (Zdigits2 m) k) as [Hle|Hgt].
  - rewrite Z.div_small.
    + cbn. lia.
    + split; [lia|]. assert (2 ^ Zdigits2 m <= 2 ^ k) by (apply Z.pow_le_mono_r; lia). lia.
  - rewrite Z.max_l by lia.
    apply Z.le_antisymm.
    + apply Zdigits2_lt_pow; [lia|]. split; [apply Z.div_pos; lia|].
      apply Z.div_lt_upper_bound; [lia|].
      rewrite <- Z.pow_add_r by lia. replace (k + (Zdigits2 m - k)) with (Zdigits2 m) by lia. lia.
    + pose proof (Zdigits2_ge_pow (m / 2 ^ k) (Zdigits2 m - k - 1) ltac:(lia)) as H.
      assert (2 ^ (Zdigits2 m - k - 1) <= m / 2 ^ k).
      { apply Z.div_le_lower_bound; [lia|].
        rewrite <- Z.pow_add_r by lia.
        replace (k + (Zdigits2 m - k - 1)) with (Zdigits2 m - 1) by lia. lia. }
      lia.
Qed.

(** * Rounding to the nearest integer, ties to even *)

Lemma rhe_cases q :
  let n := Qfloor q in
  (inject_Z n <= q < inject_Z n + 1)%Q /\
  ((q - inject_Z n < 1 # 2)%Q /\ round_half_even q = n \/
   (q - inject_Z n == 1 # 2)%Q /\ round_half_even q = (if Z.even n then n else n + 1) \/
   (1 # 2 < q - inject_Z n)%Q /\ round_half_even q = n + 1).
Proof.
  intros n. split.
  - split; [apply Qfloor_le|].
    pose proof (Qlt_floor q) as H. rewrite inject_Z_plus in H. exact H.
  - unfold round_half_even. fold n.
    destruct (q - inject_Z n ?= 1 # 2)%Q eqn:E.
    + right; left. split; [now apply Qeq_alt|reflexivity].
    + left. split; [now apply Qlt_alt|reflexivity].
    + right; right. split; [now apply Qgt_alt|reflexivity].
Qed.

Lemma rhe_bounds q : Qfloor q <= round_half_even q <= Qfloor q + 1.
Proof.
  destruct (rhe_cases q) as [_ [[_ ->]|[[_ ->]|[_ ->]]]]; try lia.
  destruct (Z.even (Qfloor q)); lia.
Qed.

Lemma rhe_Z k : round_half_even (inject_Z k) = k.
Proof.
  destruct (rhe_cases (inject_Z k)) as [_ H]. rewrite Qfloor_Z in H.
  destruct H as [[_ ->]|[[H _]|[H _]]]; try reflexivity; exfalso; lra.
Qed.

Lemma rhe_comp q1 q2 : (q1 == q2)%Q -> round_half_even q1 = round_half_even q2.
Proof.
  intros E. unfold round_half_even. rewrite (Qfloor_comp _ _ E).
  assert (E2 : (q1 - inject_Z (Qfloor q2) == q2 - inject_Z (Qfloor q2))%Q) by (rewrite E; reflexivity).
  now rewrite (Qcompare_comp _ _ E2 _ _ (Qeq_refl (1 # 2))).
Qed.

Lemma rhe_mono q1 q2 : (q1 <= q2)%Q -> round_half_even q1 <= round_half_even q2.
Proof.
  intros Hle.
  pose proof (Qfloor_resp_le _ _ Hle) as Hf.
  destruct (Z.eq_dec (Qfloor q1) (Qfloor q2)) as [E|Hne].
  - destruct (rhe_cases q1) as [_ H1]. destruct (rhe_cases q2) as [_ H2].
    cbv zeta in H1, H2. rewrite E in H1.
    destruct H1 as [[A1 ->]|[[A1 ->]|[A1 ->]]];
      destruct H2 as [[A2 ->]|[[A2 ->]|[A2 ->]]];
      try destruct (Z.even (Qfloor q2)); try lia; exfalso; lra.
  - pose proof (rhe_bounds q1). pose proof (rhe_bounds q2). lia.
Qed.

(** * Rounding a value counted in units of the smallest subnormal *)

Lemma rnd_shift_nonneg T : 0 <= rnd_shift T.
Proof. unfold rnd_shift. lia. Qed.

Lemma pow2_pos k : 0 <= k -> 0 < 2 ^ k.
Proof. intros. apply Z.pow_pos_nonneg; lia. Qed.

Lemma inject_pow2_pos k : 0 <= k -> (0 < inject_Z (2 ^ k))%Q.
Proof.
  intros Hk. change 0%Q with (inject_Z 0). rewrite <- Zlt_Qlt. now apply pow2_pos.
Qed.

Lemma Qdiv_inject_pow c n :
  0 <= n -> (inject_Z (c * 2 ^ n) / inject_Z (2 ^ n) == inject_Z c)%Q.
Proof.
  intros Hn. rewrite inject_Z_mult.
  pose proof (inject_pow2_pos n Hn). field. lra.
Qed.

Lemma Qdiv_le_pos a b c : (0 < c -> a <= b -> a / c <= b / c)%Q.
Proof.
  intros Hc Hab. apply Qle_shift_div_l; [exact Hc|].
  assert (E : (c * (a / c) == a)%Q) by (apply Qmult_div_r; lra).
  lra.
Qed.

(** Rounding at shift [n] is bounded by any multiple of [2 ^ n] that bounds
    the value. *)
Lemma rhe_shift_le T c n :
  0 <= n -> (T <= inject_Z (c * 2 ^ n))%Q ->
  round_half_even (T / inject_Z (2 ^ n)) * 2 ^ n <= c * 2 ^ n.
Proof.
  intros Hn HT. apply Z.mul_le_mono_nonneg_r; [pose proof (pow2_pos n Hn); lia|].
  rewrite <- (rhe_Z c). apply rhe_mono.
  rewrite <- (Qdiv_inject_pow c n Hn).
  apply Qdiv_le_pos; [now apply inject_pow2_pos|exact HT].
Qed.

Lemma rhe_shift_ge T c n :
  0 <= n -> (inject_Z (c * 2 ^ n) <= T)%Q ->
  c * 2 ^ n <= round_half_even (T / inject_Z (2 ^ n)) * 2 ^ n.
Proof.
  intros Hn HT. apply Z.mul_le_mono_nonneg_r; [pose proof (pow2_pos n Hn); lia|].
  rewrite <- (rhe_Z c) at 1. apply rhe_mono.
  rewrite <- (Qdiv_inject_pow c n Hn).
  apply Qdiv_le_pos; [now apply inject_pow2_pos|exact HT].
Qed.

Lemma Qfloor_nonneg T : (0 <= T)%Q -> 0 <= Qfloor T.
Proof.
  intros H. rewrite <- (Qfloor_Z 0). now apply Qfloor_resp_le.
Qed.

Lemma rnd_shift_mono T1 T2 :
  (0 <= T1)%Q -> (T1 <= T2)%Q -> rnd_shift T1 <= rnd_shift T2.
Proof.
  intros H0 Hle. unfold rnd_shift.
  pose proof (Zdigits2_le (Qfloor T1) (Qfloor T2)
                (conj (Qfloor_nonneg T1 H0) (Qfloor_resp_le _ _ Hle))).
  lia.
Qed.

Theorem rndG_mono T1 T2 :
  (0 <= T1)%Q -> (T1 <= T2)%Q -> rndG T1 <= rndG T2.
Proof.
  intros H0 Hle.
  pose proof (rnd_shift_mono T1 T2 H0 Hle) as Hn.
  pose proof (rnd_shift_nonneg T1) as Hn1.
  unfold rndG.
  destruct (Z.eq_dec (rnd_shift T1) (rnd_shift T2)) as [E|Hne].
  - rewrite E. apply Z.mul_le_mono_nonneg_r.
    + pose proof (pow2_pos (rnd_shift T2)). lia.
    + apply rhe_mono, Qdiv_le_pos; [apply inject_pow2_pos; lia|exact Hle].
  - set (n1 := rnd_shift T1) in *. set (n2 := rnd_shift T2) in *.
    set (d1 := Zdigits2 (Qfloor T1)). set (d2 := Zdigits2 (Qfloor T2)).
    assert (En1 : n1 = Z.max (d1 - 53) 0) by reflexivity.
    assert (En2 : n2 = Z.max (d2 - 53) 0) by reflexivity.
    clearbody n1 n2.
    assert (Hd2 : n2 = d2 - 53 /\ 54 <= d2) by lia.
    assert (Hd1 : d1 < d2) by lia.
    pose proof (Zdigits2_nonneg (Qfloor T1)) as Hd1n. fold d1 in Hd1n.
    (* the power of two between the two values *)
    assert (HB1 : (T1 <= inject_Z (2 ^ (d2 - 1 - n1) * 2 ^ n1))%Q).
    { rewrite <- Z.pow_add_r by lia. replace (d2 - 1 - n1 + n1) with (d2 - 1) by lia.
      pose proof (Qlt_floor T1) as Hlt.
      assert (Hz : Qfloor T1 + 1 <= 2 ^ (d2 - 1)).
      { destruct (Z.eq_dec (Qfloor T1) 0) as [->|Hnz].
        - pose proof (pow2_pos (d2 - 1)). lia.
        - destruct (Zdigits2_bounds (Qfloor T1)) as [_ Hhi].
          { pose proof (Qfloor_nonneg T1 H0). lia. }
          fold d1 in Hhi.
          assert (2 ^ d1 <= 2 ^ (d2 - 1)) by (apply Z.pow_le_mono_r; lia). lia. }
      rewrite Zle_Qle in Hz. lra. }
    assert (HB2 : (inject_Z (2 ^ (d2 - 1 - n2) * 2 ^ n2) <= T2)%Q).
    { rewrite <- Z.pow_add_r by lia. replace (d2 - 1 - n2 + n2) with (d2 - 1) by lia.
      pose proof (Qfloor_le T2) as Hfl.
      assert (Hz : 2 ^ (d2 - 1) <= Qfloor T2).
      { destruct (Zdigits2_bounds (Qfloor T2)) as [Hlo _]; [|exact Hlo].
        assert (0 <= Qfloor T2) by (apply Qfloor_nonneg; lra).
        destruct (Z.eq_dec (Qfloor T2) 0) as [E0|]; [|lia].
        unfold d2 in Hd2. rewrite E0 in Hd2. cbn in Hd2. lia. }
      rewrite Zle_Qle in Hz. lra. }
    pose proof (rhe_shift_le T1 _ n1 Hn1 HB1) as U1.
    pose proof (rhe_shift_ge T2 _ n2 ltac:(lia) HB2) as U2.
    rewrite <- Z.pow_add_r in U1, U2 by lia.
    replace (d2 - 1 - n1 + n1) with (d2 - 1) in U1 by lia.
    replace (d2 - 1 - n2 + n2) with (d2 - 1) in U2 by lia.
    lia.
Qed.

(** * Shifting with round and sticky bits *)

Lemma K_of_even mrs : Z.even (K_of mrs) = negb (shr_s mrs).
Proof.
  unfold K_of. rewrite Z.even_add, Z.even_add, !Z.even_mul.
  destruct (shr_r mrs), (shr_s mrs); cbn; rewrite ?andb_false_r; reflexivity.
Qed.

Lemma sticky_comp K u v : (u == v)%Q -> sticky K u -> sticky K v.
Proof.
  unfold sticky. intros E. destruct (Z.even K); intros H; lra.
Qed.

Lemma shr_1_fields m r s :
  0 <= m ->
  shr_1 (Build_shr_record m r s) = Build_shr_record (m / 2) (Z.odd m) (r || s).
Proof.
  intros Hm. rewrite <- Z.div2_div.
  destruct m as [|[p|p|]|]; try lia; reflexivity.
Qed.

Lemma shr_1_sticky mrs u :
  0 <= shr_m mrs -> sticky (K_of mrs) u ->
  shr_m (shr_1 mrs) = shr_m mrs / 2 /\
  sticky (K_of (shr_1 mrs)) (u / 2).
Proof.
  destruct mrs as [m r s]. cbn [shr_m]. intros Hm Hs.
  rewrite shr_1_fields by exact Hm. cbn [shr_m]. split; [reflexivity|].
  unfold sticky in *. rewrite K_of_even in *. cbn [shr_s shr_r shr_m K_of] in *.
  unfold K_of in *. cbn [shr_s shr_r shr_m] in *.
  pose proof (Z.div_mod m 2 ltac:(lia)) as Hdm.
  assert (Hodd : m mod 2 = b2z (Z.odd m)).
  { rewrite Zmod_odd. destruct (Z.odd m); reflexivity. }
  rewrite Hodd in Hdm.
  set (h := m / 2) in *. set (b := Z.odd m) in *. clearbody h b.
  subst m.
  repeat (rewrite ?inject_Z_plus, ?inject_Z_mult in * ).
  change (inject_Z 2) with 2%Q in *. change (inject_Z 4) with 4%Q in *.
  set (H := inject_Z h) in *. clearbody H.
  assert (Eu : (u == 2 * (u / 2))%Q) by field.
  set (v := (u / 2)%Q) in *. clearbody v.
  destruct b, r, s; cbn [b2z orb negb] in *;
    change (inject_Z 1) with 1%Q in *; change (inject_Z 0) with 0%Q in *; lra.
Qed.

Lemma iter_pos_nat {A : Type} (f : A -> A) p x :
  iter_pos f p x = Nat.iter (Pos.to_nat p) f x.
Proof.
  revert x. induction p as [p IH|p IH|]; intros x; cbn [iter_pos].
  - rewrite !IH, Pos2Nat.inj_xI.
    replace (S (2 * Pos.to_nat p)) with (Pos.to_nat p + (Pos.to_nat p + 1))%nat by lia.
    rewrite !Nat.iter_add. reflexivity.
  - rewrite !IH, Pos2Nat.inj_xO.
    replace (2 * Pos.to_nat p)%nat with (Pos.to_nat p + Pos.to_nat p)%nat by lia.
    rewrite Nat.iter_add. reflexivity.
  - reflexivity.
Qed.

Lemma iter_shr_1_sticky k mrs u :
  0 <= shr_m mrs -> sticky (K_of mrs) u ->
  shr_m (Nat.iter k shr_1 mrs) = shr_m mrs / 2 ^ Z.of_nat k /\
  sticky (K_of (Nat.iter k shr_1 mrs)) (u / inject_Z (2 ^ Z.of_nat k)).
Proof.
  intros Hm Hs. induction k as [|k [IHm IHs]].
  - change (Nat.iter 0 shr_1 mrs) with mrs. cbn [Z.of_nat].
    rewrite Z.pow_0_r, Z.div_1_r. split; [reflexivity|].
    apply (sticky_comp _ u); [|exact Hs]. change (inject_Z 1) with 1%Q. field.
  - rewrite Nat.iter_succ.
    assert (H0 : 0 <= shr_m (Nat.iter k shr_1 mrs)).
    { rewrite IHm. apply Z.div_pos; [exact Hm|apply pow2_pos; lia]. }
    destruct (shr_1_sticky _ _ H0 IHs) as [Em Es].
    rewrite Nat2Z.inj_succ, Z.pow_succ_r by lia. split.
    + rewrite Em, IHm, Z.div_div by (try apply pow2_pos; lia).
      f_equal. lia.
    + apply (sticky_comp _ (u / inject_Z (2 ^ Z.of_nat k) / 2)); [|exact Es].
      rewrite inject_Z_mult.
      pose proof (inject_pow2_pos (Z.of_nat k) ltac:(lia)).
      change (inject_Z 2) with 2%Q. field. lra.
Qed.

Lemma shr_sticky mrs e n u :
  0 <= shr_m mrs -> 0 <= n -> sticky (K_of mrs) u ->
  snd (shr mrs e n) = e + n /\
  shr_m (fst (shr mrs e n)) = shr_m mrs / 2 ^ n /\
  sticky (K_of (fst (shr mrs e n))) (u / inject_Z (2 ^ n)).
Proof.
  intros Hm Hn Hs. destruct n as [|p|p]; try lia.
  - cbn [shr fst snd]. rewrite Z.pow_0_r, Z.div_1_r, Z.add_0_r.
    repeat split; try reflexivity.
    apply (sticky_comp _ u); [|exact Hs]. change (inject_Z 1) with 1%Q. field.
  - cbn [shr fst snd]. rewrite iter_pos_nat.
    destruct (iter_shr_1_sticky (Pos.to_nat p) mrs u Hm Hs) as [Em Es].
    rewrite positive_nat_Z in Em, Es. repeat split; assumption.
Qed.

Lemma Qfloor_unique x n :
  (inject_Z n <= x < inject_Z n + 1)%Q -> Qfloor x = n.
Proof.
  intros [Hlo Hhi].
  pose proof (Qfloor_le x) as H1. pose proof (Qlt_floor x) as H2.
  rewrite inject_Z_plus in H2. change (inject_Z 1) with 1%Q in H2.
  assert (A : (inject_Z n < inject_Z (Qfloor x) + 1)%Q) by lra.
  assert (B : (inject_Z (Qfloor x) < inject_Z n + 1)%Q) by lra.
  change 1%Q with (inject_Z 1) in A, B. rewrite <- inject_Z_plus in A, B.
  rewrite <- Zlt_Qlt in A, B. lia.
Qed.

(** Rounding the mantissa by its round and sticky bits is rounding the
    value it stands for. *)
Lemma rne_sticky mrs u :
  sticky (K_of mrs) u ->
  round_nearest_even (shr_m mrs) (loc_of_shr_record mrs) = round_half_even (u / 4).
Proof.
  destruct mrs as [m r s]. unfold sticky. rewrite K_of_even.
  unfold K_of. cbn [shr_m shr_r shr_s loc_of_shr_record].
  repeat (rewrite ?inject_Z_plus, ?inject_Z_mult).
  change (inject_Z 2) with 2%Q. change (inject_Z 4) with 4%Q.
  assert (Eu : (u == 4 * (u / 4))%Q) by field.
  set (v := (u / 4)%Q) in *. clearbody v.
  set (M := inject_Z m) in *.
  destruct r, s; cbn [b2z negb round_nearest_even];
    change (inject_Z 1) with 1%Q; change (inject_Z 0) with 0%Q; intros Hs.
  - (* more than half *)
    assert (Hf : Qfloor v = m) by (apply Qfloor_unique; fold M; lra).
    destruct (rhe_cases v) as [_ H]. rewrite Hf in H. fold M in H.
    destruct H as [[H _]|[[H _]|[_ ->]]]; try reflexivity; exfalso; lra.
  - (* a half *)
    assert (Hf : Qfloor v = m) by (apply Qfloor_unique; fold M; lra).
    destruct (rhe_cases v) as [_ H]. rewrite Hf in H. fold M in H.
    destruct H as [[H _]|[[_ ->]|[H _]]]; try reflexivity; exfalso; lra.
  - (* less than half *)
    assert (Hf : Qfloor v = m) by (apply Qfloor_unique; fold M; lra).
    destruct (rhe_cases v) as [_ H]. rewrite Hf in H. fold M in H.
    destruct H as [[_ ->]|[[H _]|[H _]]]; try reflexivity; exfalso; lra.
  - (* exact *)
    assert (E : (v == inject_Z m)%Q) by (fold M; lra).
    rewrite (rhe_comp _ _ E). symmetry. apply rhe_Z.
Qed.

(** * What [binary_round_aux] computes *)

Lemma fexp_unfold z : fexp prec emax z = Z.max (z - 53) (-1074).
Proof. reflexivity. Qed.

Lemma shr_m_of_loc m l : shr_m (shr_record_of_loc m l) = m.
Proof. destruct l as [|[]]; reflexivity. Qed.

Lemma shr_nonpos mrs e n : n <= 0 -> shr mrs e n = (mrs, e).
Proof. destruct n; try lia; reflexivity. Qed.

Lemma rne_bounds m l :
  m <= round_nearest_even m l <= m + 1.
Proof.
  destruct l as [|[]]; cbn [round_nearest_even]; try destruct (Z.even m); lia.
Qed.

Lemma binary_round_aux_spec sx mx ex lx u :
  0 <= mx ->
  sticky (K_of (shr_record_of_loc mx lx)) u ->
  ex <= fexp prec emax (Zdigits2 mx + ex) ->
  let e1 := fexp prec emax (Zdigits2 mx + ex) in
  let m1 := round_half_even (u / 4 / inject_Z (2 ^ (e1 - ex))) in
  mx / 2 ^ (e1 - ex) <= m1 <= mx / 2 ^ (e1 - ex) + 1 /\
  m1 <= 2 ^ 53 /\
  binary_round_aux prec emax sx mx ex lx = pack_round sx m1 e1.
Proof.
  intros Hmx Hs Hn e1 m1.
  assert (He1 : -1074 <= e1) by (unfold e1; rewrite fexp_unfold; lia).
  assert (Hn0 : 0 <= e1 - ex) by (unfold e1; lia).
  pose proof (shr_sticky (shr_record_of_loc mx lx) ex (e1 - ex) u) as H1.
  rewrite shr_m_of_loc in H1. specialize (H1 Hmx Hn0 Hs).
  destruct H1 as (Ee & Em & Es).
  unfold binary_round_aux.
  assert (Esf : shr_fexp prec emax mx ex lx =
                shr (shr_record_of_loc mx lx) ex (e1 - ex)) by reflexivity.
  rewrite Esf. clear Esf.
  destruct (shr (shr_record_of_loc mx lx) ex (e1 - ex)) as [mrs' e'] eqn:E1.
  cbn [fst snd] in Ee, Em, Es. subst e'. replace (ex + (e1 - ex)) with e1 by lia.
  assert (Em1 : round_nearest_even (shr_m mrs') (loc_of_shr_record mrs') = m1).
  { rewrite (rne_sticky _ _ Es). apply rhe_comp.
    pose proof (inject_pow2_pos (e1 - ex) Hn0). field. lra. }
  pose proof (rne_bounds (shr_m mrs') (loc_of_shr_record mrs')) as Hb.
  rewrite Em1, Em in Hb. rewrite Em1.
  assert (Hq : 0 <= mx / 2 ^ (e1 - ex) < 2 ^ 53).
  { pose proof (pow2_pos (e1 - ex) Hn0).
    split; [apply Z.div_pos; lia|].
    destruct (Z.eq_dec (mx / 2 ^ (e1 - ex)) 0) as [->|Hnz]; [reflexivity|].
    assert (Hpos : 0 < mx / 2 ^ (e1 - ex)).
    { pose proof (Z.div_pos mx (2 ^ (e1 - ex)) Hmx ltac:(lia)). lia. }
    destruct (Zdigits2_bounds _ Hpos) as [_ Hhi].
    rewrite Zdigits2_div_pow2 in Hhi by lia.
    assert (Hd : Z.max (Zdigits2 mx - (e1 - ex)) 0 <= 53).
    { unfold e1. rewrite fexp_unfold. lia. }
    assert (2 ^ Z.max (Zdigits2 mx - (e1 - ex)) 0 <= 2 ^ 53)
      by (apply Z.pow_le_mono_r; lia).
    lia. }
  split; [exact Hb|]. split; [lia|].
  unfold pack_round, shr_fexp.
  destruct (Z.eqb_spec m1 0) as [E0|Hnz].
  - rewrite E0. cbn [Zdigits2 shr_record_of_loc].
    rewrite shr_nonpos by (rewrite fexp_unfold; lia). reflexivity.
  - destruct (Z.eqb_spec m1 (2 ^ 53)) as [E53|Hn53].
    + rewrite E53.
      replace (fexp prec emax (Zdigits2 (2 ^ 53) + e1) - e1) with 1
        by (rewrite fexp_unfold; change (Zdigits2 (2 ^ 53)) with 54; lia).
      reflexivity.
    + assert (Hm1 : 0 < m1 < 2 ^ 53) by lia.
      assert (Hd : Zdigits2 m1 <= 53) by (apply Zdigits2_lt_pow; lia).
      cbn [shr_record_of_loc].
      rewrite shr_nonpos by (rewrite fexp_unfold; lia).
      cbn [shr_m]. destruct m1 as [|p|p]; try lia. reflexivity.
Qed.

(** * Rounded values on the grid of the smallest subnormal *)

Lemma pow2_le a b : 0 <= a <= b -> 2 ^ a <= 2 ^ b.
Proof. intros. apply Z.pow_le_mono_r; lia. Qed.

Lemma pow2_lt a b : 0 <= a < b -> 2 ^ a < 2 ^ b.
Proof. intros. apply Z.pow_lt_mono_r; lia. Qed.

Lemma pack_round_grid sx m1 e1 :
  -1074 <= e1 -> 0 <= m1 <= 2 ^ 53 ->
  (-1074 < e1 -> 2 ^ 52 <= m1) ->
  rounds_to sx (m1 * 2 ^ (e1 + 1074)) (pack_round sx m1 e1).
Proof.
  intros He Hm Hnorm. unfold pack_round, rounds_to.
  pose proof (pow2_pos (e1 + 1074) ltac:(lia)) as HP.
  destruct (Z.eqb_spec m1 0) as [E0|Hnz].
  - left. subst m1. split; [lia|reflexivity].
  - right. destruct (Z.eqb_spec m1 (2 ^ 53)) as [E53|Hn53].
    + rewrite E53, <- Z.pow_add_r by lia.
      destruct (Z.leb_spec (e1 + 1) 971) as [Hle|Hgt].
      * left. split.
        { split; [apply pow2_pos; lia|apply pow2_lt; lia]. }
        exists (Z.to_pos (2 ^ 52)), (e1 + 1). repeat split; try lia.
        rewrite Z2Pos.id by (apply pow2_pos; lia).
        rewrite <- Z.pow_add_r by lia. f_equal. lia.
      * right. split; [apply pow2_le; lia|reflexivity].
    + destruct (Z.leb_spec e1 971) as [Hle|Hgt].
      * left. split.
        { split; [nia|].
          assert (Hlt : m1 * 2 ^ (e1 + 1074) < 2 ^ 53 * 2 ^ (e1 + 1074)) by nia.
          rewrite <- Z.pow_add_r in Hlt by lia.
          assert (2 ^ (53 + (e1 + 1074)) <= 2 ^ 2098) by (apply pow2_le; lia).
          lia. }
        exists (Z.to_pos m1), e1. repeat split; try lia.
        rewrite Z2Pos.id by lia. reflexivity.
      * right. split; [|reflexivity].
        specialize (Hnorm ltac:(lia)).
        assert (Hge : 2 ^ 52 * 2 ^ (e1 + 1074) <= m1 * 2 ^ (e1 + 1074)) by nia.
        rewrite <- Z.pow_add_r in Hge by lia.
        assert (2 ^ 2098 <= 2 ^ (52 + (e1 + 1074))) by (apply pow2_le; lia).
        lia.
Qed.

Lemma sticky_loc_bounds mx lx u :
  sticky (K_of (shr_record_of_loc mx lx)) u ->
  (inject_Z mx <= u / 4 < inject_Z mx + 1)%Q.
Proof.
  unfold sticky. rewrite K_of_even. unfold K_of.
  assert (Eu : (u == 4 * (u / 4))%Q) by field.
  set (v := (u / 4)%Q) in *. clearbody v.
  repeat (rewrite ?inject_Z_plus, ?inject_Z_mult).
  change (inject_Z 2) with 2%Q. change (inject_Z 4) with 4%Q.
  destruct lx as [|[]]; cbn [shr_record_of_loc shr_m shr_r shr_s b2z negb];
    change (inject_Z 1) with 1%Q; change (inject_Z 0) with 0%Q; intros H; lra.
Qed.

Lemma Zle_Qfloor z T : (inject_Z z <= T)%Q -> z <= Qfloor T.
Proof. intros H. rewrite <- (Qfloor_Z z). now apply Qfloor_resp_le. Qed.

Lemma Qfloor_lt_Z z T : (T < inject_Z z)%Q -> Qfloor T < z.
Proof.
  intros H. pose proof (Qfloor_le T) as Hf.
  rewrite Zlt_Qlt. lra.
Qed.

Lemma scaled_shift mx ex u T :
  0 <= mx ->
  (inject_Z mx <= u / 4 < inject_Z mx + 1)%Q ->
  (mx = 0 -> ex <= -1074) ->
  scaled u ex T ->
  (0 <= T)%Q /\
  rnd_shift T = fexp prec emax (Zdigits2 mx + ex) + 1074.
Proof.
  intros Hmx [Hlo Hhi] H0 Hsc. unfold scaled in Hsc.
  set (t := (u / 4)%Q) in *. clearbody t.
  assert (Ht0 : (0 <= t)%Q).
  { assert (0 <= inject_Z mx)%Q by (change 0%Q with (inject_Z 0); now rewrite <- Zle_Qle).
    lra. }
  unfold rnd_shift. rewrite fexp_unfold.
  destruct (Z.leb_spec 0 (ex + 1074)) as [Hk|Hj].
  - set (k := ex + 1074) in *.
    pose proof (inject_pow2_pos k Hk) as HP.
    pose proof (pow2_pos k Hk) as HPz.
    assert (HT0 : (0 <= T)%Q) by (rewrite Hsc; nra).
    split; [exact HT0|].
    destruct (Z.eq_dec mx 0) as [E0|Hnz].
    + specialize (H0 E0). assert (k = 0) by lia.
      assert (Hfl : Qfloor T = 0).
      { apply Qfloor_unique. rewrite Hsc, H. rewrite E0 in Hhi.
        change (inject_Z (2 ^ 0)) with 1%Q. change (inject_Z 0) with 0%Q in *. lra. }
      rewrite Hfl, E0. cbn [Zdigits2]. lia.
    + assert (Hl : mx * 2 ^ k <= Qfloor T).
      { apply Zle_Qfloor. rewrite Hsc, inject_Z_mult. nra. }
      assert (Hh : Qfloor T < (mx + 1) * 2 ^ k).
      { apply Qfloor_lt_Z. rewrite Hsc, inject_Z_mult, inject_Z_plus.
        change (inject_Z 1) with 1%Q. nra. }
      assert (Hd : Zdigits2 (Qfloor T) = Zdigits2 mx + k).
      { destruct (Zdigits2_bounds mx ltac:(lia)) as [_ Hb].
        pose proof (Zdigits2_nonneg mx).
        apply Z.le_antisymm.
        - apply Zdigits2_lt_pow; [lia|]. split; [nia|].
          rewrite Z.pow_add_r by lia. nia.
        - rewrite <- Zdigits2_mul_pow2 by lia.
          apply Zdigits2_le. nia. }
      rewrite Hd. unfold k. lia.
  - set (j := - 1074 - ex) in *. assert (Hj0 : 0 < j) by (unfold j; lia).
    pose proof (inject_pow2_pos j ltac:(lia)) as HP.
    pose proof (pow2_pos j ltac:(lia)) as HPz.
    assert (HT0 : (0 <= T)%Q).
    { rewrite Hsc. apply Qle_shift_div_l; [exact HP|]. lra. }
    split; [exact HT0|].
    assert (Hfl : Qfloor T = mx / 2 ^ j).
    { apply Qfloor_unique. rewrite Hsc.
      pose proof (Z.div_mod mx (2 ^ j) ltac:(lia)) as Hdm.
      pose proof (Z.mod_pos_bound mx (2 ^ j) HPz) as Hmod.
      set (q := mx / 2 ^ j) in *. set (r := mx mod 2 ^ j) in *.
      assert (A : (inject_Z q * inject_Z (2 ^ j) <= inject_Z mx)%Q).
      { rewrite <- inject_Z_mult, <- Zle_Qle. lia. }
      assert (B : (inject_Z mx + 1 <= (inject_Z q + 1) * inject_Z (2 ^ j))%Q).
      { change 1%Q with (inject_Z 1).
        rewrite <- !inject_Z_plus, <- inject_Z_mult, <- Zle_Qle. lia. }
      split.
      - apply Qle_shift_div_l; [exact HP|]. lra.
      - apply Qlt_shift_div_r; [exact HP|]. lra. }
    rewrite Hfl, Zdigits2_div_pow2 by lia. unfold j. lia.
Qed.

(** [binary_round_aux] rounds the value it is given, read in grid units. *)
Lemma bra_grid sx mx ex lx u T :
  0 <= mx ->
  sticky (K_of (shr_record_of_loc mx lx)) u ->
  ex <= fexp prec emax (Zdigits2 mx + ex) ->
  (mx = 0 -> ex <= -1074) ->
  scaled u ex T ->
  rounds_to sx (rndG T) (binary_round_aux prec emax sx mx ex lx).
Proof.
  intros Hmx Hs Hn H0 Hsc.
  pose proof (sticky_loc_bounds mx lx u Hs) as Hb.
  destruct (scaled_shift mx ex u T Hmx Hb H0 Hsc) as [HT0 Hsh].
  destruct (binary_round_aux_spec sx mx ex lx u Hmx Hs Hn) as (Hm1 & Hm53 & ->).
  set (e1 := fexp prec emax (Zdigits2 mx + ex)) in *.
  set (m1 := round_half_even (u / 4 / inject_Z (2 ^ (e1 - ex)))) in *.
  assert (He1 : -1074 <= e1) by (unfold e1; rewrite fexp_unfold; lia).
  assert (Hq0 : 0 <= mx / 2 ^ (e1 - ex)).
  { apply Z.div_pos; [exact Hmx|apply pow2_pos; lia]. }
  assert (EG : rndG T = m1 * 2 ^ (e1 + 1074)).
  { unfold rndG. rewrite Hsh. fold e1. f_equal. apply rhe_comp.
    unfold scaled in Hsc.
    pose proof (inject_pow2_pos (e1 - ex) ltac:(lia)) as P1.
    pose proof (inject_pow2_pos (e1 + 1074) ltac:(lia)) as P2.
    destruct (Z.leb_spec 0 (ex + 1074)) as [Hk|Hj].
    - pose proof (inject_pow2_pos (ex + 1074) Hk) as P3.
      assert (E : (inject_Z (2 ^ (e1 + 1074)) ==
                   inject_Z (2 ^ (e1 - ex)) * inject_Z (2 ^ (ex + 1074)))%Q).
      { rewrite <- inject_Z_mult, <- Z.pow_add_r by lia.
        replace (e1 - ex + (ex + 1074)) with (e1 + 1074) by lia. reflexivity. }
      rewrite Hsc, E. field. lra.
    - pose proof (inject_pow2_pos (- 1074 - ex) ltac:(lia)) as P3.
      assert (E : (inject_Z (2 ^ (e1 - ex)) ==
                   inject_Z (2 ^ (e1 + 1074)) * inject_Z (2 ^ (- 1074 - ex)))%Q).
      { rewrite <- inject_Z_mult, <- Z.pow_add_r by lia.
        replace (e1 + 1074 + (- 1074 - ex)) with (e1 - ex) by lia. reflexivity. }
      rewrite Hsc, E. field. lra. }
  rewrite EG. apply pack_round_grid; [exact He1|lia|].
  intros Hnorm.
  (* a normal exponent: the truncated mantissa has 53 digits *)
  assert (Hd : Zdigits2 mx - (e1 - ex) = 53).
  { unfold e1 in *. rewrite fexp_unfold in *. lia. }
  assert (Hmxpos : 0 < mx).
  { destruct (Z.eq_dec mx 0) as [E|]; [|lia].
    rewrite E in Hd. cbn [Zdigits2] in Hd. lia. }
  assert (Hqd : Zdigits2 (mx / 2 ^ (e1 - ex)) = 53).
  { rewrite Zdigits2_div_pow2 by lia. lia. }
  assert (Hqpos : 0 < mx / 2 ^ (e1 - ex)).
  { destruct (Z.eq_dec (mx / 2 ^ (e1 - ex)) 0) as [E|]; [|lia].
    rewrite E in Hqd. cbn [Zdigits2] in Hqd. lia. }
  destruct (Zdigits2_bounds _ Hqpos) as [Hlo _]. rewrite Hqd in Hlo.
  change (2 ^ (53 - 1)) with (2 ^ 52) in Hlo. lia.
Qed.

(** * Non-negative floats on the grid *)

Lemma rounds_to_rounds G r : rounds_to false G r -> rounds G r.
Proof.
  intros [[H ->]|[H|H]]; [left|right; left|right; right]; try exact H.
  split; [exact H|]. now exists false.
Qed.

Lemma valid_finite s m e :
  valid_binary (S754_finite s m e) = true ->
  -1074 <= e <= 971 /\
  fexp prec emax (Z.pos (digits2_pos m) + e) = e /\
  Z.pos (digits2_pos m) <= 53.
Proof.
  cbn [SpecFloat.valid_binary]. unfold bounded, canonical_mantissa.
  rewrite andb_true_iff, Z.eqb_eq, Z.leb_le.
  change (emax - prec) with 971. rewrite fexp_unfold. lia.
Qed.

Lemma rndG_0 : rndG 0 = 0.
Proof. reflexivity. Qed.

(** A float is its own rounding. *)
Lemma rndG_id m e :
  valid_binary (S754_finite false m e) = true ->
  rndG (inject_Z (Z.pos m * 2 ^ (e + 1074))) = Z.pos m * 2 ^ (e + 1074) /\
  0 < Z.pos m * 2 ^ (e + 1074) < 2 ^ 2098.
Proof.
  intros Hv. destruct (valid_finite _ _ _ Hv) as (He & Hc & Hd).
  rewrite fexp_unfold in Hc.
  pose proof (pow2_pos (e + 1074) ltac:(lia)) as HP.
  split.
  - unfold rndG, rnd_shift. rewrite Qfloor_Z.
    rewrite Zdigits2_mul_pow2 by lia. cbn [Zdigits2].
    replace (Z.max (Z.pos (digits2_pos m) + (e + 1074) - 53) 0) with (e + 1074) by lia.
    rewrite (rhe_comp _ _ (Qdiv_inject_pow (Z.pos m) (e + 1074) ltac:(lia))).
    now rewrite rhe_Z.
  - split; [lia|].
    destruct (digits2_pos_bounds m) as [_ Hm].
    assert (2 ^ Z.pos (digits2_pos m) <= 2 ^ 53) by (apply pow2_le; lia).
    assert (Hlt : Z.pos m * 2 ^ (e + 1074) < 2 ^ 53 * 2 ^ (e + 1074)) by nia.
    rewrite <- Z.pow_add_r in Hlt by lia.
    assert (2 ^ (53 + (e + 1074)) <= 2 ^ 2098) by (apply pow2_le; lia).
    lia.
Qed.

Lemma rounds_id f :
  valid_binary f = true -> SFnonneg f = true ->
  rounds (rndG (inject_Z (gz f))) f.
Proof.
  intros Hv Hn. destruct f as [s|s| |s m e]; try discriminate.
  - left. split; [reflexivity|]. now exists s.
  - destruct s; [discriminate|].
    destruct (rndG_id m e Hv) as [E B]. destruct (valid_finite _ _ _ Hv) as (He & _).
    right; left. cbn [gz]. rewrite E. split; [exact B|].
    exists m, e. repeat split; lia.
Qed.

Lemma iter_xO m d : Z.pos (Pos.iter xO m d) = Z.pos m * 2 ^ Z.pos d.
Proof.
  induction d as [|d IH] using Pos.peano_ind.
  - cbn [Pos.iter]. lia.
  - rewrite Pos.iter_succ, Pos2Z.inj_xO, IH, Pos2Z.inj_succ, Z.pow_succ_r by lia.
    lia.
Qed.

Lemma shl_align_spec m e e' :
  snd (shl_align m e e') = Z.min e e' /\
  Z.pos (fst (shl_align m e e')) = Z.pos m * 2 ^ (e - Z.min e e').
Proof.
  unfold shl_align. destruct (e' - e) as [|d|d] eqn:E; cbn [fst snd].
  - replace (Z.min e e') with e by lia. rewrite Z.sub_diag. lia.
  - replace (Z.min e e') with e by lia. rewrite Z.sub_diag. lia.
  - replace (Z.min e e') with e' by lia. rewrite iter_xO.
    split; [reflexivity|]. f_equal. f_equal. lia.
Qed.

Lemma digits2_Zdigits2 m : Z.pos (digits2_pos m) = Zdigits2 (Z.pos m).
Proof. reflexivity. Qed.

(** Rounding a positive integer [n] at exponent [e]. *)
Lemma binary_round_signed sx n e :
  -1074 <= e ->
  rounds_to sx (rndG (inject_Z (Z.pos n * 2 ^ (e + 1074))))
    (binary_round prec emax sx n e).
Proof.
  intros He. unfold binary_round.
  pose proof (shl_align_spec n e (fexp prec emax (Z.pos (digits2_pos n) + e))) as [Ee Em].
  destruct (shl_align n e (fexp prec emax (Z.pos (digits2_pos n) + e))) as [mz ez].
  cbn [fst snd] in Ee, Em.
  set (fe := fexp prec emax (Z.pos (digits2_pos n) + e)) in *.
  assert (Hfe : -1074 <= fe) by (unfold fe; rewrite fexp_unfold; lia).
  assert (Hez : -1074 <= ez <= e) by lia.
  apply (bra_grid sx (Z.pos mz) ez loc_Exact (inject_Z (4 * Z.pos mz))).
  - lia.
  - unfold sticky. rewrite K_of_even. cbn [shr_record_of_loc shr_s negb].
    unfold K_of. cbn [shr_m shr_r shr_s b2z]. rewrite !Z.add_0_r. reflexivity.
  - rewrite <- digits2_Zdigits2, digits2_Zdigits2, Em.
    rewrite Zdigits2_mul_pow2 by lia. cbn [Zdigits2].
    replace (Z.pos (digits2_pos n) + (e - Z.min e fe) + ez) with (Z.pos (digits2_pos n) + e) by lia.
    fold fe. lia.
  - lia.
  - unfold scaled. destruct (Z.leb_spec 0 (ez + 1074)); [|lia].
    rewrite inject_Z_mult. change (inject_Z 4) with 4%Q.
    rewrite Em, !inject_Z_mult.
    assert (E : (inject_Z (2 ^ (e + 1074)) ==
                 inject_Z (2 ^ (e - Z.min e fe)) * inject_Z (2 ^ (ez + 1074)))%Q).
    { rewrite <- inject_Z_mult, <- Z.pow_add_r by lia.
      replace (e - Z.min e fe + (ez + 1074)) with (e + 1074) by lia. reflexivity. }
    rewrite E. field.
Qed.

(** Adding two non-negative floats rounds their exact sum. *)

Lemma binary_round_grid n e :
  -1074 <= e ->
  rounds (rndG (inject_Z (Z.pos n * 2 ^ (e + 1074))))
    (binary_round prec emax false n e).
Proof. intros He. now apply rounds_to_rounds, binary_round_signed. Qed.

Lemma SFadd_grid x y :
  valid_binary x = true -> valid_binary y = true ->
  SFnonneg x = true -> SFnonneg y = true ->
  rounds (rndG (inject_Z (gz x + gz y))) (SF64add x y).
Proof.
  intros Hx Hy Nx Ny.
  destruct x as [sx|sx| |sx mx ex]; try discriminate;
    destruct y as [sy|sy| |sy my ey]; try discriminate.
  - left. split; [reflexivity|]. destruct sx, sy; eexists; reflexivity.
  - cbn [gz]. rewrite Z.add_0_l. apply (rounds_id (S754_finite sy my ey)); assumption.
  - cbn [gz]. rewrite Z.add_0_r. apply (rounds_id (S754_finite sx mx ex)); assumption.
  - destruct sx, sy; try discriminate.
    destruct (valid_finite _ _ _ Hx) as (Hex & _).
    destruct (valid_finite _ _ _ Hy) as (Hey & _).
    unfold SF64add, SFadd. cbn [cond_Zopp].
    set (ez := Z.min ex ey).
    destruct (shl_align_spec mx ex ez) as [_ Ea].
    destruct (shl_align_spec my ey ez) as [_ Eb].
    replace (Z.min ex ez) with ez in Ea by (unfold ez; lia).
    replace (Z.min ey ez) with ez in Eb by (unfold ez; lia).
    set (a := fst (shl_align mx ex ez)) in *.
    set (b := fst (shl_align my ey ez)) in *.
    change (Z.pos a + Z.pos b) with (Z.pos (a + b)).
    cbn [binary_normalize].
    assert (E : gz (S754_finite false mx ex) + gz (S754_finite false my ey) =
                Z.pos (a + b) * 2 ^ (ez + 1074)).
    { cbn [gz]. rewrite Pos2Z.inj_add, Ea, Eb, Z.mul_add_distr_r.
      rewrite <- !Z.mul_assoc, <- !Z.pow_add_r by (unfold ez; lia).
      f_equal; f_equal; f_equal; lia. }
    rewrite E. apply binary_round_grid. unfold ez. lia.
Qed.

(** * Division *)

Lemma rndG_comp T1 T2 : (T1 == T2)%Q -> rndG T1 = rndG T2.
Proof.
  intros E. unfold rndG, rnd_shift. rewrite (Qfloor_comp _ _ E).
  f_equal. apply rhe_comp. rewrite E. reflexivity.
Qed.

Lemma new_location_spec nb k :
  new_location nb k =
  if k =? 0 then loc_Exact else loc_Inexact (2 * k ?= nb).
Proof.
  unfold new_location. destruct (Z.even nb) eqn:Ev.
  - reflexivity.
  - unfold new_location_odd. destruct (k =? 0); [reflexivity|]. f_equal.
    change (Z.pos 2 * k) with (2 * k). change (Z.pos 1) with 1.
    assert (Ho : Z.odd nb = true) by (rewrite <- Z.negb_even, Ev; reflexivity).
    apply Z.odd_spec in Ho. destruct Ho as [c Hc].
    destruct (Z.compare_spec (2 * k + 1) nb), (Z.compare_spec (2 * k) nb);
      try reflexivity; lia.
Qed.

Lemma div_sticky q r my m' :
  0 < my -> m' = my * q + r -> 0 <= r < my ->
  sticky (K_of (shr_record_of_loc q (new_location my r)))
    (inject_Z (4 * m') / inject_Z my).
Proof.
  intros Hmy Hm Hr.
  assert (HMY : (0 < inject_Z my)%Q)
    by (change 0%Q with (inject_Z 0); now rewrite <- Zlt_Qlt).
  assert (Eu : (inject_Z (4 * m') / inject_Z my * inject_Z my ==
                4 * (inject_Z my * inject_Z q + inject_Z r))%Q).
  { rewrite Hm. repeat (rewrite ?inject_Z_plus, ?inject_Z_mult).
    change (inject_Z 4) with 4%Q. field. lra. }
  set (u := (inject_Z (4 * m') / inject_Z my)%Q) in *. clearbody u.
  assert (HR : (0 <= inject_Z r < inject_Z my)%Q).
  { split; [change 0%Q with (inject_Z 0); rewrite <- Zle_Qle|rewrite <- Zlt_Qlt]; lia. }
  rewrite new_location_spec. unfold sticky. rewrite K_of_even. unfold K_of.
  destruct (Z.eqb_spec r 0) as [E0|Hnz].
  - cbn [shr_record_of_loc shr_m shr_r shr_s b2z negb].
    repeat (rewrite ?inject_Z_plus, ?inject_Z_mult).
    change (inject_Z 4) with 4%Q. change (inject_Z 2) with 2%Q.
    change (inject_Z 0) with 0%Q.
    rewrite E0 in Eu. change (inject_Z 0) with 0%Q in Eu. nra.
  - assert (HR0 : (0 < inject_Z r)%Q).
    { change 0%Q with (inject_Z 0). rewrite <- Zlt_Qlt. lia. }
    destruct (Z.compare_spec (2 * r) my) as [He|Hl|Hg];
      cbn [shr_record_of_loc shr_m shr_r shr_s b2z negb];
      repeat (rewrite ?inject_Z_plus, ?inject_Z_mult);
      change (inject_Z 4) with 4%Q; change (inject_Z 2) with 2%Q;
      change (inject_Z 1) with 1%Q; change (inject_Z 0) with 0%Q.
    + assert (E2 : (2 * inject_Z r == inject_Z my)%Q).
      { change 2%Q with (inject_Z 2). rewrite <- inject_Z_mult, He. reflexivity. }
      nra.
    + assert (E2 : (2 * inject_Z r < inject_Z my)%Q).
      { change 2%Q with (inject_Z 2). rewrite <- inject_Z_mult, <- Zlt_Qlt. exact Hl. }
      split; nra.
    + assert (E2 : (inject_Z my < 2 * inject_Z r)%Q).
      { change 2%Q with (inject_Z 2). rewrite <- inject_Z_mult, <- Zlt_Qlt. exact Hg. }
      split; nra.
Qed.

Lemma div_digits m' my :
  0 < m' -> 0 < my -> Zdigits2 m' - Zdigits2 my <= Zdigits2 (m' / my).
Proof.
  intros Hm Hy.
  destruct (Zdigits2_bounds m' Hm) as [Hlo _].
  destruct (Zdigits2_bounds my Hy) as [_ Hhi].
  pose proof (Zdigits2_pos my Hy). pose proof (Zdigits2_pos m' Hm).
  pose proof (Zdigits2_nonneg (m' / my)).
  destruct (Z.le_gt_cases (Zdigits2 m' - Zdigits2 my) 0) as [|Hgt]; [lia|].
  set (a := Zdigits2 m') in *. set (b := Zdigits2 my) in *.
  assert (Hq : 2 ^ (a - b - 1) <= m' / my).
  { apply Z.div_le_lower_bound; [lia|].
    pose proof (pow2_pos (a - b - 1) ltac:(lia)).
    assert (Hmul : my * 2 ^ (a - b - 1) <= 2 ^ b * 2 ^ (a - b - 1)) by nia.
    rewrite <- Z.pow_add_r in Hmul by lia.
    replace (b + (a - b - 1)) with (a - 1) in Hmul by lia. lia. }
  pose proof (Zdigits2_ge_pow (m' / my) (a - b - 1) ltac:(lia) Hq). lia.
Qed.

Lemma inject_pow2_add a b :
  0 <= a -> 0 <= b ->
  (inject_Z (2 ^ (a + b)) == inject_Z (2 ^ a) * inject_Z (2 ^ b))%Q.
Proof.
  intros Ha Hb. rewrite <- inject_Z_mult, <- Z.pow_add_r by lia. reflexivity.
Qed.

Lemma Qdiv_eq a b c : (~ c == 0 -> a == b * c -> a / c == b)%Q.
Proof. intros Hc E. rewrite E. field. exact Hc. Qed.

(** Dividing a non-negative float by a positive one rounds their exact
    quotient. *)
Lemma SFdiv_grid x y :
  valid_binary x = true -> valid_binary y = true ->
  SFnonneg x = true -> SFpos y = true ->
  rounds (rndG (inject_Z (gz x) / inject_Z (gz y) * inject_Z (2 ^ 1074)))
    (SF64div x y).
Proof.
  intros Hx Hy Nx Py.
  destruct y as [| | |sy my ey]; try discriminate. destruct sy; [discriminate|].
  destruct x as [sx|sx| |sx mx ex]; try discriminate.
  - left. split.
    + rewrite <- rndG_0. apply rndG_comp. cbn [gz].
      change (inject_Z 0) with 0%Q. unfold Qdiv. ring.
    + destruct sx; eexists; reflexivity.
  - destruct sx; [discriminate|].
    destruct (valid_finite _ _ _ Hx) as (Hex & _).
    destruct (valid_finite _ _ _ Hy) as (Hey & _).
    unfold SF64div, SFdiv. cbn [xorb]. unfold SFdiv_core_binary.
    set (d1 := Zdigits2 (Z.pos mx)). set (d2 := Zdigits2 (Z.pos my)).
    set (e' := Z.min (fexp prec emax (d1 + ex - (d2 + ey))) (ex - ey)).
    set (s := ex - ey - e').
    assert (Hs : 0 <= s) by (unfold s, e'; lia).
    set (m' := match s with
               | 0 => Z.pos mx
               | Z.pos _ => Z.shiftl (Z.pos mx) s
               | Z.neg _ => 0
               end).
    assert (Em' : m' = Z.pos mx * 2 ^ s).
    { unfold m'. destruct s as [|p|p] eqn:Es; try lia.
      apply Z.shiftl_mul_pow2. lia. }
    clearbody m'.
    pose proof (pow2_pos s Hs) as HPs.
    destruct (Z.div_eucl m' (Z.pos my)) as [q r] eqn:Ediv.
    pose proof (Z_div_mod m' (Z.pos my) eq_refl) as Hdm.
    rewrite Ediv in Hdm. destruct Hdm as [Hm Hr].
    assert (Hq : q = m' / Z.pos my) by (apply (Z.div_unique_pos _ _ q r); assumption).
    assert (Hq0 : 0 <= q) by (rewrite Hq; apply Z.div_pos; lia).
    assert (Hdig : d1 + s - d2 <= Zdigits2 q).
    { rewrite Hq. unfold d1, d2. rewrite <- Zdigits2_mul_pow2, <- Em' by lia.
      apply div_digits; lia. }
    assert (HD : e' <= fexp prec emax (d1 + ex - (d2 + ey))) by (unfold e'; lia).
    rewrite fexp_unfold in HD.
    apply rounds_to_rounds.
    apply (bra_grid false q e' (new_location (Z.pos my) r)
             (inject_Z (4 * m') / inject_Z (Z.pos my))).
    + exact Hq0.
    + apply div_sticky; [lia|exact Hm|exact Hr].
    + rewrite fexp_unfold. unfold s in Hdig. lia.
    + intros E0. rewrite E0 in Hdig. cbn [Zdigits2] in Hdig. unfold s in Hdig. lia.
    + unfold scaled. cbn [gz].
      assert (HMY : (0 < inject_Z (Z.pos my))%Q) by reflexivity.
      pose proof (inject_pow2_pos (ex + 1074) ltac:(lia)) as PA.
      pose proof (inject_pow2_pos (ey + 1074) ltac:(lia)) as PB.
      pose proof (inject_pow2_pos 1074 ltac:(lia)) as PC.
      pose proof (inject_pow2_pos s Hs) as PS.
      rewrite Em'. repeat (rewrite ?inject_Z_mult).
      change (inject_Z 4) with 4%Q.
      destruct (Z.leb_spec 0 (e' + 1074)) as [Hk|Hj].
      * pose proof (inject_pow2_pos (e' + 1074) Hk) as PE.
        assert (E : (inject_Z (2 ^ (ex + 1074)) ==
                     inject_Z (2 ^ s) * inject_Z (2 ^ (e' + 1074)) *
                     inject_Z (2 ^ (ey + 1074)) / inject_Z (2 ^ 1074))%Q).
        { apply Qeq_sym, Qdiv_eq; [lra|].
          rewrite <- !inject_pow2_add by lia.
          replace (s + (e' + 1074) + (ey + 1074)) with (ex + 1074 + 1074)
            by (unfold s; lia).
          reflexivity. }
        rewrite E. field. repeat split; lra.
      * pose proof (inject_pow2_pos (- 1074 - e') ltac:(lia)) as PJ.
        assert (E : (inject_Z (2 ^ (ex + 1074)) ==
                     inject_Z (2 ^ s) * inject_Z (2 ^ (ey + 1074)) /
                     (inject_Z (2 ^ 1074) * inject_Z (2 ^ (- 1074 - e'))))%Q).
        { apply Qeq_sym, Qdiv_eq; [nra|].
          rewrite <- !inject_pow2_add by lia.
          replace (s + (ey + 1074)) with (ex + 1074 + (1074 + (- 1074 - e')))
            by (unfold s; lia).
          reflexivity. }
        rewrite E. field. repeat split; lra.
Qed.

(** * The order of non-negative floats *)

Lemma valid_gz s m e :
  valid_binary (S754_finite s m e) = true ->
  0 < Z.pos m * 2 ^ (e + 1074) < 2 ^ 2098.
Proof. intros Hv. apply (rndG_id m e). exact Hv. Qed.

Lemma finite_exp_lt m1 e1 m2 e2 :
  valid_binary (S754_finite false m1 e1) = true ->
  valid_binary (S754_finite false m2 e2) = true ->
  e1 < e2 ->
  Z.pos m1 * 2 ^ (e1 + 1074) < Z.pos m2 * 2 ^ (e2 + 1074).
Proof.
  intros H1 H2 Hlt.
  destruct (valid_finite _ _ _ H1) as (He1 & _ & Hd1).
  destruct (valid_finite _ _ _ H2) as (He2 & Hc2 & Hd2).
  rewrite fexp_unfold in Hc2.
  assert (Ed2 : Z.pos (digits2_pos m2) = 53) by lia.
  destruct (digits2_pos_bounds m1) as [_ Hm1].
  destruct (digits2_pos_bounds m2) as [Hm2 _]. rewrite Ed2 in Hm2.
  change (2 ^ (53 - 1)) with (2 ^ 52) in Hm2.
  assert (Hp1 : 2 ^ Z.pos (digits2_pos m1) <= 2 ^ 53) by (apply pow2_le; lia).
  pose proof (pow2_pos (e1 + 1074) ltac:(lia)) as P1.
  pose proof (pow2_pos (e2 + 1074) ltac:(lia)) as P2.
  assert (A : Z.pos m1 * 2 ^ (e1 + 1074) < 2 ^ 53 * 2 ^ (e1 + 1074)) by nia.
  assert (B : 2 ^ 52 * 2 ^ (e2 + 1074) <= Z.pos m2 * 2 ^ (e2 + 1074)) by nia.
  rewrite <- Z.pow_add_r in A, B by lia.
  assert (C : 2 ^ (53 + (e1 + 1074)) <= 2 ^ (52 + (e2 + 1074))) by (apply pow2_le; lia).
  lia.
Qed.

Lemma SFcompare_rank x y :
  valid_binary x = true -> valid_binary y = true ->
  SFnn x = true -> SFnn y = true ->
  SFcompare x y = Some (rank x ?= rank y).
Proof.
  intros Hx Hy Nx Ny.
  destruct x as [sx|sx| |sx mx ex]; try discriminate;
    destruct y as [sy|sy| |sy my ey]; try discriminate;
    try destruct sx; try destruct sy; try discriminate; cbn [SFcompare rank];
    try reflexivity.
  - pose proof (valid_gz _ _ _ Hy). f_equal. symmetry. apply Z.compare_lt_iff. lia.
  - pose proof (valid_gz _ _ _ Hy). f_equal. symmetry. apply Z.compare_lt_iff. lia.
  - pose proof (valid_gz _ _ _ Hy). f_equal. symmetry. apply Z.compare_gt_iff. lia.
  - pose proof (valid_gz _ _ _ Hx). f_equal. symmetry. apply Z.compare_gt_iff. lia.
  - pose proof (valid_gz _ _ _ Hx). f_equal. symmetry. apply Z.compare_gt_iff. lia.
  - pose proof (valid_gz _ _ _ Hx). f_equal. symmetry. apply Z.compare_lt_iff. lia.
  - f_equal. destruct (Z.compare_spec ex ey) as [E|Hlt|Hgt].
    + subst ey. destruct (valid_finite _ _ _ Hx) as (He & _).
      pose proof (pow2_pos (ex + 1074) ltac:(lia)) as P.
      rewrite Pos.compare_cont_spec. cbn [Pos.switch_Eq].
      change (mx ?= my)%positive with (Z.pos mx ?= Z.pos my).
      symmetry. destruct (Z.compare_spec (Z.pos mx) (Z.pos my)) as [E|L|G].
      * rewrite E. apply Z.compare_refl.
      * apply Z.compare_lt_iff. nia.
      * apply Z.compare_gt_iff. nia.
    + symmetry. apply Z.compare_lt_iff. now apply finite_exp_lt.
    + symmetry. apply Z.compare_gt_iff. now apply finite_exp_lt.
Qed.

Lemma SFleb_rank x y :
  valid_binary x = true -> valid_binary y = true ->
  SFnn x = true -> SFnn y = true ->
  SFleb x y = (rank x <=? rank y).
Proof.
  intros Hx Hy Nx Ny. unfold SFleb. rewrite (SFcompare_rank x y Hx Hy Nx Ny).
  unfold Z.leb. destruct (rank x ?= rank y); reflexivity.
Qed.

Lemma SFltb_rank x y :
  valid_binary x = true -> valid_binary y = true ->
  SFnn x = true -> SFnn y = true ->
  SFltb x y = (rank x <? rank y).
Proof.
  intros Hx Hy Nx Ny. unfold SFltb. rewrite (SFcompare_rank x y Hx Hy Nx Ny).
  unfold Z.ltb. destruct (rank x ?= rank y); reflexivity.
Qed.

Lemma rank_nonneg f : 0 <= rank f.
Proof.
  destruct f as [| | |s m e]; cbn [rank]; lia.
Qed.

Lemma rndG_nonneg T : (0 <= T)%Q -> 0 <= rndG T.
Proof.
  intros H. rewrite <- rndG_0. apply rndG_mono; [lra|exact H].
Qed.

Lemma rndG_pow2 k : 0 <= k -> rndG (inject_Z (2 ^ k)) = 2 ^ k.
Proof.
  intros Hk. unfold rndG, rnd_shift. rewrite Qfloor_Z.
  replace (Zdigits2 (2 ^ k)) with (1 + k).
  2:{ rewrite <- (Z.mul_1_l (2 ^ k)), Zdigits2_mul_pow2 by lia. reflexivity. }
  set (n := Z.max (1 + k - 53) 0).
  assert (Hn : 0 <= n <= k) by (unfold n; lia).
  replace (2 ^ k) with (2 ^ (k - n) * 2 ^ n) at 1
    by (rewrite <- Z.pow_add_r by lia; f_equal; lia).
  rewrite (rhe_comp _ _ (Qdiv_inject_pow _ n ltac:(lia))), rhe_Z.
  rewrite <- Z.pow_add_r by lia. f_equal. lia.
Qed.

(** The rank of what a grid value rounds to. *)
Lemma rounds_rank G r :
  0 <= G -> rounds G r ->
  SFnn r = true /\ rank r = Z.min G (2 ^ 2098).
Proof.
  intros HG [[E [s ->]]|[[B (m & e & -> & He & E)]|[B ->]]]; cbn [SFnn rank negb].
  - split; [reflexivity|]. pose proof (pow2_pos 2098). lia.
  - split; [reflexivity|]. lia.
  - split; [reflexivity|]. lia.
Qed.

Lemma rndG_rank x :
  valid_binary x = true -> SFnn x = true ->
  rndG (inject_Z (rank x)) = rank x /\ rank x <= 2 ^ 2098.
Proof.
  intros Hv Hn. destruct x as [s|s| |s m e]; try discriminate; cbn [rank].
  - split; [reflexivity|]. pose proof (pow2_pos 2098). lia.
  - split; [apply rndG_pow2|]; lia.
  - destruct s; [discriminate|].
    destruct (rndG_id m e Hv) as [E B]. split; [exact E|lia].
Qed.

Lemma SFnonneg_nn x : SFnonneg x = true -> SFnn x = true /\ rank x = gz x.
Proof. destruct x as [s|s| |s m e]; try discriminate; intros H; split; auto. Qed.

Lemma SFnn_cases x :
  SFnn x = true -> SFnonneg x = true \/ x = S754_infinity false.
Proof.
  destruct x as [s|s| |s m e]; try discriminate; cbn; auto.
  destruct s; [discriminate|auto].
Qed.

Lemma rndG_overflow T : (inject_Z (2 ^ 2098) <= T)%Q -> 2 ^ 2098 <= rndG T.
Proof.
  intros H. rewrite <- (rndG_pow2 2098) at 1 by lia.
  apply rndG_mono; [|exact H].
  change 0%Q with (inject_Z 0). rewrite <- Zle_Qle. apply Z.lt_le_incl, pow2_pos. lia.
Qed.

(** The rank of a sum of non-negative floats is the rounded sum of their
    ranks, capped at infinity. *)
Lemma SFadd_rank x y :
  valid_binary x = true -> valid_binary y = true ->
  SFnn x = true -> SFnn y = true ->
  SFnn (SF64add x y) = true /\
  rank (SF64add x y) = Z.min (rndG (inject_Z (rank x + rank y))) (2 ^ 2098).
Proof.
  intros Hx Hy Nx Ny.
  pose proof (rank_nonneg x) as Rx. pose proof (rank_nonneg y) as Ry.
  destruct (SFnn_cases x Nx) as [Fx|Ix]; destruct (SFnn_cases y Ny) as [Fy|Iy].
  - destruct (SFnonneg_nn x Fx) as [_ Ex]. destruct (SFnonneg_nn y Fy) as [_ Ey].
    rewrite Ex, Ey. apply rounds_rank.
    + apply rndG_nonneg. change 0%Q with (inject_Z 0). rewrite <- Zle_Qle. lia.
    + now apply SFadd_grid.
  - subst y. assert (E : SF64add x (S754_infinity false) = S754_infinity false).
    { destruct x as [s|s| |s m e]; try discriminate; reflexivity. }
    rewrite E. split; [reflexivity|]. cbn [rank].
    rewrite Z.min_r; [reflexivity|]. apply rndG_overflow. rewrite <- Zle_Qle. lia.
  - subst x. assert (E : SF64add (S754_infinity false) y = S754_infinity false).
    { destruct y as [s|s| |s m e]; try discriminate; reflexivity. }
    rewrite E. split; [reflexivity|]. cbn [rank].
    rewrite Z.min_r; [reflexivity|]. apply rndG_overflow. rewrite <- Zle_Qle. lia.
  - subst x y. split; [reflexivity|]. cbn [rank SF64add SFadd].
    rewrite Z.min_r; [reflexivity|]. apply rndG_overflow. rewrite <- Zle_Qle.
    pose proof (pow2_pos 2098). lia.
Qed.

Lemma SFadd_rank_mono x1 x2 y :
  valid_binary x1 = true -> valid_binary x2 = true -> valid_binary y = true ->
  SFnn x1 = true -> SFnn x2 = true -> SFnn y = true ->
  rank x1 <= rank x2 ->
  rank (SF64add x1 y) <= rank (SF64add x2 y).
Proof.
  intros V1 V2 Vy N1 N2 Ny Hle.
  destruct (SFadd_rank x1 y V1 Vy N1 Ny) as [_ ->].
  destruct (SFadd_rank x2 y V2 Vy N2 Ny) as [_ ->].
  pose proof (rank_nonneg x1). pose proof (rank_nonneg y).
  apply Z.min_le_compat_r, rndG_mono.
  - change 0%Q with (inject_Z 0). rewrite <- Zle_Qle. lia.
  - rewrite <- Zle_Qle. lia.
Qed.

(** Adding a non-negative float does not take a float down. *)
Lemma SFadd_rank_ge x y :
  valid_binary x = true -> valid_binary y = true ->
  SFnn x = true -> SFnn y = true ->
  rank x <= rank (SF64add x y).
Proof.
  intros Vx Vy Nx Ny.
  destruct (SFadd_rank x y Vx Vy Nx Ny) as [_ ->].
  destruct (rndG_rank x Vx Nx) as [E B].
  pose proof (rank_nonneg x). pose proof (rank_nonneg y).
  apply Z.min_glb; [|exact B].
  rewrite <- E at 1. apply rndG_mono.
  - change 0%Q with (inject_Z 0). rewrite <- Zle_Qle. lia.
  - rewrite <- Zle_Qle. lia.
Qed.

Lemma SFnn_finite_lt x :
  valid_binary x = true -> SFnn x = true ->
  (SFfinite x = true <-> rank x < 2 ^ 2098).
Proof.
  intros Hv Hn. destruct x as [s|s| |s m e]; try discriminate; cbn [SFfinite rank].
  - pose proof (pow2_pos 2098). split; [lia|reflexivity].
  - split; [discriminate|lia].
  - pose proof (valid_gz _ _ _ Hv). split; [lia|reflexivity].
Qed.

(** The quotient of non-negative floats grows with the numerator and
    shrinks with the denominator. *)
Lemma SFdiv_rank_mono x1 x2 y1 y2 :
  valid_binary x1 = true -> valid_binary x2 = true ->
  valid_binary y1 = true -> valid_binary y2 = true ->
  SFnn x1 = true -> SFnn x2 = true -> SFnn y1 = true -> SFnn y2 = true ->
  rank x1 <= rank x2 -> 0 < rank y2 <= rank y1 ->
  SFfinite (SF64div x2 y2) = true ->
  SFnn (SF64div x1 y1) = true /\ SFnn (SF64div x2 y2) = true /\
  rank (SF64div x1 y1) <= rank (SF64div x2 y2).
Proof.
  intros Vx1 Vx2 Vy1 Vy2 Nx1 Nx2 Ny1 Ny2 Hx Hy F2.
  (* a finite quotient has a finite numerator *)
  assert (Fx2 : SFnonneg x2 = true).
  { destruct (SFnn_cases x2 Nx2) as [H| ->]; [exact H|].
    destruct y2 as [s|s| |s m e]; try destruct s; discriminate. }
  (* and so has the quotient below it *)
  assert (Fx1 : SFnonneg x1 = true).
  { destruct (SFnn_cases x1 Nx1) as [H| ->]; [exact H|exfalso].
    assert (L : rank x2 < 2 ^ 2098).
    { apply (SFnn_finite_lt x2 Vx2 Nx2).
      destruct x2 as [s|s| |s m e]; try discriminate; reflexivity. }
    cbn [rank] in Hx. lia. }
  destruct (SFnonneg_nn x1 Fx1) as [_ Ex1]. destruct (SFnonneg_nn x2 Fx2) as [_ Ex2].
  (* the smaller denominator is a positive finite float *)
  assert (Py : forall y, valid_binary y = true -> SFnn y = true -> 0 < rank y ->
                         SFpos y = true \/ y = S754_infinity false).
  { intros y Vy Ny Hr.
    destruct y as [s|s| |s m e]; try discriminate; cbn [rank SFnn SFpos] in *;
      (destruct s; [discriminate|auto]). }
  assert (Q : forall x y, valid_binary x = true -> valid_binary y = true ->
                SFnonneg x = true -> SFpos y = true ->
                SFnn (SF64div x y) = true /\
                rank (SF64div x y) =
                  Z.min (rndG (inject_Z (gz x) / inject_Z (gz y) * inject_Z (2 ^ 1074)))
                    (2 ^ 2098)).
  { intros x y Vx Vy Nx Py'. apply rounds_rank; [|now apply SFdiv_grid].
    apply rndG_nonneg.
    assert (0 <= gz x) by (destruct (SFnonneg_nn x Nx) as [_ <-]; apply rank_nonneg).
    assert (0 < gz y).
    { destruct y as [s|s| |s m e]; try discriminate. pose proof (valid_gz _ _ _ Vy). exact (proj1 H0). }
    assert (0 <= inject_Z (gz x))%Q by (change 0%Q with (inject_Z 0); rewrite <- Zle_Qle; lia).
    assert (0 < inject_Z (gz y))%Q by (change 0%Q with (inject_Z 0); rewrite <- Zlt_Qlt; lia).
    pose proof (inject_pow2_pos 1074 ltac:(lia)).
    apply Qmult_le_0_compat; [|lra].
    apply Qle_shift_div_l; [assumption|lra]. }
  assert (Z0 : forall x, SFnonneg x = true ->
                 SFnn (SF64div x (S754_infinity false)) = true /\
                 rank (SF64div x (S754_infinity false)) = 0).
  { intros x Nx. destruct x as [s|s| |s m e]; try discriminate; split; reflexivity. }
  destruct (Py y1 Vy1 Ny1 ltac:(lia)) as [P1|I1].
  - (* both denominators finite *)
    assert (P2 : SFpos y2 = true).
    { destruct (Py y2 Vy2 Ny2 ltac:(lia)) as [H|I2]; [exact H|].
      subst y2. cbn [rank] in Hy.
      destruct y1 as [s|s| |s m e]; try discriminate.
      pose proof (valid_gz _ _ _ Vy1). cbn [rank] in Hy. lia. }
    destruct (Q x1 y1 Vx1 Vy1 Fx1 P1) as [Nq1 Rq1].
    destruct (Q x2 y2 Vx2 Vy2 Fx2 P2) as [Nq2 Rq2].
    split; [exact Nq1|]. split; [exact Nq2|].
    rewrite Rq1, Rq2. apply Z.min_le_compat_r.
    assert (G1 : rank y1 = gz y1) by (destruct y1 as [| | |[] ? ?]; try discriminate; reflexivity).
    assert (G2 : rank y2 = gz y2) by (destruct y2 as [| | |[] ? ?]; try discriminate; reflexivity).
    rewrite Ex1, Ex2, G1, G2 in *.
    pose proof (rank_nonneg x1) as R1. rewrite Ex1 in R1.
    assert (A1 : (0 <= inject_Z (gz x1))%Q) by (change 0%Q with (inject_Z 0); rewrite <- Zle_Qle; lia).
    assert (A2 : (inject_Z (gz x1) <= inject_Z (gz x2))%Q) by (rewrite <- Zle_Qle; lia).
    assert (B1 : (0 < inject_Z (gz y2))%Q) by (change 0%Q with (inject_Z 0); rewrite <- Zlt_Qlt; lia).
    assert (B2 : (inject_Z (gz y2) <= inject_Z (gz y1))%Q) by (rewrite <- Zle_Qle; lia).
    pose proof (inject_pow2_pos 1074 ltac:(lia)) as PC.
    assert (D : (inject_Z (gz x1) / inject_Z (gz y1) <=
                 inject_Z (gz x2) / inject_Z (gz y2))%Q).
    { apply Qle_shift_div_l; [exact B1|].
      assert (E : (inject_Z (gz y1) * (inject_Z (gz x1) / inject_Z (gz y1))
                   == inject_Z (gz x1))%Q) by (apply Qmult_div_r; lra).
      set (q := (inject_Z (gz x1) / inject_Z (gz y1))%Q) in *. nra. }
    assert (D0 : (0 <= inject_Z (gz x1) / inject_Z (gz y1))%Q).
    { apply Qle_shift_div_l; [lra|lra]. }
    apply rndG_mono; nra.
  - (* the larger denominator is infinite: the quotient is zero *)
    subst y1. destruct (Z0 x1 Fx1) as [Nq1 Rq1].
    split; [exact Nq1|]. rewrite Rq1.
    destruct (Py y2 Vy2 Ny2 ltac:(lia)) as [P2|I2].
    + destruct (Q x2 y2 Vx2 Vy2 Fx2 P2) as [Nq2 _].
      split; [exact Nq2|apply rank_nonneg].
    + subst y2. destruct (Z0 x2 Fx2) as [Nq2 _].
      split; [exact Nq2|apply rank_nonneg].
Qed.

Lemma SFeqb_rank x y :
  valid_binary x = true -> valid_binary y = true ->
  SFnn x = true -> SFnn y = true ->
  SFeqb x y = (rank x =? rank y).
Proof.
  intros Hx Hy Nx Ny. unfold SFeqb. rewrite (SFcompare_rank x y Hx Hy Nx Ny).
  unfold Z.eqb. destruct (rank x ?= rank y) eqn:E; try reflexivity.
  - apply Z.compare_eq in E. rewrite E. destruct (rank y); try reflexivity;
      now rewrite Pos.eqb_refl.
  - destruct (rank x), (rank y); try reflexivity; try discriminate;
      cbn in E; symmetry; apply Pos.eqb_neq; intros ->;
      rewrite ?Pos.compare_refl in E; try discriminate;
      now rewrite Pos.compare_refl in E.
  - destruct (rank x), (rank y); try reflexivity; try discriminate;
      cbn in E; symmetry; apply Pos.eqb_neq; intros ->;
      rewrite ?Pos.compare_refl in E; try discriminate;
      now rewrite Pos.compare_refl in E.
Qed.

(** * Differences and doubling *)

(** What rounds with a minus sign is not above zero. *)
Lemma rounds_to_below G r :
  rounds_to true G r -> SFltb (S754_zero false) r = false.
Proof.
  intros [[_ ->]|[[_ (m & e & -> & _)]|[_ ->]]]; reflexivity.
Qed.

(** A difference of non-negative floats that is above zero is at most the
    minuend. *)
Lemma SFsub_above x y :
  valid_binary x = true -> valid_binary y = true ->
  SFnonneg x = true -> SFnn y = true ->
  SFltb (S754_zero false) (SF64sub x y) = true ->
  SFnn (SF64sub x y) = true /\ rank (SF64sub x y) <= rank x.
Proof.
  intros Hx Hy Nx Ny.
  destruct x as [sx|sx| |sx mx ex]; try discriminate;
    destruct y as [sy|sy| |sy my ey]; try discriminate.
  - destruct sx, sy; discriminate.
  - destruct sy; discriminate.
  - destruct sy; discriminate.
  - intros _. split; [exact Nx|]. cbn [SF64sub SFsub]. lia.
  - destruct sy; discriminate.
  - destruct sx, sy; try discriminate.
    destruct (valid_finite _ _ _ Hx) as (Hex & _).
    destruct (valid_finite _ _ _ Hy) as (Hey & _).
    unfold SF64sub, SFsub. cbn [cond_Zopp].
    set (ez := Z.min ex ey).
    destruct (shl_align_spec mx ex ez) as [_ Ea].
    replace (Z.min ex ez) with ez in Ea by (unfold ez; lia).
    set (a := fst (shl_align mx ex ez)) in *.
    set (b := fst (shl_align my ey ez)) in *.
    assert (He : -1074 <= ez) by (unfold ez; lia).
    destruct (Z.pos a - Z.pos b) as [|m|m] eqn:D; cbn [binary_normalize].
    + discriminate.
    + intros _.
      assert (Hm : Z.pos m * 2 ^ (ez + 1074) <= Z.pos mx * 2 ^ (ex + 1074)).
      { replace (ex + 1074) with ((ex - ez) + (ez + 1074)) by lia.
        rewrite (Z.pow_add_r 2 (ex - ez) (ez + 1074)) by (unfold ez; lia).
        rewrite Z.mul_assoc, <- Ea.
        apply Z.mul_le_mono_nonneg_r; [apply Z.pow_nonneg|]; lia. }
      assert (Hq : (0 <= inject_Z (Z.pos m * 2 ^ (ez + 1074)))%Q).
      { change 0%Q with (inject_Z 0). rewrite <- Zle_Qle.
        apply Z.mul_nonneg_nonneg; [lia|apply Z.pow_nonneg; lia]. }
      destruct (rounds_rank _ _ (rndG_nonneg _ Hq) (binary_round_grid m ez He))
        as [N R].
      split; [exact N|]. rewrite R. cbn [rank].
      destruct (rndG_id mx ex Hx) as [E _].
      etransitivity; [apply Z.le_min_l|]. rewrite <- E.
      apply rndG_mono; [exact Hq|]. rewrite <- Zle_Qle. exact Hm.
    + intros H.
      rewrite (rounds_to_below _ _ (binary_round_signed true m ez He)) in H.
      discriminate.
Qed.

(** Taking a non-negative float from one that is not above zero leaves a
    float that is not above zero. *)
Lemma SFsub_below x y :
  valid_binary x = true -> valid_binary y = true ->
  SFltb (S754_zero false) x = false -> SFnn y = true ->
  SFltb (S754_zero false) (SF64sub x y) = false.
Proof.
  intros Hx Hy Bx Ny.
  destruct x as [sx|sx| |sx mx ex].
  - destruct y as [sy|sy| |sy my ey]; try discriminate;
      destruct sx, sy; try discriminate; reflexivity.
  - destruct sx; [|discriminate].
    destruct y as [sy|sy| |sy my ey]; try discriminate;
      try (destruct sy; try discriminate); reflexivity.
  - reflexivity.
  - destruct sx; [|discriminate].
    destruct y as [sy|sy| |sy my ey]; try discriminate.
    + reflexivity.
    + destruct sy; [discriminate|reflexivity].
    + destruct sy; [discriminate|].
      destruct (valid_finite _ _ _ Hx) as (Hex & _).
      destruct (valid_finite _ _ _ Hy) as (Hey & _).
      unfold SF64sub, SFsub. cbn [cond_Zopp].
      set (ez := Z.min ex ey).
      set (a := fst (shl_align mx ex ez)).
      set (b := fst (shl_align my ey ez)).
      assert (He : -1074 <= ez) by (unfold ez; lia).
      destruct (- Z.pos a - Z.pos b) as [|m|m] eqn:D; cbn [binary_normalize];
        [lia|lia|].
      exact (rounds_to_below _ _ (binary_round_signed true m ez He)).
Qed.

(** Twice a non-negative float is a non-negative float. *)
Lemma SFmul2_nn y :
  valid_binary y = true -> SFnn y = true ->
  SFnn (SF64mul (S754_finite false 4503599627370496 (-51)) y) = true.
Proof.
  intros Vy Ny. destruct y as [s|s| |s m e]; try discriminate.
  - reflexivity.
  - destruct s; [discriminate|reflexivity].
  - destruct s; [discriminate|].
    unfold SF64mul, SFmul. cbn [xorb].
    set (mm := Z.pos (4503599627370496 * m)).
    assert (Em : mm = Z.pos m * 2 ^ 52) by (unfold mm; lia).
    destruct (binary_round_aux_spec false mm (-51 + e) loc_Exact
                (inject_Z (4 * mm))) as (_ & _ & ->).
    + lia.
    + unfold sticky. rewrite K_of_even. cbn [shr_record_of_loc shr_s negb].
      unfold K_of. cbn [shr_m shr_r shr_s b2z]. rewrite !Z.add_0_r. reflexivity.
    + rewrite Em, Zdigits2_mul_pow2, fexp_unfold by lia.
      cbn [Zdigits2]. lia.
    + unfold pack_round.
      repeat match goal with
             | |- context [if ?c then _ else _] => destruct c
             end; reflexivity.
Qed.

End F64Round.

(** * Order and arithmetic of non-negative binary64 numbers *)

Module F64Order.
Import F64 F64Facts F64Round.

Lemma grid_nonneg x : 0 <= grid x.
Proof. apply rank_nonneg. Qed.

Lemma leb_grid x y :
  nonneg x = true -> nonneg y = true ->
  (x <=? y)%float = (grid x <=? grid y).
Proof.
  intros Nx Ny. rewrite leb_spec.
  apply SFleb_rank; try apply Prim2SF_valid; assumption.
Qed.

Lemma ltb_grid x y :
  nonneg x = true -> nonneg y = true ->
  (x <? y)%float = (grid x <? grid y).
Proof.
  intros Nx Ny. rewrite ltb_spec.
  apply SFltb_rank; try apply Prim2SF_valid; assumption.
Qed.

Lemma nonneg_0 : nonneg 0 = true /\ grid 0 = 0.
Proof. split; reflexivity. Qed.

Lemma leb_0_nonneg x : (0 <=? x)%float = true -> nonneg x = true.
Proof.
  rewrite leb_0_l. unfold nonneg.
  destruct (Prim2SF x) as [s|s| |s m e]; cbn; try discriminate; auto.
Qed.

(** Above zero: a positive finite float or plus infinity. *)
Lemma ltb_0_pos x :
  (0 <? x)%float = true -> nonneg x = true /\ 0 < grid x.
Proof.
  intros H. assert (N : nonneg x = true).
  { revert H. rewrite ltb_0_l. unfold nonneg.
    destruct (Prim2SF x) as [s|s| |s m e]; cbn; try discriminate; auto. }
  split; [exact N|].
  rewrite (ltb_grid 0 x (proj1 nonneg_0) N) in H.
  rewrite (proj2 nonneg_0) in H. now apply Z.ltb_lt.
Qed.

(** Not at most zero: above zero, or a NaN. *)
Lemma not_leb_0 x :
  (x <=? 0)%float = false ->
  Prim2SF x = S754_nan \/ (nonneg x = true /\ 0 < grid x).
Proof.
  intros H. destruct (Prim2SF x) as [s|s| |s m e] eqn:E.
  - rewrite leb_0_r, E in H. discriminate.
  - right. rewrite leb_0_r, E in H. cbn in H. destruct s; [discriminate|].
    unfold nonneg, grid. rewrite E. split; [reflexivity|]. cbn. lia.
  - now left.
  - right. rewrite leb_0_r, E in H. cbn in H. destruct s; [discriminate|].
    unfold nonneg, grid. rewrite E. split; [reflexivity|].
    pose proof (Prim2SF_valid x) as V. rewrite E in V.
    exact (proj1 (valid_gz _ _ _ V)).
Qed.

(** Comparisons against zero carry over along [<=]. *)
Lemma leb_trans_0 a b :
  (a <=? b)%float = true -> (b <=? 0)%float = true -> (a <=? 0)%float = true.
Proof.
  rewrite leb_spec, !leb_0_r.
  destruct (Prim2SF a) as [sa|sa| |sa ma ea], (Prim2SF b) as [sb|sb| |sb mb eb];
    try destruct sa; try destruct sb; cbn; try discriminate; auto.
Qed.

Lemma ltb_0_trans a b :
  (0 <? a)%float = true -> (a <=? b)%float = true -> (0 <? b)%float = true.
Proof.
  rewrite leb_spec, !ltb_0_l.
  destruct (Prim2SF a) as [sa|sa| |sa ma ea], (Prim2SF b) as [sb|sb| |sb mb eb];
    try destruct sa; try destruct sb; cbn; try discriminate; auto.
Qed.

Lemma add_grid x y :
  nonneg x = true -> nonneg y = true ->
  nonneg (x + y) = true /\
  grid (x + y) = Z.min (rndG (inject_Z (grid x + grid y))) (2 ^ 2098).
Proof.
  intros Nx Ny. unfold nonneg, grid. rewrite add_spec.
  apply SFadd_rank; try apply Prim2SF_valid; assumption.
Qed.

Lemma add_grid_mono x1 x2 y :
  nonneg x1 = true -> nonneg x2 = true -> nonneg y = true ->
  grid x1 <= grid x2 -> grid (x1 + y) <= grid (x2 + y).
Proof.
  intros N1 N2 Ny H. unfold grid. rewrite !add_spec.
  apply SFadd_rank_mono; try apply Prim2SF_valid; assumption.
Qed.

Lemma add_grid_ge x y :
  nonneg x = true -> nonneg y = true -> grid x <= grid (x + y).
Proof.
  intros Nx Ny. unfold grid. rewrite add_spec.
  apply SFadd_rank_ge; try apply Prim2SF_valid; assumption.
Qed.

Lemma div_grid_mono x1 x2 y1 y2 :
  nonneg x1 = true -> nonneg x2 = true -> nonneg y1 = true -> nonneg y2 = true ->
  grid x1 <= grid x2 -> 0 < grid y2 <= grid y1 ->
  finite (x2 / y2) = true ->
  finite (x1 / y1) = true /\
  nonneg (x1 / y1) = true /\ nonneg (x2 / y2) = true /\
  grid (x1 / y1) <= grid (x2 / y2).
Proof.
  intros Nx1 Nx2 Ny1 Ny2 Hx Hy F2.
  assert (M : nonneg (x1 / y1) = true /\ nonneg (x2 / y2) = true /\
              grid (x1 / y1) <= grid (x2 / y2)).
  { revert F2. unfold finite, nonneg, grid. rewrite !div_spec.
    apply SFdiv_rank_mono; try apply Prim2SF_valid; assumption. }
  split; [|exact M]. destruct M as (N1 & N2 & H).
  apply (SFnn_finite_lt _ (Prim2SF_valid (x1 / y1)) N1).
  apply (SFnn_finite_lt _ (Prim2SF_valid (x2 / y2)) N2) in F2.
  unfold grid in H. lia.
Qed.

(** A NaN operand makes the quotient of the closed form a NaN. *)
Lemma add_nan_l x y : Prim2SF x = S754_nan -> Prim2SF (x + y) = S754_nan.
Proof. intros E. rewrite add_spec, E. reflexivity. Qed.

Lemma div_nan_l x y : Prim2SF x = S754_nan -> finite (x / y) = false.
Proof. intros E. unfold finite. rewrite div_spec, E. reflexivity. Qed.

Lemma div_nan_r x y : Prim2SF y = S754_nan -> finite (x / y) = false.
Proof.
  intros E. unfold finite. rewrite div_spec, E.
  destruct (Prim2SF x); reflexivity.
Qed.

(** The exact value of a finite non-negative float, from its grid value. *)
Lemma to_Q_grid x :
  finite x = true -> nonneg x = true ->
  (to_Q x == inject_Z (grid x) / inject_Z (2 ^ 1074))%Q.
Proof.
  unfold finite, nonneg, grid, to_Q. pose proof (Prim2SF_valid x) as V.
  pose proof (inject_pow2_pos 1074 ltac:(lia)) as PC.
  destruct (Prim2SF x) as [s|s| |s m e]; try discriminate; intros _ N.
  - cbn [SF2Q rank]. change (inject_Z 0) with 0%Q. unfold Qdiv. ring.
  - destruct s; [discriminate|].
    destruct (valid_finite _ _ _ V) as (He & _).
    apply Qeq_sym, Qdiv_eq; [lra|]. cbn [SF2Q rank].
    destruct e as [|p|p].
    + change (Z.pos m * 2 ^ 0 # 1) with (inject_Z (Z.pos m * 2 ^ 0)).
      rewrite <- inject_Z_mult. apply inject_Z_injective.
      rewrite <- Z.mul_assoc, <- Z.pow_add_r by lia. reflexivity.
    + change (Z.pos m * 2 ^ Z.pos p # 1) with (inject_Z (Z.pos m * 2 ^ Z.pos p)).
      rewrite <- inject_Z_mult. apply inject_Z_injective.
      rewrite <- Z.mul_assoc, <- Z.pow_add_r by lia. reflexivity.
    + rewrite Qmake_Qdiv, Pos2Z.inj_pow.
      pose proof (inject_pow2_pos (Z.pos p) ltac:(lia)) as PP.
      assert (E : (inject_Z (2 ^ 1074) ==
                   inject_Z (2 ^ (Z.neg p + 1074)) * inject_Z (2 ^ Z.pos p))%Q).
      { rewrite <- inject_pow2_add by lia.
        replace (Z.neg p + 1074 + Z.pos p) with 1074 by lia. reflexivity. }
      rewrite inject_Z_mult, E. change (Z.pos 2) with 2. field. lra.
Qed.

Lemma floor_grid_mono x1 x2 :
  finite x1 = true -> finite x2 = true ->
  nonneg x1 = true -> nonneg x2 = true ->
  grid x1 <= grid x2 -> Qfloor (to_Q x1) <= Qfloor (to_Q x2).
Proof.
  intros F1 F2 N1 N2 H. apply Qfloor_resp_le.
  rewrite (to_Q_grid x1 F1 N1), (to_Q_grid x2 F2 N2).
  apply Qdiv_le_pos; [apply inject_pow2_pos; lia|]. now rewrite <- Zle_Qle.
Qed.

Lemma eqb_grid x y :
  nonneg x = true -> nonneg y = true ->
  (x =? y)%float = (grid x =? grid y).
Proof.
  intros Nx Ny. rewrite eqb_spec.
  apply SFeqb_rank; try apply Prim2SF_valid; assumption.
Qed.

(** Adding to a zero gives the other addend back. *)
Lemma add_grid_zero_l x y :
  nonneg x = true -> nonneg y = true -> grid x = 0 -> grid (x + y) = grid y.
Proof.
  intros Nx Ny E. destruct (add_grid x y Nx Ny) as [_ ->]. rewrite E, Z.add_0_l.
  destruct (rndG_rank (Prim2SF y) (Prim2SF_valid y) Ny) as [R B].
  fold (grid y) in R, B. rewrite R. lia.
Qed.

(** A non-negative float is finite exactly when it is below [2 ^ 1024]. *)
Lemma finite_grid x :
  nonneg x = true -> (finite x = true <-> grid x < 2 ^ 2098).
Proof.
  intros N. apply SFnn_finite_lt; [apply Prim2SF_valid|exact N].
Qed.

Lemma add_grid_mono2 x1 x2 y1 y2 :
  nonneg x1 = true -> nonneg x2 = true ->
  nonneg y1 = true -> nonneg y2 = true ->
  grid x1 <= grid x2 -> grid y1 <= grid y2 ->
  grid (x1 + y1) <= grid (x2 + y2).
Proof.
  intros Nx1 Nx2 Ny1 Ny2 Hx Hy.
  destruct (add_grid x1 y1 Nx1 Ny1) as [_ ->].
  destruct (add_grid x2 y2 Nx2 Ny2) as [_ ->].
  pose proof (grid_nonneg x1). pose proof (grid_nonneg y1).
  apply Z.min_le_compat_r, rndG_mono.
  - change 0%Q with (inject_Z 0). rewrite <- Zle_Qle. lia.
  - rewrite <- Zle_Qle. lia.
Qed.

(** Twice a non-negative float is a non-negative float. *)
Lemma mul2_nonneg x : nonneg x = true -> nonneg (2 * x) = true.
Proof.
  intros N. unfold nonneg. rewrite mul_spec.
  change (Prim2SF 2) with (S754_finite false 4503599627370496 (-51)).
  apply SFmul2_nn; [apply Prim2SF_valid|exact N].
Qed.

(** A difference of non-negative floats that is above zero is at most the
    minuend. *)
Lemma sub_above x y :
  nonneg x = true -> finite x = true -> nonneg y = true ->
  (0 <? x - y)%float = true ->
  nonneg (x - y) = true /\ grid (x - y) <= grid x.
Proof.
  intros Nx Fx Ny. unfold nonneg, grid. rewrite ltb_spec, sub_spec.
  change (Prim2SF 0) with (S754_zero false).
  apply SFsub_above; try apply Prim2SF_valid; [|exact Ny].
  unfold nonneg, finite in Nx, Fx.
  destruct (Prim2SF x) as [s|s| |s m e]; try discriminate; assumption.
Qed.

Lemma sub_below x y :
  (0 <? x)%float = false -> nonneg y = true -> (0 <? x - y)%float = false.
Proof.
  intros Bx Ny. rewrite ltb_spec in *. rewrite sub_spec.
  apply SFsub_below; try apply Prim2SF_valid; assumption.
Qed.

(** Clamped at zero, a difference of non-negative floats lies between zero
    and the minuend. *)
Lemma max0_sub_le x y :
  nonneg x = true -> finite x = true -> nonneg y = true ->
  nonneg (max0 (x - y)) = true /\ grid (max0 (x - y)) <= grid x.
Proof.
  intros Nx Fx Ny. unfold max0. destruct (0 <? x - y)%float eqn:E.
  - now apply sub_above.
  - split; [reflexivity|]. rewrite (proj2 nonneg_0). apply grid_nonneg.
Qed.

Lemma max0_sub_sub_le x y z :
  nonneg x = true -> finite x = true -> nonneg y = true -> nonneg z = true ->
  nonneg (max0 (x - y - z)) = true /\ grid (max0 (x - y - z)) <= grid x.
Proof.
  intros Nx Fx Ny Nz. destruct (0 <? x - y)%float eqn:E.
  - destruct (sub_above x y Nx Fx Ny E) as [N1 H1].
    assert (F1 : finite (x - y) = true).
    { apply (finite_grid _ N1). apply (finite_grid _ Nx) in Fx. lia. }
    destruct (max0_sub_le (x - y) z N1 F1 Nz) as [N2 H2].
    split; [exact N2|lia].
  - unfold max0. rewrite (sub_below (x - y) z E Nz).
    split; [reflexivity|]. rewrite (proj2 nonneg_0). apply grid_nonneg.
Qed.

End F64Order.

(** * The placement loop in closed form *)

Section PlacementLoop.
Variables (start_x start_y length stripe_w gap_w : float).
Variable count : Z.
Variable along_length : bool.

Let step := place_step length stripe_w gap_w count along_length.
Let bed := bed_at start_x start_y length stripe_w gap_w along_length.
Let aisle := aisle_at start_x start_y length stripe_w gap_w along_length.
Let d := (stripe_w + gap_w)%float.
Let n := Z.to_nat count.

Lemma range_length c : List.length (range c) = Z.to_nat c.
Proof. unfold range. now rewrite length_map, length_seq. Qed.

Lemma range_snoc k : range (Z.of_nat (S k)) = range (Z.of_nat k) ++ [Z.of_nat k].
Proof.
  unfold range. rewrite !Nat2Z.id, seq_S, map_app. reflexivity.
Qed.

(** After the first [k] iterations the cursor has advanced
    [min k (n - 1)] times: the last iteration does not move it. *)
Lemma place_loop_prefix k :
  (k <= n)%nat ->
  fold_left step (range (Z.of_nat k)) (mkCursor start_x start_y [] []) =
  mkCursor
    (if along_length then advance start_x d (Nat.min k (n - 1)) else start_x)
    (if along_length then start_y else advance start_y d (Nat.min k (n - 1)))
    (map bed (range (Z.of_nat k)))
    (map aisle (range (Z.of_nat (Nat.min k (n - 1))))).
Proof.
  induction k as [|k IH]; intros Hk.
  - simpl. destruct along_length; reflexivity.
  - rewrite range_snoc, fold_left_app, IH by lia. cbn [fold_left].
    assert (Hc : count = Z.of_nat n) by (subst n; lia).
    replace (Nat.min k (n - 1)) with k by lia.
    unfold step, place_step. cbn [cur_x cur_y cur_beds cur_aisles].
    destruct (Z.ltb_spec (Z.of_nat k) (count - 1)) as [Hlt|Hge].
    + replace (Nat.min (S k) (n - 1)) with (S k) by lia.
      rewrite (range_snoc k), !map_app. cbn [map advance].
      unfold bed, aisle, bed_at, aisle_at, d. rewrite Nat2Z.id.
      destruct along_length; reflexivity.
    + replace (Nat.min (S k) (n - 1)) with k by lia.
      rewrite !map_app. cbn [map].
      unfold bed, bed_at, d. rewrite Nat2Z.id.
      destruct along_length; reflexivity.
Qed.

Lemma place_stripes_closed :
  place_stripes start_x start_y length stripe_w gap_w count along_length =
  (map bed (range count), map aisle (range (count - 1))).
Proof.
  unfold place_stripes. fold step.
  assert (Hr : range count = range (Z.of_nat n)).
  { unfold range, n. now rewrite Nat2Z.id. }
  rewrite Hr, place_loop_prefix by lia. cbn [cur_beds cur_aisles].
  f_equal. f_equal. unfold range. f_equal. f_equal.
  rewrite Nat2Z.id. subst n. lia.
Qed.

End PlacementLoop.

(** * The packer's edge policy *)

Lemma area_of_headhouse_only p k :
  k <> "headhouse"%string -> area_of k (headhouse_rects p ++ [] ++ []) = 0%float.
Proof.
  intros Hk. unfold area_of, headhouse_rects.
  destruct (0 <? headhouse_depth p)%float; cbn [app filter kind]; try reflexivity.
  destruct (String.eqb_spec "headhouse" k) as [E|_]; [now elim Hk|reflexivity].
Qed.

(** C2: a non-positive stripe, a non-positive span or a negative gap makes
    the packer return 0 without raising; a layout with such geometry has no
    bed and no aisle, zero bed area, and is otherwise unchanged: the
    headhouse rectangle (if any) and the headhouse and total areas. *)
Theorem pack_degenerate_zero :
  forall total stripe gap,
    degenerate total stripe gap ->
    pack_repeating_stripes total stripe gap = Ok 0 /\
    forall p,
      stripes_span p = total -> bed_w p = stripe -> aisle_w p = gap ->
      compute_layout p =
      Ok (mkLayout (headhouse_rects p) [] [] 0 0
            (headhouse_depth p * W p)%float (W p * L p)%float).
Proof.
  intros total stripe gap H.
  assert (Hp : pack_repeating_stripes total stripe gap = Ok 0).
  { unfold pack_repeating_stripes.
    destruct (stripe <=? 0)%float eqn:Hs; [reflexivity|].
    destruct (total <=? 0)%float eqn:Ht; [reflexivity|]. cbn [orb].
    destruct H as [H|[H|H]]; try congruence.
    now rewrite (F64Facts.ltb_0_r_not_leb _ H). }
  split; [exact Hp|].
  intros p Ht Hs Hg. unfold compute_layout, n_beds.
  rewrite Ht, Hs, Hg, Hp. cbn [bind place_stripes range Z.to_nat seq map fold_left
    cur_beds cur_aisles].
  rewrite !area_of_headhouse_only by discriminate.
  now rewrite !app_nil_r.
Qed.

Lemma pack_degenerate_zero_witness :
  degenerate 5 0 0.5 /\
  pack_repeating_stripes 5 0 0.5 = Ok 0.
Proof.
  assert (H : degenerate 5 0 0.5) by (left; reflexivity).
  split; [exact H|]. exact (proj1 (pack_degenerate_zero 5 0 0.5 H)).
Defined.

(** * Counting and ordering the rectangles *)

(** C4: whatever the arguments, a placement pass produces [max 0 count]
    beds and [max 0 (beds - 1)] aisles: the last bed gets no trailing
    aisle. *)
Theorem place_stripes_aisle_count :
  forall start_x start_y length stripe_w gap_w count along_length,
    let pass := place_stripes start_x start_y length stripe_w gap_w count
                  along_length in
    Z.of_nat (List.length (fst pass)) = Z.max 0 count /\
    Z.of_nat (List.length (snd pass)) =
      Z.max 0 (Z.of_nat (List.length (fst pass)) - 1).
Proof.
  intros. subst pass. rewrite place_stripes_closed. cbn [fst snd].
  rewrite !length_map, !range_length. lia.
Qed.

Lemma map_const_repeat {A B : Type} (c : B) (l : list A) :
  map (fun _ => c) l = repeat c (List.length l).
Proof. induction l; simpl; congruence. Qed.

Lemma compute_layout_inv p lay :
  compute_layout p = Ok lay ->
  exists n,
    n_beds p = Ok n /\
    beds lay =
      map (bed_at (start_x p) (start_y p) (stripe_length p) (bed_w p) (aisle_w p)
             (beds_along_length p)) (range n) /\
    aisles lay =
      map (aisle_at (start_x p) (start_y p) (stripe_length p) (bed_w p) (aisle_w p)
             (beds_along_length p)) (range (n - 1)) /\
    rects lay = headhouse_rects p ++ beds lay ++ aisles lay.
Proof.
  unfold compute_layout. destruct (n_beds p) as [n|e]; cbn [bind]; [|discriminate].
  rewrite place_stripes_closed. intros [= <-]. exists n. cbn [beds aisles rects].
  repeat split; reflexivity.
Qed.

(** The layout is produced whenever the packer returns. *)
Lemma compute_layout_returns p n :
  n_beds p = Ok n -> exists lay, compute_layout p = Ok lay.
Proof.
  intros Hn. unfold compute_layout. rewrite Hn. cbn [bind].
  destruct (place_stripes _ _ _ _ _ _ _). eexists. reflexivity.
Qed.

(** * The service-aisle inputs *)

(** C9: two runs whose parameters differ only in [include_service] and
    [service_w] produce the same rectangles, the same areas and key figures
    and the same export rows (or raise the same exception). *)
Theorem service_params_ignored :
  forall p1 p2, same_but_service p1 p2 -> run p1 = run p2.
Proof.
  intros [W1 b1 h1 L1 o1 i1 s1 m1 bw1 aw1 d1] [W2 b2 h2 L2 o2 i2 s2 m2 bw2 aw2 d2].
  unfold same_but_service. cbn [W buffer headhouse_depth L orientation mode bed_w
    aisle_w export_dpi].
  intros (-> & -> & -> & -> & -> & -> & -> & -> & ->). reflexivity.
Qed.

Lemma service_params_ignored_witness :
  run (mkParams 9 0.3 2 24 NorthSouth false 0 SoilBeds 1.2 0.5 160) =
  run example_params.
Proof.
  apply service_params_ignored. unfold same_but_service. cbn.
  repeat split; reflexivity.
Defined.

(** * The end-to-end example *)

(** In binary64 the five products 1.2 * 21.4 are each 25.679999999999996 and
    their running sum is 128.39999999999998, two units in the last place
    below the float nearest to 128.4. *)
Lemma example_bed_area_rounded :
  exists lay,
    compute_layout example_params = Ok lay /\
    (bed_area lay =? 128.4)%float = false /\
    (F64.to_Q (bed_area lay) < F64.to_Q 128.4)%Q.
Proof.
  eexists. split; [vm_compute; reflexivity|].
  split; [vm_compute; reflexivity|]. vm_compute. reflexivity.
Qed.

(** C3, as the script computes it: for W = 9, L = 24, buffer = 0.3,
    headhouse depth 2.0, north-south beds 1.2 wide with 0.5 aisles, the
    growing width is 8.4, the packer places 5 beds and the pass 4 aisles, the
    growing length is 21.4, every bed is 1.2 by 21.4, and the bed area is the
    binary64 sum 128.39999999999998, which the key-figure tile prints as
    128.4. *)
Theorem example_layout :
  grow_W example_params = 8.4%float /\
  pack_repeating_stripes 8.4 1.2 0.5 = Ok 5 /\
  n_beds example_params = Ok 5 /\
  grow_L example_params = 21.4%float /\
  exists lay k,
    compute_layout example_params = Ok lay /\
    List.length (beds lay) = 5%nat /\
    List.length (aisles lay) = 4%nat /\
    Forall (fun r => w r = 1.2%float /\ h r = 21.4%float) (beds lay) /\
    bed_area lay = 128.39999999999998%float /\
    kpis lay = Ok k /\
    kpi_beds k = "5"%string /\
    kpi_cultivable k = "128.4"%string.
Proof.
  repeat (split; [vm_compute; reflexivity|]).
  eexists. eexists.
  split; [vm_compute; reflexivity|].
  cbn [beds aisles bed_area].
  repeat (split; [reflexivity|]).
  split; [repeat constructor|].
  split; [reflexivity|].
  split; [vm_compute; reflexivity|].
  split; reflexivity.
Qed.

(** * The packed count *)

Lemma Qfloor_div_bounds (X D : Q) :
  (0 < D)%Q ->
  (inject_Z (Qfloor (X / D)) * D <= X /\
   X < (inject_Z (Qfloor (X / D)) + 1) * D)%Q.
Proof.
  intros HD.
  pose proof (Qfloor_le (X / D)) as Hlo.
  pose proof (Qlt_floor (X / D)) as Hhi.
  rewrite inject_Z_plus in Hhi. change (inject_Z 1) with 1%Q in Hhi.
  assert (HX : (D * (X / D) == X)%Q) by (apply Qmult_div_r; lra).
  set (y := (X / D)%Q) in *. set (N := inject_Z (Qfloor y)) in *.
  split; nra.
Qed.

Lemma exact_add_inv a b :
  exact_add a b = true ->
  F64.finite a = true /\ F64.finite b = true /\ F64.finite (a + b) = true /\
  (F64.to_Q (a + b) == F64.to_Q a + F64.to_Q b)%Q.
Proof.
  unfold exact_add. rewrite andb_true_iff. intros [Hf He].
  destruct (F64Facts.finite_add a b Hf) as [Ha Hb].
  repeat split; try assumption. now apply Qeq_bool_eq.
Qed.

Lemma exact_div_inv a b :
  exact_div a b = true ->
  F64.finite (a / b) = true /\
  (F64.to_Q (a / b) == F64.to_Q a / F64.to_Q b)%Q.
Proof.
  unfold exact_div. rewrite andb_true_iff. intros [Hf He].
  split; [assumption|]. now apply Qeq_bool_eq.
Qed.

(** The fit fails as stated on two accounts.  By design: for a negative
    span the first guard answers 0, and not even zero stripes fit a
    negative span.  By rounding, inside the guards: 0.4 and 1.2 are not
    binary fractions, the rounded quotient (1.2 + 0.4) / (0.4 + 0.4) is
    exactly 2, yet twice the float 0.4 plus one gap of 0.4 exceeds the
    float 1.2. *)
Lemma pack_fits_fails :
  (pack_repeating_stripes (-1) 1 0 = Ok 0 /\ ~ pack_fits (-1) 1 0 0) /\
  (pack_repeating_stripes 1.2 0.4 0.4 = Ok 2 /\ ~ pack_fits 1.2 0.4 0.4 2).
Proof.
  split; (split; [vm_compute; reflexivity|]);
    unfold pack_fits; vm_compute; intros [H _]; apply H; reflexivity.
Qed.

(** What the packer returns when its arithmetic is exact: the floor of the
    exact quotient, which is non-negative and brackets the span. *)
Lemma pack_exact_count total stripe gap :
  (0 <? stripe)%float = true ->
  (0 <=? total)%float = true ->
  (0 <=? gap)%float = true ->
  pack_exact total stripe gap = true ->
  let T := F64.to_Q total in
  let S := F64.to_Q stripe in
  let G := F64.to_Q gap in
  let n := Qfloor ((T + G) / (S + G)) in
  pack_repeating_stripes total stripe gap = Ok n /\
  (0 <= n)%Z /\
  (0 < S /\ 0 <= G /\ 0 <= T)%Q /\
  (inject_Z n * (S + G) <= T + G /\ T + G < (inject_Z n + 1) * (S + G))%Q.
Proof.
  intros Hs Ht Hg Hex T S G n.
  unfold pack_exact in Hex. rewrite !andb_true_iff in Hex.
  destruct Hex as [[Hx Hd] Hq].
  apply exact_add_inv in Hx. destruct Hx as (Hft & Hfg & Hfx & Ex).
  apply exact_add_inv in Hd. destruct Hd as (Hfs & _ & Hfd & Ed).
  apply exact_div_inv in Hq. destruct Hq as (Hfq & Eq).
  pose proof (F64Facts.to_Q_pos stripe Hfs Hs) as HS.
  pose proof (F64Facts.to_Q_nonneg total Ht) as HT.
  pose proof (F64Facts.to_Q_nonneg gap Hg) as HG.
  fold T in Ex, HT. fold S in Ed, HS. fold G in Ex, Ed, HG.
  assert (HD : (0 < S + G)%Q) by lra.
  destruct (Qfloor_div_bounds (T + G) (S + G) HD) as [Hlo Hhi].
  fold n in Hlo, Hhi.
  assert (Hn0 : (0 <= n)%Z).
  { destruct (Z.le_gt_cases 0 n) as [|Hneg]; [assumption|exfalso].
    assert (Hle : (inject_Z n + 1 <= 0)%Q).
    { change 1%Q with (inject_Z 1). rewrite <- inject_Z_plus.
      change 0%Q with (inject_Z 0). rewrite <- Zle_Qle. lia. }
    nra. }
  split; [|repeat split; assumption].
  unfold pack_repeating_stripes.
  rewrite (F64Facts.ltb_0_l_not_leb stripe Hs). cbn [orb].
  destruct (total <=? 0)%float eqn:Ht0.
  - (* a zero span *)
    pose proof (F64Facts.leb_both_zero total Ht0 Ht) as HT0. fold T in HT0.
    f_equal.
    assert (Hlt1 : (inject_Z n < 1)%Q) by nra.
    change 1%Q with (inject_Z 1) in Hlt1. rewrite <- Zlt_Qlt in Hlt1. lia.
  - rewrite Hg. unfold F64.truediv.
    rewrite F64Facts.to_Q_nonzero_eqb by (rewrite Ed; lra).
    cbn [bind]. rewrite (F64Facts.floor_finite _ Hfq). cbn [bind].
    rewrite Z.max_r.
    + f_equal. unfold n. apply Qfloor_comp. rewrite Eq, Ex, Ed. reflexivity.
    + erewrite Qfloor_comp; [exact Hn0|]. rewrite Eq, Ex, Ed. reflexivity.
Qed.

(** C1, amended: for a positive stripe, a non-negative span and a
    non-negative gap, and when the two sums and the quotient of the closed
    form incur no rounding error, the packer returns
    [n = max 0 (floor ((total + gap) / (stripe + gap)))] and [n] is the
    maximal count that fits. *)
Theorem pack_fits_when_exact :
  forall total stripe gap,
    (0 <? stripe)%float = true ->
    (0 <=? total)%float = true ->
    (0 <=? gap)%float = true ->
    pack_exact total stripe gap = true ->
    exists n,
      pack_repeating_stripes total stripe gap = Ok n /\
      n = Z.max 0 (Qfloor ((F64.to_Q total + F64.to_Q gap) /
                           (F64.to_Q stripe + F64.to_Q gap))) /\
      pack_fits total stripe gap n.
Proof.
  intros total stripe gap Hs Ht Hg Hex.
  destruct (pack_exact_count total stripe gap Hs Ht Hg Hex)
    as (Hp & Hn0 & (HS & HG & HT) & Hlo & Hhi).
  set (T := F64.to_Q total) in *. set (S := F64.to_Q stripe) in *.
  set (G := F64.to_Q gap) in *.
  set (n := Qfloor ((T + G) / (S + G))) in *.
  exists n. split; [exact Hp|]. split; [now rewrite Z.max_r|].
  unfold pack_fits. fold T S G.
  rewrite inject_Z_plus. change (inject_Z 1) with 1%Q.
  split; [|nra].
  destruct (Z.eq_dec n 0) as [E|Hnz].
  - rewrite E. change (inject_Z (Z.max 0 (0 - 1))) with 0%Q.
    change (inject_Z 0) with 0%Q. lra.
  - rewrite Z.max_r by lia. unfold Z.sub.
    rewrite inject_Z_plus, inject_Z_opp. change (inject_Z 1) with 1%Q. nra.
Qed.

Lemma pack_fits_when_exact_witness :
  pack_exact 8 1.5 0.5 = true /\
  exists n, pack_repeating_stripes 8 1.5 0.5 = Ok n /\
            n = Z.max 0 (Qfloor ((F64.to_Q 8 + F64.to_Q 0.5) /
                                 (F64.to_Q 1.5 + F64.to_Q 0.5))) /\
            pack_fits 8 1.5 0.5 n.
Proof.
  split; [vm_compute; reflexivity|].
  apply pack_fits_when_exact; vm_compute; reflexivity.
Defined.

(** * Positions under exact arithmetic *)

Lemma max0_nonneg v : (0 <=? F64.max0 v)%float = true.
Proof.
  unfold F64.max0. destruct (0 <? v)%float eqn:E; [|reflexivity].
  rewrite F64Facts.ltb_0_l in E. rewrite F64Facts.leb_0_l.
  destruct (Prim2SF v) as [s|s| |s m e]; simpl in *; try discriminate;
    rewrite E; reflexivity.
Qed.

Lemma stripes_span_nonneg p : (0 <=? stripes_span p)%float = true.
Proof.
  unfold stripes_span, grow_W, grow_L.
  destruct (beds_along_length p); apply max0_nonneg.
Qed.

Lemma Qsum_app l1 l2 : (Qsum (l1 ++ l2) == Qsum l1 + Qsum l2)%Q.
Proof.
  induction l1 as [|a l1 IH]; simpl.
  - lra.
  - rewrite IH. lra.
Qed.

Lemma Qsum_const {A : Type} (c : Q) (f : A -> Q) (l : list A) :
  (forall a, f a = c) ->
  (Qsum (map f l) == inject_Z (Z.of_nat (List.length l)) * c)%Q.
Proof.
  intros Hf. induction l as [|a l IH].
  - cbn [map Qsum fold_right List.length Z.of_nat].
    change (inject_Z 0) with 0%Q. lra.
  - cbn [map Qsum fold_right List.length]. fold (Qsum (map f l)).
    rewrite IH, Hf, Nat2Z.inj_succ. unfold Z.succ.
    rewrite inject_Z_plus. change (inject_Z 1) with 1%Q. lra.
Qed.

Section ExactPass.
Variables (start stripe_w gap_w : float).
Variable count : Z.
Hypothesis Hd : exact_add stripe_w gap_w = true.
Hypothesis Hpass : place_exact start stripe_w gap_w count = true.

Let P0 := F64.to_Q start.
Let S := F64.to_Q stripe_w.
Let G := F64.to_Q gap_w.

Lemma exact_step k :
  (k < Z.to_nat (count - 1))%nat ->
  exact_add (advance start (stripe_w + gap_w) k) (stripe_w + gap_w) = true /\
  exact_add (advance start (stripe_w + gap_w) k) stripe_w = true.
Proof.
  intros Hk. unfold place_exact in Hpass. rewrite forallb_forall in Hpass.
  apply andb_true_iff, Hpass, in_seq. lia.
Qed.

(** The cursor of bed [k] sits at [start + k * (stripe + gap)]. *)
Lemma advance_exact k :
  (k <= Z.to_nat (count - 1))%nat ->
  (F64.to_Q (advance start (stripe_w + gap_w) k)
     == P0 + inject_Z (Z.of_nat k) * (S + G))%Q.
Proof.
  induction k as [|k IH]; intros Hk.
  - cbn [advance]. change (inject_Z (Z.of_nat 0)) with 0%Q. fold P0. lra.
  - cbn [advance].
    destruct (exact_step k ltac:(lia)) as [Hs _].
    apply exact_add_inv in Hs. destruct Hs as (_ & _ & _ & ->).
    rewrite IH by lia.
    apply exact_add_inv in Hd. destruct Hd as (_ & _ & _ & ->). fold S G.
    rewrite Nat2Z.inj_succ. unfold Z.succ.
    rewrite inject_Z_plus. change (inject_Z 1) with 1%Q. lra.
Qed.

(** The aisle after bed [k] starts where the bed ends. *)
Lemma aisle_pos_exact k :
  (k < Z.to_nat (count - 1))%nat ->
  (F64.to_Q (advance start (stripe_w + gap_w) k + stripe_w)
     == P0 + inject_Z (Z.of_nat k) * (S + G) + S)%Q.
Proof.
  intros Hk. destruct (exact_step k Hk) as [_ Hs].
  apply exact_add_inv in Hs. destruct Hs as (_ & _ & _ & ->).
  rewrite advance_exact by lia. fold S. lra.
Qed.

End ExactPass.

Lemma inject_Z_le_sub1 i n : (i <= n - 1)%Z -> (inject_Z i <= inject_Z n - 1)%Q.
Proof.
  intros H. rewrite Zle_Qle in H. unfold Z.sub in H.
  rewrite inject_Z_plus, inject_Z_opp in H. change (inject_Z 1) with 1%Q in H.
  lra.
Qed.

Lemma bed_axis sx sy len s g along i :
  axis_pos along (bed_at sx sy len s g along i) =
    F64.to_Q (advance (if along then sx else sy) (s + g) (Z.to_nat i)) /\
  axis_ext along (bed_at sx sy len s g along i) = F64.to_Q s.
Proof. destruct along; split; reflexivity. Qed.

Lemma aisle_axis sx sy len s g along i :
  axis_pos along (aisle_at sx sy len s g along i) =
    F64.to_Q (advance (if along then sx else sy) (s + g) (Z.to_nat i) + s) /\
  axis_ext along (aisle_at sx sy len s g along i) = F64.to_Q g.
Proof. destruct along; split; reflexivity. Qed.

Lemma in_range i c : In i (range c) <-> (0 <= i < c)%Z.
Proof.
  unfold range. rewrite in_map_iff. split.
  - intros (k & <- & Hk). apply in_seq in Hk. lia.
  - intros Hi. exists (Z.to_nat i). split; [lia|]. apply in_seq. lia.
Qed.

(** * Staying inside the span *)

(** In the tight house the packer places two beds on the span of 2.4; the
    three extents add up to 2.4000000000000004 and the second bed ends at
    2.7, beyond 0.3 + 2.4 = 2.6999999999999997, whether the sums are taken
    exactly or in binary64. *)
Lemma span_exceeded_by_rounding :
  ui_valid tight_params = true /\
  exists lay b,
    compute_layout tight_params = Ok lay /\
    ~ within_span tight_params lay /\
    In b (beds lay) /\
    (x b + w b <=? start_x tight_params + stripes_span tight_params)%float
      = false /\
    ~ (F64.to_Q (x b) + F64.to_Q (w b) <=
       F64.to_Q (start_x tight_params) + F64.to_Q (stripes_span tight_params))%Q.
Proof.
  split; [vm_compute; reflexivity|].
  eexists. eexists. split; [vm_compute; reflexivity|]. split; [|split; [|split]].
  - intros [H _]. vm_compute in H. apply H. reflexivity.
  - cbn [beds]. right. left. reflexivity.
  - vm_compute. reflexivity.
  - vm_compute. intros H. apply H. reflexivity.
Qed.

(** C5, amended: for a positive bed width and a non-negative aisle width,
    and when the packer's closed form and the cursor updates of the pass
    incur no rounding error, the layout is produced, the bed and aisle
    extents add up to at most [stripes_span], and every rectangle (the last
    one in particular) ends at or before [start + stripes_span]. *)
Theorem within_span_when_exact :
  forall p,
    (0 <? bed_w p)%float = true ->
    (0 <=? aisle_w p)%float = true ->
    layout_exact p = true ->
    exists lay, compute_layout p = Ok lay /\ within_span p lay.
Proof.
  intros p Hs Hg Hex. unfold layout_exact in Hex.
  apply andb_true_iff in Hex. destruct Hex as [Hpk Hpl].
  destruct (pack_exact_count _ _ _ Hs (stripes_span_nonneg p) Hg Hpk)
    as (Hp & Hn0 & (HS & HG & HT) & Hlo & Hhi).
  fold (n_beds p) in Hp. rewrite Hp in Hpl.
  set (n := Qfloor _) in *.
  destruct (compute_layout_returns p n Hp) as [lay Hlay].
  exists lay. split; [exact Hlay|].
  destruct (compute_layout_inv p lay Hlay) as (n' & Hn' & Hb & Ha & _).
  assert (n' = n) by congruence. subst n'.
  unfold pack_exact in Hpk. rewrite !andb_true_iff in Hpk.
  destruct Hpk as [[_ Hd] _].
  set (T := F64.to_Q (stripes_span p)) in *.
  set (S := F64.to_Q (bed_w p)) in *. set (G := F64.to_Q (aisle_w p)) in *.
  unfold within_span. fold T. rewrite Hb, Ha. split.
  - rewrite map_app, Qsum_app, !map_map.
    rewrite (Qsum_const S), (Qsum_const G);
      [|intros i; apply aisle_axis|intros i; apply bed_axis].
    rewrite !range_length.
    destruct (Z.eq_dec n 0) as [E|Hnz].
    + rewrite E. change (inject_Z (Z.of_nat (Z.to_nat 0))) with 0%Q.
      change (inject_Z (Z.of_nat (Z.to_nat (0 - 1)))) with 0%Q. lra.
    + rewrite !Z2Nat.id by lia. unfold Z.sub.
      rewrite inject_Z_plus, inject_Z_opp. change (inject_Z 1) with 1%Q. nra.
  - apply Forall_app. split; apply Forall_forall; intros r Hr;
      apply in_map_iff in Hr; destruct Hr as (i & <- & Hi); apply in_range in Hi.
    + destruct (bed_axis (start_x p) (start_y p) (stripe_length p) (bed_w p)
                  (aisle_w p) (beds_along_length p) i) as [-> ->].
      fold (axis_start p).
      rewrite (advance_exact _ _ _ n Hd Hpl) by lia.
      rewrite Z2Nat.id by lia. fold S G.
      assert (Hi' : (inject_Z i <= inject_Z n - 1)%Q)
        by (apply inject_Z_le_sub1; lia).
      nra.
    + destruct (aisle_axis (start_x p) (start_y p) (stripe_length p) (bed_w p)
                  (aisle_w p) (beds_along_length p) i) as [-> ->].
      fold (axis_start p).
      rewrite (aisle_pos_exact _ _ _ n Hd Hpl) by lia.
      rewrite Z2Nat.id by lia. fold S G.
      assert (Hi' : (inject_Z (i + 1) <= inject_Z n - 1)%Q)
        by (apply inject_Z_le_sub1; lia).
      rewrite inject_Z_plus in Hi'. change (inject_Z 1) with 1%Q in Hi'.
      nra.
Qed.

Lemma within_span_when_exact_witness :
  layout_exact dyadic_params = true /\
  exists lay, compute_layout dyadic_params = Ok lay /\
              within_span dyadic_params lay.
Proof.
  split; [vm_compute; reflexivity|].
  apply within_span_when_exact; vm_compute; reflexivity.
Defined.

(** * Disjointness of the placed rectangles *)

Lemma range_nth_error c i z :
  nth_error (range c) i = Some z -> z = Z.of_nat i /\ (i < Z.to_nat c)%nat.
Proof.
  unfold range. rewrite nth_error_map.
  destruct (nth_error (seq 0 (Z.to_nat c)) i) as [k|] eqn:E; [|discriminate].
  cbn [option_map]. intros [= <-].
  assert (Hi : (i < Z.to_nat c)%nat).
  { assert (Hl : (i < List.length (seq 0 (Z.to_nat c)))%nat)
      by (apply nth_error_Some; congruence).
    now rewrite length_seq in Hl. }
  split; [|exact Hi].
  apply (nth_error_nth _ _ 0%nat) in E. rewrite seq_nth in E by exact Hi.
  now subst k.
Qed.

(** What sits at place [i] of [beds ++ aisles]. *)
Lemma nth_error_pass {A : Type} (bed aisle : Z -> A) n m i r :
  nth_error (map bed (range n) ++ map aisle (range m)) i = Some r ->
  (exists k, (0 <= k < n)%Z /\ i = Z.to_nat k /\ r = bed k) \/
  (exists k, (0 <= k < m)%Z /\ i = (Z.to_nat n + Z.to_nat k)%nat /\ r = aisle k).
Proof.
  intros H.
  destruct (Nat.lt_ge_cases i (List.length (map bed (range n)))) as [Hi|Hi].
  - rewrite nth_error_app1 in H by exact Hi. rewrite nth_error_map in H.
    destruct (nth_error (range n) i) as [z|] eqn:E; [|discriminate].
    cbn [option_map] in H. injection H as <-.
    apply range_nth_error in E. destruct E as [-> Hlt].
    left. exists (Z.of_nat i). repeat split; lia.
  - rewrite nth_error_app2 in H by exact Hi. rewrite nth_error_map in H.
    rewrite length_map, range_length in *.
    destruct (nth_error (range m) (i - Z.to_nat n)) as [z|] eqn:E; [|discriminate].
    cbn [option_map] in H. injection H as <-.
    apply range_nth_error in E. destruct E as [-> Hlt].
    right. exists (Z.of_nat (i - Z.to_nat n)). repeat split; lia.
Qed.

Lemma overlap_along along r1 r2 :
  overlap r1 r2 ->
  (axis_pos along r1 < axis_pos along r2 + axis_ext along r2 /\
   axis_pos along r2 < axis_pos along r1 + axis_ext along r1)%Q.
Proof.
  unfold overlap, axis_pos, axis_ext. destruct along; tauto.
Qed.

(** Adding 1 to [2 ^ 53] is absorbed (the sum is a tie and rounds to the
    even neighbour [2 ^ 53]).  With east-west beds behind a headhouse
    [2 ^ 53] deep, which the sidebar admits, the packer counts 2 beds 0.5
    wide on the span of 2, the pass starts at [y = 2 ^ 53] and steps by
    [0.5 + 0.5]: the second bed lands on top of the first. *)
Lemma beds_overlap_by_absorption :
  ui_valid absorbing_params = true /\
  (0 <? bed_w absorbing_params)%float = true /\
  (0 <=? aisle_w absorbing_params)%float = true /\
  n_beds absorbing_params = Ok 2 /\
  start_y absorbing_params = 9007199254740992%float /\
  ~ pairwise_disjoint
      (fst (place_stripes 0 9007199254740992 9 0.5 0.5 2 false) ++
       snd (place_stripes 0 9007199254740992 9 0.5 0.5 2 false)) /\
  exists lay,
    compute_layout absorbing_params = Ok lay /\
    ~ pairwise_disjoint (beds lay ++ aisles lay).
Proof.
  assert (D : ~ pairwise_disjoint
                (fst (place_stripes 0 9007199254740992 9 0.5 0.5 2 false) ++
                 snd (place_stripes 0 9007199254740992 9 0.5 0.5 2 false))).
  { intros H.
    eapply (H 0%nat 1%nat); [discriminate|vm_compute; reflexivity..|].
    unfold overlap. vm_compute. repeat split; reflexivity. }
  repeat (split; [first [exact D|vm_compute; reflexivity]|]).
  eexists. split; [vm_compute; reflexivity|]. exact D.
Qed.

(** At ordinary sizes rounding makes neighbours overlap by a fraction of a
    unit in the last place: in a house 2 m wide with beds 0.3 and aisles
    0.6 wide, the aisle starts at the float 0.3 and its far edge, 0.3 + 0.6
    exactly, lies beyond the second bed's near edge, the rounded sum
    0.8999999999999999. *)
Lemma aisle_overlaps_next_bed_by_rounding :
  ui_valid small_params = true /\
  exists lay,
    compute_layout small_params = Ok lay /\
    ~ pairwise_disjoint (beds lay ++ aisles lay).
Proof.
  split; [vm_compute; reflexivity|].
  eexists. split; [vm_compute; reflexivity|].
  intros H.
  eapply (H 1%nat 2%nat); [discriminate|vm_compute; reflexivity..|].
  unfold overlap. vm_compute. repeat split; reflexivity.
Qed.

Section DisjointPass.
Variables (start_x start_y length stripe_w gap_w : float).
Variable count : Z.
Variable along_length : bool.
Hypothesis Hs : (0 <? stripe_w)%float = true.
Hypothesis Hg : (0 <=? gap_w)%float = true.
Hypothesis Hd : exact_add stripe_w gap_w = true.
Hypothesis Hpass :
  place_exact (if along_length then start_x else start_y) stripe_w gap_w count
    = true.

Let bed := bed_at start_x start_y length stripe_w gap_w along_length.
Let aisle := aisle_at start_x start_y length stripe_w gap_w along_length.
Let P0 := F64.to_Q (if along_length then start_x else start_y).
Let S := F64.to_Q stripe_w.
Let G := F64.to_Q gap_w.

Lemma stripe_gap_signs : (0 < S /\ 0 <= G)%Q.
Proof.
  split.
  - apply F64Facts.to_Q_pos; [|exact Hs].
    apply exact_add_inv in Hd. tauto.
  - apply F64Facts.to_Q_nonneg, Hg.
Qed.

Lemma bed_interval k :
  (0 <= k < count)%Z ->
  (axis_pos along_length (bed k) == P0 + inject_Z k * (S + G))%Q /\
  axis_ext along_length (bed k) = S.
Proof.
  intros Hk. unfold bed.
  destruct (bed_axis start_x start_y length stripe_w gap_w along_length k)
    as [-> ->].
  split; [|reflexivity].
  rewrite (advance_exact _ _ _ count Hd Hpass) by lia.
  rewrite Z2Nat.id by lia. reflexivity.
Qed.

Lemma aisle_interval k :
  (0 <= k < count - 1)%Z ->
  (axis_pos along_length (aisle k) == P0 + inject_Z k * (S + G) + S)%Q /\
  axis_ext along_length (aisle k) = G.
Proof.
  intros Hk. unfold aisle.
  destruct (aisle_axis start_x start_y length stripe_w gap_w along_length k)
    as [-> ->].
  split; [|reflexivity].
  rewrite (aisle_pos_exact _ _ _ count Hd Hpass) by lia.
  rewrite Z2Nat.id by lia. reflexivity.
Qed.

Lemma inject_Z_lt_succ a b : (a < b)%Z -> (inject_Z a + 1 <= inject_Z b)%Q.
Proof.
  intros H. change 1%Q with (inject_Z 1). rewrite <- inject_Z_plus.
  rewrite <- Zle_Qle. lia.
Qed.

Lemma pass_disjoint :
  pairwise_disjoint (map bed (range count) ++ map aisle (range (count - 1))).
Proof.
  destruct stripe_gap_signs as [HS HG].
  intros i j r1 r2 Hij H1 H2 Hov.
  apply (overlap_along along_length) in Hov. destruct Hov as [Ha Hb].
  apply nth_error_pass in H1. apply nth_error_pass in H2.
  destruct H1 as [(k1 & Hk1 & -> & ->)|(k1 & Hk1 & -> & ->)];
    destruct H2 as [(k2 & Hk2 & -> & ->)|(k2 & Hk2 & -> & ->)].
  - destruct (bed_interval k1 Hk1) as [E1 X1].
    destruct (bed_interval k2 Hk2) as [E2 X2].
    rewrite E1, E2, X1, X2 in *.
    destruct (Z.lt_total k1 k2) as [Hlt|[Heq|Hlt]].
    + pose proof (inject_Z_lt_succ _ _ Hlt). nra.
    + subst k2. now elim Hij.
    + pose proof (inject_Z_lt_succ _ _ Hlt). nra.
  - destruct (bed_interval k1 Hk1) as [E1 X1].
    destruct (aisle_interval k2 Hk2) as [E2 X2].
    rewrite E1, E2, X1, X2 in *.
    destruct (Z.le_gt_cases k1 k2) as [Hle|Hlt].
    + rewrite Zle_Qle in Hle. nra.
    + pose proof (inject_Z_lt_succ _ _ Hlt). nra.
  - destruct (aisle_interval k1 Hk1) as [E1 X1].
    destruct (bed_interval k2 Hk2) as [E2 X2].
    rewrite E1, E2, X1, X2 in *.
    destruct (Z.le_gt_cases k2 k1) as [Hle|Hlt].
    + rewrite Zle_Qle in Hle. nra.
    + pose proof (inject_Z_lt_succ _ _ Hlt). nra.
  - destruct (aisle_interval k1 Hk1) as [E1 X1].
    destruct (aisle_interval k2 Hk2) as [E2 X2].
    rewrite E1, E2, X1, X2 in *.
    destruct (Z.lt_total k1 k2) as [Hlt|[Heq|Hlt]].
    + pose proof (inject_Z_lt_succ _ _ Hlt). nra.
    + subst k2. now elim Hij.
    + pose proof (inject_Z_lt_succ _ _ Hlt). nra.
Qed.

End DisjointPass.

(** C6, amended: for a positive stripe width and a non-negative gap, and
    when the cursor updates and aisle positions of the pass incur no
    rounding error, no two of the beds and aisles of one placement pass
    overlap. *)
Theorem place_stripes_disjoint_when_exact :
  forall (start_x start_y length stripe_w gap_w : float) (count : Z)
         (along_length : bool),
    (0 <? stripe_w)%float = true ->
    (0 <=? gap_w)%float = true ->
    exact_add stripe_w gap_w = true ->
    place_exact (if along_length then start_x else start_y) stripe_w gap_w count
      = true ->
    let pass := place_stripes start_x start_y length stripe_w gap_w count
                  along_length in
    pairwise_disjoint (fst pass ++ snd pass).
Proof.
  intros sx sy len s g count along Hs Hg Hd Hpass pass. subst pass.
  rewrite place_stripes_closed. cbn [fst snd].
  now apply pass_disjoint.
Qed.

Lemma place_stripes_disjoint_when_exact_witness :
  pairwise_disjoint
    (fst (place_stripes 0.25 2.25 21.5 1.5 0.5 3 true) ++
     snd (place_stripes 0.25 2.25 21.5 1.5 0.5 3 true)).
Proof.
  apply place_stripes_disjoint_when_exact; vm_compute; reflexivity.
Defined.

(** * Monotonicity of the packed count *)

(** A stripe of width 0 is turned away by the guard and counts 0, while a
    wider stripe of width 1 fits ten times: the count is not non-increasing
    in the stripe width across the guard. *)
Lemma pack_not_antitone_across_guard :
  (0 <=? 1)%float = true /\
  pack_repeating_stripes 10 0 0 = Ok 0 /\
  pack_repeating_stripes 10 1 0 = Ok 10.
Proof. repeat split; vm_compute; reflexivity. Qed.

(** What a returned count tells: a guard answered 0, or the closed form was
    evaluated and its quotient was finite. *)
Lemma pack_inv total stripe gap n :
  pack_repeating_stripes total stripe gap = Ok n ->
  (n = 0 /\
   ((stripe <=? 0)%float = true \/ (total <=? 0)%float = true \/
    (0 <=? gap)%float = false)) \/
  ((stripe <=? 0)%float = false /\ (total <=? 0)%float = false /\
   (0 <=? gap)%float = true /\
   F64.finite ((total + gap) / (stripe + gap)) = true /\
   n = Z.max 0 (Qfloor (F64.to_Q ((total + gap) / (stripe + gap))))).
Proof.
  unfold pack_repeating_stripes.
  destruct (stripe <=? 0)%float eqn:Hs; cbn [orb].
  { intros [= <-]. left. auto. }
  destruct (total <=? 0)%float eqn:Ht.
  { intros [= <-]. left. auto. }
  destruct (0 <=? gap)%float eqn:Hg.
  2:{ intros [= <-]. left. auto. }
  unfold F64.truediv.
  destruct (stripe + gap =? 0)%float; cbn [bind]; [discriminate|].
  unfold F64.floor, F64.finite, F64.to_Q.
  destruct (Prim2SF ((total + gap) / (stripe + gap))) as [s|s| |s m e];
    cbn [F64.SFfloor bind F64.SFfinite]; try discriminate;
    intros [= <-]; right; repeat split; reflexivity.
Qed.

Lemma pack_nonneg total stripe gap n :
  pack_repeating_stripes total stripe gap = Ok n -> 0 <= n.
Proof.
  intros H. destruct (pack_inv _ _ _ _ H) as [[-> _]|(_ & _ & _ & _ & ->)]; lia.
Qed.

(** The quotient of the closed form grows with the span and shrinks with
    the stripe width, rounding included; below a finite quotient the
    quotient is finite. *)
Lemma quotient_mono t1 t2 s1 s2 g :
  F64.nonneg t1 = true -> F64.nonneg t2 = true ->
  F64.nonneg s1 = true -> F64.nonneg s2 = true -> F64.nonneg g = true ->
  F64.grid t1 <= F64.grid t2 ->
  0 < F64.grid s2 <= F64.grid s1 ->
  F64.finite ((t2 + g) / (s2 + g)) = true ->
  F64.finite ((t1 + g) / (s1 + g)) = true /\
  Qfloor (F64.to_Q ((t1 + g) / (s1 + g))) <=
  Qfloor (F64.to_Q ((t2 + g) / (s2 + g))).
Proof.
  intros Nt1 Nt2 Ns1 Ns2 Ng Ht Hs F2.
  destruct (F64Order.add_grid t1 g Nt1 Ng) as [Na1 _].
  destruct (F64Order.add_grid t2 g Nt2 Ng) as [Na2 _].
  destruct (F64Order.add_grid s1 g Ns1 Ng) as [Nd1 _].
  destruct (F64Order.add_grid s2 g Ns2 Ng) as [Nd2 _].
  pose proof (F64Order.add_grid_mono t1 t2 g Nt1 Nt2 Ng Ht) as Ha.
  pose proof (F64Order.add_grid_mono s2 s1 g Ns2 Ns1 Ng (proj2 Hs)) as Hd.
  pose proof (F64Order.add_grid_ge s2 g Ns2 Ng) as Hd0.
  destruct (F64Order.div_grid_mono (t1 + g) (t2 + g) (s1 + g) (s2 + g)
              Na1 Na2 Nd1 Nd2 Ha ltac:(lia) F2) as (F1 & Nq1 & Nq2 & Hq).
  split; [exact F1|]. now apply F64Order.floor_grid_mono.
Qed.

(** A call that gets past the guards with a finite quotient has a positive
    span, a positive stripe and a non-negative gap. *)
Lemma pack_operands total stripe gap :
  (stripe <=? 0)%float = false -> (total <=? 0)%float = false ->
  (0 <=? gap)%float = true ->
  F64.finite ((total + gap) / (stripe + gap)) = true ->
  (F64.nonneg total = true /\ 0 < F64.grid total) /\
  (F64.nonneg stripe = true /\ 0 < F64.grid stripe) /\
  F64.nonneg gap = true.
Proof.
  intros Hs Ht Hg Hf.
  pose proof (F64Order.leb_0_nonneg gap Hg) as Ng.
  destruct (F64Order.not_leb_0 total Ht) as [Et|Pt].
  { rewrite (F64Order.div_nan_l _ _ (F64Order.add_nan_l total gap Et)) in Hf.
    discriminate. }
  destruct (F64Order.not_leb_0 stripe Hs) as [Es|Ps].
  { rewrite (F64Order.div_nan_r _ _ (F64Order.add_nan_l stripe gap Es)) in Hf.
    discriminate. }
  auto.
Qed.

(** Either guard, or a gap that is not at least zero, answers 0. *)
Lemma pack_guard total stripe gap :
  (stripe <=? 0)%float = true \/ (total <=? 0)%float = true \/
  (0 <=? gap)%float = false ->
  pack_repeating_stripes total stripe gap = Ok 0.
Proof.
  unfold pack_repeating_stripes.
  destruct (stripe <=? 0)%float; [reflexivity|].
  destruct (total <=? 0)%float; [reflexivity|]. cbn [orb].
  intros [H|[H|H]]; try discriminate. now rewrite H.
Qed.

(** Past the guards, with a positive stripe and a finite quotient, the
    packer returns the floor of the rounded quotient. *)
Lemma pack_eval total stripe gap :
  (stripe <=? 0)%float = false -> (total <=? 0)%float = false ->
  (0 <=? gap)%float = true ->
  F64.nonneg stripe = true -> 0 < F64.grid stripe ->
  F64.finite ((total + gap) / (stripe + gap)) = true ->
  pack_repeating_stripes total stripe gap =
    Ok (Z.max 0 (Qfloor (F64.to_Q ((total + gap) / (stripe + gap))))).
Proof.
  intros Hs Ht Hg Ns Ps Hf.
  pose proof (F64Order.leb_0_nonneg gap Hg) as Ng.
  destruct (F64Order.add_grid stripe gap Ns Ng) as [Nd _].
  pose proof (F64Order.add_grid_ge stripe gap Ns Ng) as Hd.
  unfold pack_repeating_stripes. rewrite Hs, Ht, Hg. cbn [orb].
  unfold F64.truediv.
  rewrite (F64Order.eqb_grid _ _ Nd (proj1 F64Order.nonneg_0)).
  rewrite (proj2 F64Order.nonneg_0).
  replace (F64.grid (stripe + gap) =? 0) with false
    by (symmetry; apply Z.eqb_neq; lia).
  cbn [bind]. rewrite (F64Facts.floor_finite _ Hf). reflexivity.
Qed.

Lemma leb_not_nan_l a b :
  (a <=? b)%float = true -> Prim2SF a <> S754_nan.
Proof.
  rewrite leb_spec. intros H E. rewrite E in H. discriminate.
Qed.

(** C8, amended: if the packer returns a count for a span, it returns one
    for every smaller span, and that count is not larger; and among
    positive stripe widths, if it returns a count for a stripe, it returns
    one for every wider stripe, and that count is not larger.  Both hold
    for the binary64 evaluation of the closed form, rounding included. *)
Theorem pack_monotone :
  (forall total1 total2 stripe gap n2,
     (total1 <=? total2)%float = true ->
     pack_repeating_stripes total2 stripe gap = Ok n2 ->
     exists n1, pack_repeating_stripes total1 stripe gap = Ok n1 /\ n1 <= n2) /\
  (forall total stripe1 stripe2 gap n1,
     (0 <? stripe1)%float = true ->
     (stripe1 <=? stripe2)%float = true ->
     pack_repeating_stripes total stripe1 gap = Ok n1 ->
     exists n2, pack_repeating_stripes total stripe2 gap = Ok n2 /\ n2 <= n1).
Proof.
  split.
  - intros t1 t2 s g n2 Hle H2.
    pose proof (pack_nonneg _ _ _ _ H2) as Hn2.
    assert (G0 : (s <=? 0)%float = true \/ (t1 <=? 0)%float = true \/
                 (0 <=? g)%float = false ->
                 pack_repeating_stripes t1 s g = Ok 0).
    { intros G. now apply pack_guard. }
    destruct (s <=? 0)%float eqn:Hs; [exists 0; auto|].
    destruct (t1 <=? 0)%float eqn:Ht1; [exists 0; auto|].
    destruct (0 <=? g)%float eqn:Hg; [|exists 0; auto].
    clear G0.
    destruct (pack_inv _ _ _ _ H2) as [[_ G]|(_ & Ht2 & _ & F2 & ->)].
    { destruct G as [G|[G|G]]; try congruence.
      rewrite (F64Order.leb_trans_0 t1 t2 Hle G) in Ht1. discriminate. }
    destruct (pack_operands _ _ _ Hs Ht2 Hg F2) as ((Nt2 & Pt2) & (Ns & Ps) & Ng).
    destruct (F64Order.not_leb_0 t1 Ht1) as [Et|[Nt1 Pt1]].
    { now elim (leb_not_nan_l t1 t2 Hle). }
    rewrite (F64Order.leb_grid t1 t2 Nt1 Nt2) in Hle. apply Z.leb_le in Hle.
    destruct (quotient_mono t1 t2 s s g Nt1 Nt2 Ns Ns Ng Hle ltac:(lia) F2)
      as [F1 Hq].
    eexists. split; [apply pack_eval; assumption|].
    now apply Z.max_le_compat_l.
  - intros t s1 s2 g n1 Hpos Hle H1.
    pose proof (pack_nonneg _ _ _ _ H1) as Hn1.
    pose proof (F64Order.ltb_0_trans s1 s2 Hpos Hle) as Hpos2.
    pose proof (F64Facts.ltb_0_l_not_leb s1 Hpos) as Hs1.
    pose proof (F64Facts.ltb_0_l_not_leb s2 Hpos2) as Hs2.
    assert (G0 : (s2 <=? 0)%float = true \/ (t <=? 0)%float = true \/
                 (0 <=? g)%float = false ->
                 pack_repeating_stripes t s2 g = Ok 0).
    { intros G. now apply pack_guard. }
    destruct (t <=? 0)%float eqn:Ht; [exists 0; auto|].
    destruct (0 <=? g)%float eqn:Hg; [|exists 0; auto].
    clear G0.
    destruct (pack_inv _ _ _ _ H1) as [[_ G]|(_ & _ & _ & F1 & ->)].
    { destruct G as [G|[G|G]]; congruence. }
    destruct (pack_operands _ _ _ Hs1 Ht Hg F1) as ((Nt & Pt) & (Ns1 & Ps1) & Ng).
    destruct (F64Order.ltb_0_pos s2 Hpos2) as [Ns2 Ps2].
    rewrite (F64Order.leb_grid s1 s2 Ns1 Ns2) in Hle. apply Z.leb_le in Hle.
    destruct (quotient_mono t t s2 s1 g Nt Nt Ns2 Ns1 Ng ltac:(lia) ltac:(lia) F1)
      as [F2 Hq].
    eexists. split; [apply pack_eval; assumption|].
    now apply Z.max_le_compat_l.
Qed.

Lemma pack_monotone_witness :
  (exists n1, pack_repeating_stripes 6.3 1.2 0.5 = Ok n1 /\ n1 <= 5) /\
  (exists n2, pack_repeating_stripes 8.4 1.2 0.5 = Ok n2 /\ n2 <= 7).
Proof.
  destruct pack_monotone as [Ht Hs]. split.
  - apply (Ht 6.3%float 8.4%float 1.2%float 0.5%float 5);
      vm_compute; reflexivity.
  - apply (Hs 8.4%float 0.7%float 1.2%float 0.5%float 7);
      vm_compute; reflexivity.
Defined.

(** * The layout is produced *)

Lemma ui_valid_inv p :
  ui_valid p = true ->
  F64.nonneg (buffer p) = true /\ F64.nonneg (headhouse_depth p) = true /\
  F64.nonneg (bed_w p) = true /\ F64.nonneg (aisle_w p) = true.
Proof.
  unfold ui_valid. intros H.
  repeat (apply andb_true_iff in H; let H' := fresh "C" in destruct H as [H H']).
  repeat split.
  - apply F64Order.leb_0_nonneg. assumption.
  - apply F64Order.leb_0_nonneg. assumption.
  - apply (F64Order.ltb_0_pos (bed_w p)).
    apply (F64Order.ltb_0_trans 0.3 (bed_w p)); [reflexivity|assumption].
  - apply (F64Order.ltb_0_pos (aisle_w p)).
    apply (F64Order.ltb_0_trans 0.3 (aisle_w p)); [reflexivity|assumption].
Qed.

Lemma ui_valid_dims p :
  ui_valid p = true ->
  F64.nonneg (W p) = true /\ F64.finite (W p) = true /\
  F64.nonneg (L p) = true /\ F64.finite (L p) = true /\
  (0.3 <=? bed_w p)%float = true /\ (0.3 <=? aisle_w p)%float = true.
Proof.
  unfold ui_valid. intros H.
  repeat (apply andb_true_iff in H; let H' := fresh "C" in destruct H as [H H']).
  repeat split; try assumption.
  - apply (F64Order.ltb_0_pos (W p)).
    apply (F64Order.ltb_0_trans 2 (W p)); [reflexivity|assumption].
  - apply (F64Order.ltb_0_pos (L p)).
    apply (F64Order.ltb_0_trans 3 (L p)); [reflexivity|assumption].
Qed.

(** The span handed to the packer lies between zero and the house's width
    or length. *)
Lemma stripes_span_bound p :
  ui_valid p = true ->
  F64.nonneg (stripes_span p) = true /\
  F64.grid (stripes_span p) <= Z.max (F64.grid (W p)) (F64.grid (L p)).
Proof.
  intros Hv. destruct (ui_valid_inv p Hv) as (Nb & Nh & _ & _).
  destruct (ui_valid_dims p Hv) as (NW & FW & NL & FL & _ & _).
  pose proof (F64Order.mul2_nonneg (buffer p) Nb) as N2.
  unfold stripes_span, grow_W, grow_L. destruct (beds_along_length p).
  - destruct (F64Order.max0_sub_le (W p) (2 * buffer p) NW FW N2) as [N H].
    split; [exact N|lia].
  - destruct (F64Order.max0_sub_sub_le (L p) (headhouse_depth p) (2 * buffer p)
                NL FL Nh N2) as [N H].
    split; [exact N|lia].
Qed.

(** For the inputs the sidebar admits, short of dimensions near the
    overflow threshold, the packer returns a count: the divisor is at least
    0.3 and the quotient is finite. *)
Lemma n_beds_returns p :
  ui_valid p = true -> moderate p = true -> exists n, n_beds p = Ok n.
Proof.
  intros Hv Hm. destruct (ui_valid_inv p Hv) as (_ & _ & Ns & Ng).
  destruct (ui_valid_dims p Hv) as (NW & _ & NL & _ & Hbed & _).
  destruct (stripes_span_bound p Hv) as [Nt Ht].
  unfold moderate in Hm. rewrite !andb_true_iff in Hm.
  destruct Hm as [[HW HL] HA].
  assert (NB : F64.nonneg 1e300 = true) by reflexivity.
  rewrite (F64Order.leb_grid _ _ NW NB) in HW. apply Z.leb_le in HW.
  rewrite (F64Order.leb_grid _ _ NL NB) in HL. apply Z.leb_le in HL.
  rewrite (F64Order.leb_grid _ _ Ng NB) in HA. apply Z.leb_le in HA.
  assert (N3 : F64.nonneg 0.3 = true) by reflexivity.
  assert (P3 : 0 < F64.grid 0.3) by (vm_compute; reflexivity).
  rewrite (F64Order.leb_grid _ _ N3 Ns) in Hbed. apply Z.leb_le in Hbed.
  assert (Hpos : (0 <? bed_w p)%float = true).
  { rewrite (F64Order.ltb_grid _ _ (proj1 F64Order.nonneg_0) Ns).
    rewrite (proj2 F64Order.nonneg_0). apply Z.ltb_lt. lia. }
  assert (Hg : (0 <=? aisle_w p)%float = true).
  { rewrite (F64Order.leb_grid _ _ (proj1 F64Order.nonneg_0) Ng).
    rewrite (proj2 F64Order.nonneg_0). apply Z.leb_le, F64Order.grid_nonneg. }
  unfold n_beds. destruct (stripes_span p <=? 0)%float eqn:Ht0.
  { exists 0. apply pack_guard. auto. }
  destruct (F64Order.add_grid (stripes_span p) (aisle_w p) Nt Ng) as [Na _].
  destruct (F64Order.add_grid (bed_w p) (aisle_w p) Ns Ng) as [Nd _].
  pose proof (F64Order.add_grid_mono2 (stripes_span p) 1e300 (aisle_w p) 1e300
                Nt NB Ng NB ltac:(lia) HA) as Hnum.
  pose proof (F64Order.add_grid_ge (bed_w p) (aisle_w p) Ns Ng) as Hden.
  destruct (F64Order.div_grid_mono
              (stripes_span p + aisle_w p) (1e300 + 1e300)
              (bed_w p + aisle_w p) 0.3
              Na eq_refl Nd N3 Hnum ltac:(lia) ltac:(vm_compute; reflexivity))
    as [F _].
  eexists. apply pack_eval; try assumption.
  - now apply F64Facts.ltb_0_l_not_leb.
  - lia.
Qed.

Lemma compute_layout_total p :
  ui_valid p = true -> moderate p = true ->
  exists lay, compute_layout p = Ok lay.
Proof.
  intros Hv Hm. destruct (n_beds_returns p Hv Hm) as [n Hn].
  exact (compute_layout_returns p n Hn).
Qed.

(** * The order of the rectangles *)

(** C10: the layout is produced for the inputs the sidebar admits (short
    of dimensions near the overflow threshold), and its rectangle sequence
    is the optional headhouse, then the beds with indices 1, 2, ..., then
    the aisles labelled 1-2, 2-3, ...; beds and aisles are not interleaved,
    and the export table has one row per rectangle in that same order. *)
Theorem rects_order :
  forall p,
    (ui_valid p = true -> moderate p = true ->
     exists lay, compute_layout p = Ok lay) /\
    forall lay,
      compute_layout p = Ok lay ->
      exists n,
        n_beds p = Ok n /\
        rects lay = headhouse_rects p ++ beds lay ++ aisles lay /\
        map kind (rects lay) =
          (if (0 <? headhouse_depth p)%float then ["headhouse"%string] else []) ++
          repeat "bed"%string (Z.to_nat n) ++
          repeat "aisle"%string (Z.to_nat (n - 1)) /\
        map (fun r => dict_get "index" (meta r)) (beds lay) =
          map (fun i => Some (VInt (i + 1))) (range n) /\
        map (fun r => dict_get "between" (meta r)) (aisles lay) =
          map (fun i => Some (VStr (str_of_Z (i + 1) ++ "-" ++ str_of_Z (i + 2))))
            (range (n - 1)) /\
        map (dict_get "Type") (export_rows lay) =
          map (fun r => Some (VStr (kind r))) (rects lay).
Proof.
  intros p. split; [apply compute_layout_total|]. intros lay H.
  destruct (compute_layout_inv p lay H) as (n & Hn & Hb & Ha & Hr).
  exists n. split; [exact Hn|]. split; [exact Hr|].
  split; [|split; [|split]].
  - rewrite Hr, !map_app, Hb, Ha, !map_map.
    f_equal; [|f_equal].
    + unfold headhouse_rects. now destruct (0 <? headhouse_depth p)%float.
    + rewrite <- (range_length n), <- map_const_repeat.
      apply map_ext. intros i. unfold bed_at.
      now destruct (beds_along_length p).
    + rewrite <- (range_length (n - 1)), <- map_const_repeat.
      apply map_ext. intros i. unfold aisle_at.
      now destruct (beds_along_length p).
  - rewrite Hb, map_map. apply map_ext. intros i. unfold bed_at.
    now destruct (beds_along_length p).
  - rewrite Ha, map_map. apply map_ext. intros i. unfold aisle_at.
    now destruct (beds_along_length p).
  - unfold export_rows. rewrite map_map. apply map_ext. intros r. reflexivity.
Qed.

Lemma rects_order_witness :
  ui_valid example_params = true /\ moderate example_params = true /\
  exists lay,
    compute_layout example_params = Ok lay /\
    map kind (rects lay) =
      ["headhouse"; "bed"; "bed"; "bed"; "bed"; "bed";
       "aisle"; "aisle"; "aisle"; "aisle"]%string.
Proof.
  assert (Hv : ui_valid example_params = true) by (vm_compute; reflexivity).
  assert (Hm : moderate example_params = true) by (vm_compute; reflexivity).
  split; [exact Hv|]. split; [exact Hm|].
  destruct (rects_order example_params) as [Ht Ho].
  destruct (Ht Hv Hm) as [lay E].
  exists lay. split; [exact E|].
  destruct (Ho lay E) as (n & Hn & _ & Hk & _).
  vm_compute in Hn. injection Hn as <-. exact Hk.
Defined.

(** * The headhouse and the start of the growing region *)

(** The cursor never moves back when the step is not negative. *)
Lemma advance_ge start step k :
  F64.nonneg start = true -> F64.nonneg step = true ->
  F64.nonneg (advance start step k) = true /\
  F64.grid start <= F64.grid (advance start step k).
Proof.
  intros Ns Nd. induction k as [|k [IHn IHg]]; cbn [advance].
  - split; [exact Ns|lia].
  - destruct (F64Order.add_grid _ _ IHn Nd) as [N _]. split; [exact N|].
    pose proof (F64Order.add_grid_ge _ _ IHn Nd). lia.
Qed.

Lemma filter_map_none {A B : Type} (f : B -> bool) (g : A -> B) (l : list A) :
  (forall a, f (g a) = false) -> filter f (map g l) = [].
Proof.
  intros H. induction l as [|a l IH]; cbn [map filter]; [reflexivity|].
  now rewrite H.
Qed.

(** C7: a positive headhouse depth gives exactly one headhouse rectangle,
    at (0, 0), as wide as the house and as deep as the headhouse; a zero
    depth gives none, and then the growing region starts at the buffer.
    The region starts at [headhouse_depth + buffer]: for the non-negative
    inputs the sidebar admits, that is at or beyond the headhouse's far
    edge, the layout is produced (short of dimensions near the overflow
    threshold), and every bed and aisle lies at or beyond that start, so
    none overlaps the headhouse. *)
Theorem headhouse_placement :
  forall p,
    start_y p = (headhouse_depth p + buffer p)%float /\
    ((0 <? headhouse_depth p)%float = true ->
       headhouse_rects p =
         [mkRect "headhouse" 0 0 (W p) (headhouse_depth p)
            [("label"%string, VStr "Headhouse")]]) /\
    ((headhouse_depth p =? 0)%float = true -> headhouse_rects p = []) /\
    (forall lay,
       compute_layout p = Ok lay ->
       filter (fun r => String.eqb (kind r) "headhouse") (rects lay) =
         headhouse_rects p) /\
    (ui_valid p = true ->
       ((headhouse_depth p =? 0)%float = true ->
          (start_y p =? buffer p)%float = true) /\
       (headhouse_depth p <=? start_y p)%float = true /\
       (moderate p = true -> exists lay, compute_layout p = Ok lay) /\
       forall lay,
         compute_layout p = Ok lay ->
         Forall (fun r => (start_y p <=? y r)%float = true /\
                          (headhouse_depth p <=? y r)%float = true)
           (beds lay ++ aisles lay)).
Proof.
  intros p. split; [reflexivity|]. split; [|split; [|split]].
  - intros H. unfold headhouse_rects. now rewrite H.
  - intros H. unfold headhouse_rects.
    rewrite F64Facts.eqb_0_r in H. rewrite F64Facts.ltb_0_l.
    destruct (Prim2SF (headhouse_depth p)); try discriminate. reflexivity.
  - intros lay Hlay.
    destruct (compute_layout_inv p lay Hlay) as (n & _ & Hb & Ha & ->).
    rewrite Hb, Ha, !filter_app.
    rewrite !filter_map_none, !app_nil_r.
    + unfold headhouse_rects. destruct (0 <? headhouse_depth p)%float; reflexivity.
    + intros i. unfold aisle_at. destruct (beds_along_length p); reflexivity.
    + intros i. unfold bed_at. destruct (beds_along_length p); reflexivity.
  - intros Hv. destruct (ui_valid_inv p Hv) as (Nb & Nh & Ns & Ng).
    destruct (F64Order.add_grid _ _ Nh Nb) as [Ny _]. fold (start_y p) in Ny.
    pose proof (F64Order.add_grid_ge _ _ Nh Nb) as Hge. fold (start_y p) in Hge.
    split; [|split; [|split]].
    + intros H0.
      rewrite (F64Order.eqb_grid _ _ Nh (proj1 F64Order.nonneg_0)) in H0.
      rewrite (proj2 F64Order.nonneg_0) in H0. apply Z.eqb_eq in H0.
      rewrite (F64Order.eqb_grid _ _ Ny Nb). apply Z.eqb_eq.
      now apply F64Order.add_grid_zero_l.
    + rewrite (F64Order.leb_grid _ _ Nh Ny). now apply Z.leb_le.
    + now apply compute_layout_total.
    + intros lay Hlay.
      destruct (compute_layout_inv p lay Hlay) as (n & _ & Hb & Ha & _).
      destruct (F64Order.add_grid _ _ Ns Ng) as [Nd _].
      assert (Hy : forall r, In r (beds lay ++ aisles lay) ->
                   F64.nonneg (y r) = true /\
                   F64.grid (start_y p) <= F64.grid (y r)).
      { intros r Hr. apply in_app_or in Hr. rewrite Hb, Ha in Hr.
        destruct Hr as [Hr|Hr]; apply in_map_iff in Hr;
          destruct Hr as (i & <- & _).
        - unfold bed_at. destruct (beds_along_length p); cbn [y].
          + split; [exact Ny|lia].
          + apply advance_ge; assumption.
        - unfold aisle_at. destruct (beds_along_length p); cbn [y].
          + split; [exact Ny|lia].
          + destruct (advance_ge (start_y p) (bed_w p + aisle_w p)
                        (Z.to_nat i) Ny Nd) as [Na Hg].
            destruct (F64Order.add_grid _ _ Na Ns) as [N _].
            pose proof (F64Order.add_grid_ge _ _ Na Ns). split; [exact N|lia]. }
      apply Forall_forall. intros r Hr. destruct (Hy r Hr) as [Nr Hg].
      rewrite (F64Order.leb_grid _ _ Ny Nr), (F64Order.leb_grid _ _ Nh Nr).
      split; apply Z.leb_le; lia.
Qed.

Lemma headhouse_placement_witness :
  ui_valid example_params = true /\
  (2 <=? start_y example_params)%float = true.
Proof.
  assert (Hv : ui_valid example_params = true) by (vm_compute; reflexivity).
  split; [exact Hv|].
  destruct (headhouse_placement example_params) as (_ & _ & _ & _ & H).
  exact (proj1 (proj2 (H Hv))).
Defined.

(** * Further properties of the placement pass *)

Lemma firstn_seq_le k a n : (k <= n)%nat -> firstn k (seq a n) = seq a k.
Proof.
  revert a n. induction k as [|k IH]; intros a n Hk; [reflexivity|].
  destruct n as [|n]; [lia|]. cbn [seq firstn]. f_equal. apply IH. lia.
Qed.

Lemma firstn_range k c : k <= c -> firstn (Z.to_nat k) (range c) = range k.
Proof.
  intros Hk. unfold range. rewrite firstn_map. f_equal.
  apply firstn_seq_le. lia.
Qed.

Lemma nth_error_map_range {A : Type} (f : Z -> A) c i r :
  nth_error (map f (range c)) i = Some r ->
  r = f (Z.of_nat i) /\ (i < Z.to_nat c)%nat.
Proof.
  rewrite nth_error_map.
  destruct (nth_error (range c) i) as [z|] eqn:E; [|discriminate].
  cbn [option_map]. intros [= <-].
  destruct (range_nth_error c i z E) as [-> Hi]. split; [reflexivity|exact Hi].
Qed.

(** X1: in one pass every bed has the stripe's width and the pass's length
    (exchanged for an east-west pass), every aisle the gap's width and the
    same length, all sit at the same coordinate across the packed axis, and
    the first bed, if there is one, sits at the start point with index 1. *)
Theorem place_stripes_shape :
  forall (start_x start_y length stripe_w gap_w : float) (count : Z)
         (along_length : bool),
    Forall (fun r => kind r = "bed"%string /\
                     w r = (if along_length then stripe_w else length) /\
                     h r = (if along_length then length else stripe_w) /\
                     (if along_length then y r = start_y else x r = start_x))
      (fst (place_stripes start_x start_y length stripe_w gap_w count
              along_length)) /\
    Forall (fun r => kind r = "aisle"%string /\
                     w r = (if along_length then gap_w else length) /\
                     h r = (if along_length then length else gap_w) /\
                     (if along_length then y r = start_y else x r = start_x))
      (snd (place_stripes start_x start_y length stripe_w gap_w count
              along_length)) /\
    hd_error (fst (place_stripes start_x start_y length stripe_w gap_w count
                     along_length)) =
      (if 0 <? count then
         Some (mkRect "bed" start_x start_y
                 (if along_length then stripe_w else length)
                 (if along_length then length else stripe_w)
                 [("index"%string, VInt 1)])
       else None).
Proof.
  intros sx sy len s g count along. rewrite place_stripes_closed.
  cbn [fst snd]. split; [|split].
  - apply Forall_forall. intros r Hr. apply in_map_iff in Hr.
    destruct Hr as (i & <- & _). unfold bed_at.
    destruct along; cbn [kind x y w h]; auto.
  - apply Forall_forall. intros r Hr. apply in_map_iff in Hr.
    destruct Hr as (i & <- & _). unfold aisle_at.
    destruct along; cbn [kind x y w h]; auto.
  - destruct (Z.ltb_spec 0 count) as [Hc|Hc].
    + unfold range. destruct (Z.to_nat count) as [|k] eqn:E; [lia|].
      cbn [seq map hd_error]. unfold bed_at. cbn [Z.of_nat Z.to_nat advance].
      destruct along; reflexivity.
    + unfold range. replace (Z.to_nat count) with 0%nat by lia. reflexivity.
Qed.

(** X2: an east-west pass is the north-south pass from the mirrored start
    point, with every rectangle mirrored in the diagonal: same kinds, same
    indices and labels, x and y, width and height exchanged. *)
Theorem place_stripes_transpose :
  forall (start_x start_y length stripe_w gap_w : float) (count : Z),
    place_stripes start_x start_y length stripe_w gap_w count false =
    (map transpose
       (fst (place_stripes start_y start_x length stripe_w gap_w count true)),
     map transpose
       (snd (place_stripes start_y start_x length stripe_w gap_w count true))).
Proof.
  intros sx sy len s g count. rewrite !place_stripes_closed. cbn [fst snd].
  rewrite !map_map. f_equal; apply map_ext; intros i; reflexivity.
Qed.

(** X3: a pass of fewer beds is a prefix of a pass of more: with the same
    start and widths, the first [k] beds and the first [k - 1] aisles of a
    pass of [count >= k] beds are the beds and aisles of a pass of [k]. *)
Theorem place_stripes_prefix :
  forall (start_x start_y length stripe_w gap_w : float) (count k : Z)
         (along_length : bool),
    k <= count ->
    fst (place_stripes start_x start_y length stripe_w gap_w k along_length) =
      firstn (Z.to_nat k)
        (fst (place_stripes start_x start_y length stripe_w gap_w count
                along_length)) /\
    snd (place_stripes start_x start_y length stripe_w gap_w k along_length) =
      firstn (Z.to_nat (k - 1))
        (snd (place_stripes start_x start_y length stripe_w gap_w count
                along_length)).
Proof.
  intros sx sy len s g count k along Hk. rewrite !place_stripes_closed.
  cbn [fst snd]. rewrite !firstn_map, !firstn_range by lia. split; reflexivity.
Qed.

Lemma place_stripes_prefix_witness :
  2 <= 3 /\
  fst (place_stripes 0.25 2.25 21.5 1.5 0.5 2 true) =
    firstn 2 (fst (place_stripes 0.25 2.25 21.5 1.5 0.5 3 true)).
Proof.
  split; [lia|].
  exact (proj1 (place_stripes_prefix 0.25 2.25 21.5 1.5 0.5 3 2 true
                  ltac:(lia))).
Defined.

Lemma advance_add start step k m :
  advance start step (k + m) = advance (advance start step k) step m.
Proof.
  induction m as [|m IH].
  - now rewrite Nat.add_0_r.
  - rewrite Nat.add_succ_r. cbn [advance]. now rewrite IH.
Qed.

(** The cursor of a pass with a non-negative step never moves back,
    rounding included. *)
Lemma advance_mono start step k j :
  F64.nonneg start = true -> F64.nonneg step = true -> (k <= j)%nat ->
  F64.nonneg (advance start step k) = true /\
  F64.nonneg (advance start step j) = true /\
  F64.grid (advance start step k) <= F64.grid (advance start step j).
Proof.
  intros Ns Nd Hkj. destruct (advance_ge start step k Ns Nd) as [Nk _].
  replace j with (k + (j - k))%nat by lia. rewrite advance_add.
  destruct (advance_ge (advance start step k) step (j - k) Nk Nd) as [Nj H].
  auto.
Qed.

(** X4: with a non-negative start, stripe width and gap, the rectangles of
    a pass follow one another along the packed axis in binary64 as the
    script computes it, rounding included: bed positions never decrease
    with the index, and every aisle starts at or after its bed and at or
    before the next bed. *)
Theorem place_stripes_ascending :
  forall (start_x start_y length stripe_w gap_w : float) (count : Z)
         (along_length : bool),
    (0 <=? (if along_length then start_x else start_y))%float = true ->
    (0 <=? stripe_w)%float = true ->
    (0 <=? gap_w)%float = true ->
    (forall i j bi bj,
       (i <= j)%nat ->
       nth_error (fst (place_stripes start_x start_y length stripe_w gap_w
                         count along_length)) i = Some bi ->
       nth_error (fst (place_stripes start_x start_y length stripe_w gap_w
                         count along_length)) j = Some bj ->
       (axis_coord along_length bi <=? axis_coord along_length bj)%float
         = true) /\
    (forall i b a b',
       nth_error (fst (place_stripes start_x start_y length stripe_w gap_w
                         count along_length)) i = Some b ->
       nth_error (snd (place_stripes start_x start_y length stripe_w gap_w
                         count along_length)) i = Some a ->
       nth_error (fst (place_stripes start_x start_y length stripe_w gap_w
                         count along_length)) (S i) = Some b' ->
       (axis_coord along_length b <=? axis_coord along_length a)%float = true /\
       (axis_coord along_length a <=? axis_coord along_length b')%float
         = true).
Proof.
  intros sx sy len s g count along H0 Hs Hg.
  rewrite place_stripes_closed. cbn [fst snd].
  set (start := if along then sx else sy) in *.
  pose proof (F64Order.leb_0_nonneg _ H0) as N0.
  pose proof (F64Order.leb_0_nonneg _ Hs) as Ns.
  pose proof (F64Order.leb_0_nonneg _ Hg) as Ng.
  destruct (F64Order.add_grid s g Ns Ng) as [Nd _].
  assert (Eb : forall i, axis_coord along (bed_at sx sy len s g along i) =
                         advance start (s + g) (Z.to_nat i)).
  { intros i. unfold start, bed_at. destruct along; reflexivity. }
  assert (Ea : forall i, axis_coord along (aisle_at sx sy len s g along i) =
                         (advance start (s + g) (Z.to_nat i) + s)%float).
  { intros i. unfold start, aisle_at. destruct along; reflexivity. }
  split.
  - intros i j bi bj Hij Hi Hj.
    apply nth_error_map_range in Hi. apply nth_error_map_range in Hj.
    destruct Hi as [-> _], Hj as [-> _]. rewrite !Eb, !Nat2Z.id.
    destruct (advance_mono start (s + g) i j N0 Nd Hij) as (Ni & Nj & H).
    rewrite (F64Order.leb_grid _ _ Ni Nj). now apply Z.leb_le.
  - intros i b a b' Hb Ha Hb'.
    apply nth_error_map_range in Hb. apply nth_error_map_range in Ha.
    apply nth_error_map_range in Hb'.
    destruct Hb as [-> _], Ha as [-> _], Hb' as [-> _].
    rewrite !Eb, Ea, !Nat2Z.id. cbn [advance].
    destruct (advance_ge start (s + g) i N0 Nd) as [Ni _].
    set (c := advance start (s + g) i) in *.
    destruct (F64Order.add_grid c s Ni Ns) as [Na _].
    destruct (F64Order.add_grid c (s + g) Ni Nd) as [Nb _].
    pose proof (F64Order.add_grid_ge c s Ni Ns) as H1.
    pose proof (F64Order.add_grid_ge s g Ns Ng) as H2.
    pose proof (F64Order.add_grid_mono2 c c s (s + g) Ni Ni Ns Nd
                  ltac:(lia) H2) as H3.
    rewrite (F64Order.leb_grid _ _ Ni Na), (F64Order.leb_grid _ _ Na Nb).
    split; now apply Z.leb_le.
Qed.

Lemma place_stripes_ascending_witness :
  (0.3 <=? 0.3 + (1.2 + 0.5))%float = true.
Proof.
  destruct (place_stripes_ascending 0.3 2.3 21.4 1.2 0.5 5 true
              eq_refl eq_refl eq_refl) as [H _].
  exact (H 0%nat 1%nat _ _ (Nat.le_succ_diag_r 0) eq_refl eq_refl).
Defined.

(** * Further properties of the packer *)

Lemma is_nan_spec x : is_nan x = true <-> Prim2SF x = S754_nan.
Proof.
  unfold is_nan. rewrite negb_true_iff, eqb_spec.
  destruct (Prim2SF x) as [s|s| |s m e]; cbn.
  - split; discriminate.
  - destruct s; split; discriminate.
  - split; reflexivity.
  - unfold SFeqb. cbn. rewrite Z.compare_refl, Pos.compare_cont_refl.
    destruct s; split; discriminate.
Qed.

Lemma nan_not_leb_l x y : Prim2SF x = S754_nan -> (x <=? y)%float = false.
Proof. intros E. rewrite leb_spec, E. reflexivity. Qed.

Lemma nan_not_leb_r x y : Prim2SF y = S754_nan -> (x <=? y)%float = false.
Proof.
  intros E. rewrite leb_spec, E. destruct (Prim2SF x); reflexivity.
Qed.

(** Past the guards the divisor of the closed form is not zero. *)
Lemma divisor_nonzero stripe gap :
  (stripe <=? 0)%float = false -> (0 <=? gap)%float = true ->
  (stripe + gap =? 0)%float = false.
Proof.
  intros Hs Hg. pose proof (F64Order.leb_0_nonneg gap Hg) as Ng.
  destruct (F64Order.not_leb_0 stripe Hs) as [E|[Ns Ps]].
  - rewrite eqb_spec, (F64Order.add_nan_l stripe gap E). reflexivity.
  - destruct (F64Order.add_grid stripe gap Ns Ng) as [Nd _].
    pose proof (F64Order.add_grid_ge stripe gap Ns Ng) as Hd.
    rewrite (F64Order.eqb_grid _ _ Nd (proj1 F64Order.nonneg_0)).
    rewrite (proj2 F64Order.nonneg_0). apply Z.eqb_neq. lia.
Qed.

(** X5: whatever three floats it is given, the packer returns a count that
    is not negative, or raises [ValueError] (the quotient of the closed
    form is a NaN) or [OverflowError] (the quotient is infinite); it never
    divides by zero, because past the guards [stripe + gap] is not zero. *)
Theorem pack_outcomes :
  forall total stripe gap,
    ((exists n, pack_repeating_stripes total stripe gap = Ok n /\ 0 <= n) \/
     (pack_repeating_stripes total stripe gap = Raise ValueError /\
      Prim2SF ((total + gap) / (stripe + gap)) = S754_nan) \/
     (pack_repeating_stripes total stripe gap = Raise OverflowError /\
      exists s,
        Prim2SF ((total + gap) / (stripe + gap)) = S754_infinity s)) /\
    pack_repeating_stripes total stripe gap <> Raise ZeroDivisionError.
Proof.
  intros total stripe gap.
  assert (G : (stripe <=? 0)%float = true \/ (total <=? 0)%float = true \/
              (0 <=? gap)%float = false ->
              pack_repeating_stripes total stripe gap = Ok 0)
    by apply pack_guard.
  destruct (stripe <=? 0)%float eqn:Hs;
    [rewrite G by auto; split; [left; exists 0; split; [reflexivity|lia]
                               |discriminate]|].
  destruct (total <=? 0)%float eqn:Ht;
    [rewrite G by auto; split; [left; exists 0; split; [reflexivity|lia]
                               |discriminate]|].
  destruct (0 <=? gap)%float eqn:Hg;
    [|rewrite G by auto; split; [left; exists 0; split; [reflexivity|lia]
                                |discriminate]].
  clear G. unfold pack_repeating_stripes. rewrite Hs, Ht, Hg. cbn [orb].
  unfold F64.truediv. rewrite (divisor_nonzero stripe gap Hs Hg). cbn [bind].
  unfold F64.floor.
  destruct (Prim2SF ((total + gap) / (stripe + gap))) as [s|s| |s m e];
    cbn [F64.SFfloor bind].
  - split; [left; eexists; split; [reflexivity|lia]|discriminate].
  - split; [right; right; split; [reflexivity|now exists s]|discriminate].
  - split; [right; left; split; reflexivity|discriminate].
  - split; [left; eexists; split; [reflexivity|lia]|discriminate].
Qed.

(** X6: the packer on NaN and infinity.  A NaN gap is answered 0, like a
    negative one.  A NaN span or a NaN stripe width gets past the guards
    (no comparison with a NaN holds) and, with a gap that is not negative,
    makes [math.floor] raise [ValueError].  An infinite span over a finite
    divisor makes it raise [OverflowError]. *)
Theorem pack_nan_inf :
  forall total stripe gap,
    (is_nan gap = true -> pack_repeating_stripes total stripe gap = Ok 0) /\
    (is_nan total = true -> (stripe <=? 0)%float = false ->
     (0 <=? gap)%float = true ->
     pack_repeating_stripes total stripe gap = Raise ValueError) /\
    (is_nan stripe = true -> (total <=? 0)%float = false ->
     (0 <=? gap)%float = true ->
     pack_repeating_stripes total stripe gap = Raise ValueError) /\
    (total = infinity -> (0 <? stripe)%float = true ->
     (0 <=? gap)%float = true -> F64.finite (stripe + gap) = true ->
     pack_repeating_stripes total stripe gap = Raise OverflowError).
Proof.
  intros total stripe gap. split; [|split; [|split]].
  - intros Hn. apply is_nan_spec in Hn. apply pack_guard.
    right; right. now apply nan_not_leb_r.
  - intros Hn Hs Hg. apply is_nan_spec in Hn.
    unfold pack_repeating_stripes.
    rewrite Hs, (nan_not_leb_l total 0 Hn), Hg. cbn [orb].
    unfold F64.truediv. rewrite (divisor_nonzero stripe gap Hs Hg).
    cbn [bind]. unfold F64.floor.
    rewrite div_spec, (F64Order.add_nan_l total gap Hn). reflexivity.
  - intros Hn Ht Hg. apply is_nan_spec in Hn.
    pose proof (nan_not_leb_l stripe 0 Hn) as Hs.
    unfold pack_repeating_stripes. rewrite Hs, Ht, Hg. cbn [orb].
    unfold F64.truediv. rewrite (divisor_nonzero stripe gap Hs Hg).
    cbn [bind]. unfold F64.floor.
    rewrite div_spec, (F64Order.add_nan_l stripe gap Hn).
    destruct (Prim2SF (total + gap)); reflexivity.
  - intros -> Hs Hg Hf.
    pose proof (F64Facts.ltb_0_l_not_leb stripe Hs) as Hs'.
    pose proof (F64Order.leb_0_nonneg gap Hg) as Ng.
    unfold pack_repeating_stripes. rewrite Hs', Hg.
    change (infinity <=? 0)%float with false. cbn [orb].
    unfold F64.truediv. rewrite (divisor_nonzero stripe gap Hs' Hg).
    cbn [bind]. unfold F64.floor. rewrite div_spec, add_spec.
    change (Prim2SF infinity) with (S754_infinity false).
    unfold F64.nonneg in Ng. unfold F64.finite in Hf.
    destruct (Prim2SF gap) as [sg|sg| |sg mg eg]; try discriminate;
      try (destruct sg; try discriminate);
      destruct (Prim2SF (stripe + gap)) as [sd|sd| |sd md ed];
      try discriminate; reflexivity.
Qed.

Lemma pack_nan_inf_witness :
  pack_repeating_stripes 8.4 1.2 nan = Ok 0 /\
  pack_repeating_stripes nan 1.2 0.5 = Raise ValueError /\
  pack_repeating_stripes 8.4 nan 0.5 = Raise ValueError /\
  pack_repeating_stripes infinity 1.2 0.5 = Raise OverflowError.
Proof.
  split; [|split; [|split]].
  - exact (proj1 (pack_nan_inf 8.4 1.2 nan) eq_refl).
  - exact (proj1 (proj2 (pack_nan_inf nan 1.2 0.5)) eq_refl eq_refl eq_refl).
  - exact (proj1 (proj2 (proj2 (pack_nan_inf 8.4 nan 0.5)))
             eq_refl eq_refl eq_refl).
  - exact (proj2 (proj2 (proj2 (pack_nan_inf infinity 1.2 0.5)))
             eq_refl eq_refl eq_refl eq_refl).
Defined.

(** X7: bounds on the arguments give a count without an exception and a
    bound on the count.  When the span is at most [T], the gap at most [G]
    and the stripe at least [S > 0], and the binary64 quotient
    [(T + G) / S] is finite, the packer returns a count between 0 and the
    floor of that quotient. *)
Theorem pack_bounded :
  forall total stripe gap T S G,
    (total <=? T)%float = true ->
    (gap <=? G)%float = true ->
    (0 <? S)%float = true ->
    (S <=? stripe)%float = true ->
    F64.finite ((T + G) / S) = true ->
    exists n,
      pack_repeating_stripes total stripe gap = Ok n /\
      0 <= n <= Z.max 0 (Qfloor (F64.to_Q ((T + G) / S))).
Proof.
  intros total stripe gap T S G HT HG HS HSs HF.
  pose proof (F64Order.ltb_0_trans S stripe HS HSs) as Hpos.
  pose proof (F64Facts.ltb_0_l_not_leb stripe Hpos) as Hs.
  destruct (total <=? 0)%float eqn:Ht.
  { exists 0. split; [apply pack_guard; auto|lia]. }
  destruct (0 <=? gap)%float eqn:Hg.
  2:{ exists 0. split; [apply pack_guard; auto|lia]. }
  destruct (F64Order.ltb_0_pos S HS) as [NS PS].
  destruct (F64Order.ltb_0_pos stripe Hpos) as [Ns Ps].
  pose proof (F64Order.leb_0_nonneg gap Hg) as Ng.
  destruct (F64Order.not_leb_0 total Ht) as [E|[Nt Pt]].
  { now elim (leb_not_nan_l total T HT). }
  assert (NT : F64.nonneg T = true).
  { apply F64Order.leb_0_nonneg.
    destruct (0 <=? T)%float eqn:E; [reflexivity|].
    assert (B : (T <=? 0)%float = true).
    { revert E HT. rewrite !leb_spec. clear.
      destruct (Prim2SF total) as [s|s| |s m e], (Prim2SF T) as [s'|s'| |s' m' e'];
        try destruct s; try destruct s'; cbn; congruence. }
    rewrite (F64Order.leb_trans_0 total T HT B) in Ht. discriminate. }
  assert (NG : F64.nonneg G = true).
  { apply F64Order.leb_0_nonneg.
    apply (fun H => proj1 (Bool.not_false_iff_true _) H). intros E.
    assert (B : (gap <=? 0)%float = true /\ (G <=? 0)%float = true).
    { revert E HG Hg. rewrite !leb_spec. clear.
      change (Prim2SF 0) with (S754_zero false).
      destruct (Prim2SF gap) as [s|s| |s m e], (Prim2SF G) as [s'|s'| |s' m' e'];
        try destruct s; try destruct s'; cbn; try congruence; auto. }
    revert E. rewrite !leb_spec. destruct B as [B1 B2]. revert B1 B2 HG Hg.
    rewrite !leb_spec. change (Prim2SF 0) with (S754_zero false). clear.
    destruct (Prim2SF gap) as [s|s| |s m e], (Prim2SF G) as [s'|s'| |s' m' e'];
      try destruct s; try destruct s'; cbn; try congruence. }
  rewrite (F64Order.leb_grid _ _ Nt NT) in HT. apply Z.leb_le in HT.
  rewrite (F64Order.leb_grid _ _ Ng NG) in HG. apply Z.leb_le in HG.
  rewrite (F64Order.leb_grid _ _ NS Ns) in HSs. apply Z.leb_le in HSs.
  destruct (F64Order.add_grid total gap Nt Ng) as [Na _].
  destruct (F64Order.add_grid T G NT NG) as [NA _].
  destruct (F64Order.add_grid stripe gap Ns Ng) as [Nd _].
  pose proof (F64Order.add_grid_mono2 total T gap G Nt NT Ng NG HT HG) as Hnum.
  pose proof (F64Order.add_grid_ge stripe gap Ns Ng) as Hden.
  destruct (F64Order.div_grid_mono (total + gap) (T + G) (stripe + gap) S
              Na NA Nd NS Hnum ltac:(lia) HF) as (F & Nq & NQ & Hq).
  pose proof (F64Order.floor_grid_mono _ _ F HF Nq NQ Hq) as Hfl.
  eexists. split; [apply pack_eval; assumption|]. lia.
Qed.

Lemma pack_bounded_witness :
  exists n, pack_repeating_stripes 8.4 1.2 0.5 = Ok n /\
            0 <= n <= Z.max 0 (Qfloor (F64.to_Q ((10 + 1) / 1))).
Proof.
  apply (pack_bounded 8.4 1.2 0.5 10 1 1); vm_compute; reflexivity.
Defined.

(** * Further properties of the derived dimensions and the layout *)

Lemma nonneg_leb_0 v : F64.nonneg v = true -> (0 <=? v)%float = true.
Proof.
  intros N. rewrite (F64Order.leb_grid _ _ (proj1 F64Order.nonneg_0) N).
  rewrite (proj2 F64Order.nonneg_0). apply Z.leb_le, F64Order.grid_nonneg.
Qed.

(** X8: the growing area is never negative and never a NaN, whatever the
    inputs ([max(0.0, v)] answers 0.0 for a negative or NaN [v]); and for
    the inputs the sidebar admits it is no wider and no longer than the
    house, in binary64 as the script computes it. *)
Theorem grow_within_house :
  forall p,
    (0 <=? grow_W p)%float = true /\
    (0 <=? grow_L p)%float = true /\
    (ui_valid p = true ->
     (grow_W p <=? W p)%float = true /\ (grow_L p <=? L p)%float = true).
Proof.
  intros p. split; [apply max0_nonneg|]. split; [apply max0_nonneg|].
  intros Hv. destruct (ui_valid_inv p Hv) as (Nb & Nh & _ & _).
  destruct (ui_valid_dims p Hv) as (NW & FW & NL & FL & _ & _).
  pose proof (F64Order.mul2_nonneg (buffer p) Nb) as N2.
  unfold grow_W, grow_L.
  destruct (F64Order.max0_sub_le (W p) (2 * buffer p) NW FW N2) as [N1 H1].
  destruct (F64Order.max0_sub_sub_le (L p) (headhouse_depth p) (2 * buffer p)
              NL FL Nh N2) as [N3 H3].
  rewrite (F64Order.leb_grid _ _ N1 NW), (F64Order.leb_grid _ _ N3 NL).
  split; now apply Z.leb_le.
Qed.

Lemma grow_within_house_witness :
  ui_valid example_params = true /\
  (grow_W example_params <=? W example_params)%float = true.
Proof.
  assert (Hv : ui_valid example_params = true) by (vm_compute; reflexivity).
  split; [exact Hv|].
  exact (proj1 (proj2 (proj2 (grow_within_house example_params)) Hv)).
Defined.

Lemma filter_map_all {A B : Type} (f : B -> bool) (g : A -> B) (l : list A) :
  (forall a, f (g a) = true) -> filter f (map g l) = map g l.
Proof.
  intros H. induction l as [|a l IH]; cbn [map filter]; [reflexivity|].
  now rewrite H, IH.
Qed.

(** Summing the same product [k] times is [k] rounded additions. *)
Lemma area_fold_const {A : Type} (g : A -> Rect) (prod : float) (l : list A)
    (acc : float) :
  (forall a, (w (g a) * h (g a))%float = prod) ->
  fold_left (fun s r => (s + w r * h r)%float) (map g l) acc =
  advance acc prod (List.length l).
Proof.
  intros H. rewrite <- (rev_involutive l).
  induction (rev l) as [|a l' IH]; [reflexivity|].
  cbn [rev]. rewrite map_app, fold_left_app, IH, length_app, Nat.add_comm.
  cbn [map fold_left List.length Nat.add advance]. now rewrite H.
Qed.

Lemma headhouse_not k p :
  k <> "headhouse"%string ->
  filter (fun r => String.eqb (kind r) k) (headhouse_rects p) = [].
Proof.
  intros Hk. unfold headhouse_rects.
  destruct (0 <? headhouse_depth p)%float; [|reflexivity].
  cbn [filter kind].
  destruct (String.eqb_spec "headhouse" k) as [E|_]; [now elim Hk|reflexivity].
Qed.

(** The two sums of a layout, from the count the packer returned. *)
Lemma layout_areas p lay :
  compute_layout p = Ok lay ->
  exists n,
    n_beds p = Ok n /\ 0 <= n /\
    bed_area lay = advance 0 (bed_product p) (Z.to_nat n) /\
    aisle_area lay = advance 0 (aisle_product p) (Z.to_nat (n - 1)).
Proof.
  unfold compute_layout. destruct (n_beds p) as [n|e] eqn:Hn; cbn [bind];
    [|discriminate].
  rewrite place_stripes_closed. intros [= <-]. exists n.
  split; [reflexivity|]. split; [exact (pack_nonneg _ _ _ _ Hn)|].
  cbn [bed_area aisle_area]. unfold area_of.
  rewrite !filter_app, !headhouse_not by discriminate. cbn [app].
  split.
  - rewrite filter_map_all, filter_map_none, app_nil_r.
    + rewrite (area_fold_const _ (bed_product p)), range_length;
        [reflexivity|].
      intros i. unfold bed_at, bed_product.
      destruct (beds_along_length p); reflexivity.
    + intros i. unfold aisle_at. destruct (beds_along_length p); reflexivity.
    + intros i. unfold bed_at. destruct (beds_along_length p); reflexivity.
  - rewrite filter_map_none, filter_map_all; cbn [app].
    + rewrite (area_fold_const _ (aisle_product p)), range_length;
        [reflexivity|].
      intros i. unfold aisle_at, aisle_product.
      destruct (beds_along_length p); reflexivity.
    + intros i. unfold aisle_at. destruct (beds_along_length p); reflexivity.
    + intros i. unfold bed_at. destruct (beds_along_length p); reflexivity.
Qed.



(** X10: for the inputs the sidebar admits, no rectangle of the layout has
    a negative (or NaN) coordinate or size: x, y, width and height are all
    at least zero in binary64, rounding included. *)
Theorem rects_nonnegative :
  forall p lay,
    ui_valid p = true ->
    compute_layout p = Ok lay ->
    Forall (fun r => (0 <=? x r)%float = true /\ (0 <=? y r)%float = true /\
                     (0 <=? w r)%float = true /\ (0 <=? h r)%float = true)
      (rects lay).
Proof.
  intros p lay Hv Hlay.
  destruct (ui_valid_inv p Hv) as (Nb & Nh & Ns & Ng).
  destruct (ui_valid_dims p Hv) as (NW & _ & _ & _ & _ & _).
  destruct (compute_layout_inv p lay Hlay) as (n & _ & Hb & Ha & ->).
  destruct (F64Order.add_grid _ _ Nh Nb) as [Ny _]. fold (start_y p) in Ny.
  destruct (F64Order.add_grid _ _ Ns Ng) as [Nd _].
  assert (Nlen : (0 <=? stripe_length p)%float = true).
  { unfold stripe_length, grow_W, grow_L.
    destruct (beds_along_length p); apply max0_nonneg. }
  rewrite Hb, Ha. apply Forall_app. split; [|apply Forall_app; split].
  - unfold headhouse_rects.
    destruct (0 <? headhouse_depth p)%float; constructor; [|constructor].
    cbn [x y w h]. repeat split; try reflexivity; now apply nonneg_leb_0.
  - apply Forall_forall. intros r Hr. apply in_map_iff in Hr.
    destruct Hr as (i & <- & _). unfold bed_at.
    destruct (beds_along_length p); cbn [x y w h]; repeat split;
      try assumption; apply nonneg_leb_0; try assumption;
      apply advance_ge; assumption.
  - apply Forall_forall. intros r Hr. apply in_map_iff in Hr.
    destruct Hr as (i & <- & _). unfold aisle_at.
    destruct (beds_along_length p); cbn [x y w h]; repeat split;
      try assumption; apply nonneg_leb_0; try assumption.
    + destruct (advance_ge (start_x p) (bed_w p + aisle_w p) (Z.to_nat i)
                  Nb Nd) as [Na' _].
      now destruct (F64Order.add_grid _ _ Na' Ns).
    + destruct (advance_ge (start_y p) (bed_w p + aisle_w p) (Z.to_nat i)
                  Ny Nd) as [Na' _].
      now destruct (F64Order.add_grid _ _ Na' Ns).
Qed.

Lemma rects_nonnegative_witness :
  exists lay,
    compute_layout example_params = Ok lay /\
    Forall (fun r => (0 <=? x r)%float = true /\ (0 <=? y r)%float = true /\
                     (0 <=? w r)%float = true /\ (0 <=? h r)%float = true)
      (rects lay).
Proof.
  destruct (compute_layout example_params) as [lay|e] eqn:E;
    [|vm_compute in E; discriminate].
  exists lay. split; [reflexivity|].
  apply (rects_nonnegative example_params lay); [vm_compute; reflexivity|exact E].
Defined.

(** * Further properties of the drawing and of the export rows *)

(** The kinds a layout holds, with the one metadata entry of each. *)
Lemma layout_kinds p lay :
  compute_layout p = Ok lay ->
  Forall (fun r =>
            (kind r = "headhouse"%string /\
             meta r = [("label"%string, VStr "Headhouse")]) \/
            (kind r = "bed"%string /\
             exists i, 0 <= i /\ meta r = [("index"%string, VInt (i + 1))]) \/
            (kind r = "aisle"%string /\
             exists i, 0 <= i /\
               meta r = [("between"%string,
                          VStr (str_of_Z (i + 1) ++ "-" ++ str_of_Z (i + 2)))]))
    (rects lay).
Proof.
  intros Hlay.
  destruct (compute_layout_inv p lay Hlay) as (n & _ & Hb & Ha & ->).
  rewrite Hb, Ha. apply Forall_app. split; [|apply Forall_app; split].
  - unfold headhouse_rects.
    destruct (0 <? headhouse_depth p)%float; constructor; [|constructor].
    left. split; reflexivity.
  - apply Forall_forall. intros r Hr. apply in_map_iff in Hr.
    destruct Hr as (i & <- & Hi). apply in_range in Hi.
    right; left. unfold bed_at.
    destruct (beds_along_length p); cbn [kind meta];
      (split; [reflexivity|exists i; split; [lia|reflexivity]]).
  - apply Forall_forall. intros r Hr. apply in_map_iff in Hr.
    destruct Hr as (i & <- & Hi). apply in_range in Hi.
    right; right. unfold aisle_at.
    destruct (beds_along_length p); cbn [kind meta];
      (split; [reflexivity|exists i; split; [lia|reflexivity]]).
Qed.

(** X11: the plot holds the outline of the house first, then one patch per
    rectangle in the order of the rectangle list, each anchored and sized
    as its rectangle; and every rectangle is drawn in the colour of its
    kind (headhouse pink, bed green, aisle grey): the fallback colour of
    [colors.get] is never used. *)
Theorem draw_palette :
  forall p lay,
    compute_layout p = Ok lay ->
    hd_error (plot_patches p lay) = Some (outline p) /\
    (forall i r,
       nth_error (rects lay) i = Some r ->
       nth_error (plot_patches p lay) (S i) = Some (draw_rect r)) /\
    List.length (plot_patches p lay) = S (List.length (rects lay)) /\
    Forall (fun r =>
              (kind r = "headhouse"%string /\
               facecolor (draw_rect r) = Some "#fbcfe8"%string) \/
              (kind r = "bed"%string /\
               facecolor (draw_rect r) = Some "#7cd992"%string) \/
              (kind r = "aisle"%string /\
               facecolor (draw_rect r) = Some "#e5e7eb"%string))
      (rects lay).
Proof.
  intros p lay Hlay. split; [reflexivity|]. split; [|split].
  - intros i r Hr. unfold plot_patches. cbn [nth_error].
    now rewrite nth_error_map, Hr.
  - unfold plot_patches. cbn [List.length]. now rewrite length_map.
  - eapply Forall_impl; [|exact (layout_kinds p lay Hlay)].
    intros r [[Hk _]|[[Hk _]|[Hk _]]]; unfold draw_rect; cbn [facecolor];
      rewrite Hk; [left|right; left|right; right]; split; reflexivity.
Qed.

Lemma draw_palette_witness :
  exists lay,
    compute_layout example_params = Ok lay /\
    List.length (plot_patches example_params lay) = 11%nat.
Proof.
  destruct (compute_layout example_params) as [lay|e] eqn:E;
    [|vm_compute in E; discriminate].
  exists lay. split; [reflexivity|].
  destruct (draw_palette example_params lay E) as (_ & _ & Hl & _).
  rewrite Hl. vm_compute in E. injection E as <-. reflexivity.
Defined.

(** X12: every export row of a layout has six entries under six different
    keys: Type, x, y, width and height, then the one metadata key of the
    rectangle's kind (label for the headhouse, index for a bed, between for
    an aisle); the merged metadata never overwrites one of the five fixed
    columns, and each of them reads back the rectangle's field. *)
Theorem export_rows_shape :
  forall p lay,
    compute_layout p = Ok lay ->
    List.length (export_rows lay) = List.length (rects lay) /\
    Forall (fun r =>
              NoDup (map fst (export_row r)) /\
              (exists k,
                 map fst (export_row r) =
                   ["Type"; "x"; "y"; "width"; "height"; k]%string /\
                 ((kind r = "headhouse" /\ k = "label") \/
                  (kind r = "bed" /\ k = "index") \/
                  (kind r = "aisle" /\ k = "between"))%string) /\
              dict_get "Type" (export_row r) = Some (VStr (kind r)) /\
              dict_get "x" (export_row r) = Some (VFloat (x r)) /\
              dict_get "y" (export_row r) = Some (VFloat (y r)) /\
              dict_get "width" (export_row r) = Some (VFloat (w r)) /\
              dict_get "height" (export_row r) = Some (VFloat (h r)))
      (rects lay).
Proof.
  intros p lay Hlay. split; [unfold export_rows; now rewrite length_map|].
  eapply Forall_impl; [|exact (layout_kinds p lay Hlay)].
  assert (ND : forall k, In k ["label"; "index"; "between"]%string ->
                 NoDup ["Type"; "x"; "y"; "width"; "height"; k]%string).
  { intros k Hk.
    repeat (constructor; [cbn [In]; cbn [In] in Hk; intuition (subst; discriminate)|]).
    constructor. }
  intros r H. unfold export_row.
  destruct H as [[Hk Hm]|[[Hk (i & _ & Hm)]|[Hk (i & _ & Hm)]]];
    rewrite Hm; cbn [map fst app];
    (split; [apply ND; cbn [In]; auto|]);
    (split; [eexists; split; [reflexivity|tauto]|]);
    repeat split; reflexivity.
Qed.

Lemma export_rows_shape_witness :
  exists lay,
    compute_layout example_params = Ok lay /\
    List.length (export_rows lay) = 10%nat.
Proof.
  destruct (compute_layout example_params) as [lay|e] eqn:E;
    [|vm_compute in E; discriminate].
  exists lay. split; [reflexivity|].
  destruct (export_rows_shape example_params lay E) as [Hl _].
  rewrite Hl. vm_compute in E. injection E as <-. reflexivity.
Defined.

(** * Products and differences of non-negative floats *)

Module F64More.
Import F64 F64Facts F64Round F64Order.

Lemma Zdigits2_mul_ge a b :
  0 < a -> 0 < b -> Zdigits2 a + Zdigits2 b - 1 <= Zdigits2 (a * b).
Proof.
  intros Ha Hb.
  destruct (Zdigits2_bounds a Ha) as [La _].
  destruct (Zdigits2_bounds b Hb) as [Lb _].
  pose proof (Zdigits2_pos a Ha) as Da. pose proof (Zdigits2_pos b Hb) as Db.
  assert (P : 2 ^ (Zdigits2 a - 1 + (Zdigits2 b - 1)) <= a * b).
  { rewrite Z.pow_add_r by lia.
    apply Z.mul_le_mono_nonneg; try lia; apply Z.pow_nonneg; lia. }
  pose proof (Zdigits2_ge_pow (a * b) (Zdigits2 a - 1 + (Zdigits2 b - 1))
                ltac:(lia) P).
  lia.
Qed.

(** The product of two non-negative finite floats is their exact product,
    rounded. *)
Lemma SFmul_grid x y :
  valid_binary x = true -> valid_binary y = true ->
  SFnonneg x = true -> SFnonneg y = true ->
  rounds (rndG (inject_Z (gz x * gz y) / inject_Z (2 ^ 1074))) (SF64mul x y).
Proof.
  intros Hx Hy Nx Ny.
  assert (Z0 : forall a b s, a * b = 0 ->
                 rounds (rndG (inject_Z (a * b) / inject_Z (2 ^ 1074)))
                   (S754_zero s)).
  { intros a b s E. rewrite E. left. split; [|now exists s].
    transitivity (rndG 0); [|reflexivity]. apply rndG_comp.
    change (inject_Z 0) with 0%Q. unfold Qdiv. ring. }
  destruct x as [sx|sx| |sx mx ex]; try discriminate;
    destruct y as [sy|sy| |sy my ey]; try discriminate;
    try (apply Z0; cbn [gz]; lia).
  destruct sx, sy; try discriminate.
  destruct (valid_finite _ _ _ Hx) as (Hex & Fx & Dx).
  destruct (valid_finite _ _ _ Hy) as (Hey & Fy & Dy).
  unfold SF64mul, SFmul. cbn [xorb gz].
  set (mm := Z.pos (mx * my)).
  assert (Emm : mm = Z.pos mx * Z.pos my) by (unfold mm; lia).
  apply rounds_to_rounds.
  apply (bra_grid false mm (ex + ey) loc_Exact (inject_Z (4 * mm))).
  - lia.
  - unfold sticky. rewrite K_of_even. cbn [shr_record_of_loc shr_s negb].
    unfold K_of. cbn [shr_m shr_r shr_s b2z]. rewrite !Z.add_0_r. reflexivity.
  - rewrite Emm.
    pose proof (Zdigits2_mul_ge (Z.pos mx) (Z.pos my) ltac:(lia) ltac:(lia))
      as Hd.
    rewrite <- !digits2_Zdigits2 in Hd. rewrite fexp_unfold in *. lia.
  - lia.
  - pose proof (inject_pow2_pos 1074 ltac:(lia)) as PC.
    unfold scaled. rewrite (inject_Z_mult 4 mm). change (inject_Z 4) with 4%Q.
    destruct (Z.leb_spec 0 (ex + ey + 1074)) as [Hk|Hk].
    + assert (E : Z.pos mx * 2 ^ (ex + 1074) * (Z.pos my * 2 ^ (ey + 1074)) =
                  mm * 2 ^ (ex + ey + 1074) * 2 ^ 1074).
      { assert (P : 2 ^ (ex + 1074) * 2 ^ (ey + 1074) =
                    2 ^ (ex + ey + 1074) * 2 ^ 1074).
        { rewrite <- (Z.pow_add_r 2 (ex + 1074) (ey + 1074)) by lia.
          rewrite <- (Z.pow_add_r 2 (ex + ey + 1074) 1074) by lia.
          f_equal. lia. }
        rewrite Emm. revert P.
        generalize (2 ^ (ex + 1074)) (2 ^ (ey + 1074)) (2 ^ (ex + ey + 1074))
          (2 ^ 1074).
        intros A B C D P.
        transitivity (Z.pos mx * Z.pos my * (A * B)); [ring|].
        rewrite P. ring. }
      rewrite E, Qdiv_inject_pow by lia. rewrite inject_Z_mult. field.
    + assert (E : Z.pos mx * 2 ^ (ex + 1074) * (Z.pos my * 2 ^ (ey + 1074)) =
                  mm * 2 ^ (ex + 1074 + (ey + 1074))).
      { rewrite Emm, (Z.pow_add_r 2 (ex + 1074) (ey + 1074)) by lia.
        generalize (2 ^ (ex + 1074)) (2 ^ (ey + 1074)). intros A B. ring. }
      rewrite E, inject_Z_mult.
      pose proof (inject_pow2_pos (- 1074 - (ex + ey)) ltac:(lia)) as PK.
      pose proof (inject_pow2_pos (ex + 1074 + (ey + 1074)) ltac:(lia)) as PJ.
      assert (EC : (inject_Z (2 ^ 1074) ==
                    inject_Z (2 ^ (ex + 1074 + (ey + 1074))) *
                    inject_Z (2 ^ (- 1074 - (ex + ey))))%Q).
      { rewrite <- inject_pow2_add by lia.
        replace (ex + 1074 + (ey + 1074) + (- 1074 - (ex + ey))) with 1074
          by lia.
        reflexivity. }
      rewrite EC. field. split; lra.
Qed.

Lemma SFmul_comm x y : SF64mul x y = SF64mul y x.
Proof.
  unfold SF64mul, SFmul.
  destruct x as [sx|sx| |sx mx ex], y as [sy|sy| |sy my ey];
    try reflexivity; try (now rewrite xorb_comm).
  now rewrite xorb_comm, Pos.mul_comm, Z.add_comm.
Qed.

(** Taking a non-negative float from a finite one that is not larger
    leaves nothing above zero. *)
Lemma SFsub_le x y :
  valid_binary x = true -> valid_binary y = true ->
  SFnonneg x = true -> SFnn y = true -> rank x <= rank y ->
  SFltb (S754_zero false) (SF64sub x y) = false.
Proof.
  intros Hx Hy Nx Ny Hle.
  destruct x as [sx|sx| |sx mx ex]; try discriminate;
    destruct y as [sy|sy| |sy my ey]; try discriminate.
  - destruct sx, sy; reflexivity.
  - destruct sy; [discriminate|reflexivity].
  - destruct sy; [discriminate|reflexivity].
  - pose proof (valid_gz _ _ _ Hx). cbn [rank] in Hle. lia.
  - destruct sy; [discriminate|reflexivity].
  - destruct sx, sy; try discriminate.
    destruct (valid_finite _ _ _ Hx) as (Hex & _).
    destruct (valid_finite _ _ _ Hy) as (Hey & _).
    unfold SF64sub, SFsub. cbn [cond_Zopp].
    set (ez := Z.min ex ey).
    destruct (shl_align_spec mx ex ez) as [_ Ea].
    destruct (shl_align_spec my ey ez) as [_ Eb].
    replace (Z.min ex ez) with ez in Ea by (unfold ez; lia).
    replace (Z.min ey ez) with ez in Eb by (unfold ez; lia).
    set (a := fst (shl_align mx ex ez)) in *.
    set (b := fst (shl_align my ey ez)) in *.
    assert (He : -1074 <= ez) by (unfold ez; lia).
    assert (Hab : Z.pos a <= Z.pos b).
    { cbn [rank] in Hle.
      assert (P : 0 < 2 ^ (ez + 1074)) by (apply pow2_pos; lia).
      assert (Ex : Z.pos mx * 2 ^ (ex + 1074) = Z.pos a * 2 ^ (ez + 1074)).
      { rewrite Ea, <- Z.mul_assoc, <- Z.pow_add_r by (unfold ez; lia).
        do 2 f_equal. lia. }
      assert (Ey : Z.pos my * 2 ^ (ey + 1074) = Z.pos b * 2 ^ (ez + 1074)).
      { rewrite Eb, <- Z.mul_assoc, <- Z.pow_add_r by (unfold ez; lia).
        do 2 f_equal. lia. }
      rewrite Ex, Ey in Hle. nia. }
    destruct (Z.pos a - Z.pos b) as [|m|m] eqn:D; cbn [binary_normalize].
    + reflexivity.
    + lia.
    + exact (rounds_to_below _ _ (binary_round_signed true m ez He)).
Qed.

Lemma mul_comm x y : (x * y)%float = (y * x)%float.
Proof. apply Prim2SF_inj. rewrite !mul_spec. apply SFmul_comm. Qed.

Lemma mul_zero_r x :
  (0 <? x)%float = true -> finite x = true -> (x * 0)%float = 0%float.
Proof.
  intros Hp Hf. apply Prim2SF_inj. rewrite mul_spec.
  rewrite ltb_0_l in Hp. unfold finite in Hf.
  change (Prim2SF 0) with (S754_zero false).
  destruct (Prim2SF x) as [s|s| |s m e]; try discriminate.
  destruct s; [discriminate|reflexivity].
Qed.

Lemma sub_le x y :
  nonneg x = true -> finite x = true -> nonneg y = true ->
  grid x <= grid y -> (0 <? x - y)%float = false.
Proof.
  intros Nx Fx Ny H. rewrite ltb_spec, sub_spec.
  change (Prim2SF 0) with (S754_zero false).
  apply SFsub_le; try apply Prim2SF_valid; try assumption.
  unfold nonneg, finite in Nx, Fx.
  destruct (Prim2SF x) as [s|s| |s m e]; try discriminate; assumption.
Qed.

(** The product of two non-negative finite floats. *)
Lemma mul_grid x y :
  nonneg x = true -> finite x = true -> nonneg y = true -> finite y = true ->
  nonneg (x * y) = true /\
  grid (x * y) =
    Z.min (rndG (inject_Z (grid x * grid y) / inject_Z (2 ^ 1074))) (2 ^ 2098).
Proof.
  intros Nx Fx Ny Fy. unfold nonneg, grid, finite in *. rewrite mul_spec.
  pose proof (Prim2SF_valid x) as Vx. pose proof (Prim2SF_valid y) as Vy.
  assert (Gx : SFnonneg (Prim2SF x) = true)
    by (destruct (Prim2SF x); try discriminate; assumption).
  assert (Gy : SFnonneg (Prim2SF y) = true)
    by (destruct (Prim2SF y); try discriminate; assumption).
  destruct (SFnonneg_nn _ Gx) as [_ ->]. destruct (SFnonneg_nn _ Gy) as [_ ->].
  apply rounds_rank; [|now apply SFmul_grid].
  apply rndG_nonneg.
  assert (0 <= gz (Prim2SF x))
    by (destruct (SFnonneg_nn _ Gx) as [_ <-]; apply rank_nonneg).
  assert (0 <= gz (Prim2SF y))
    by (destruct (SFnonneg_nn _ Gy) as [_ <-]; apply rank_nonneg).
  pose proof (inject_pow2_pos 1074 ltac:(lia)).
  apply Qle_shift_div_l; [assumption|].
  rewrite Qmult_0_l. change 0%Q with (inject_Z 0). rewrite <- Zle_Qle. nia.
Qed.


End F64More.

(** * Further properties of the whole run *)

Lemma compute_layout_no_beds p :
  n_beds p = Ok 0 ->
  compute_layout p =
  Ok (mkLayout (headhouse_rects p) [] [] 0 0
        (headhouse_depth p * W p)%float (W p * L p)%float).
Proof.
  intros Hn. unfold compute_layout. rewrite Hn.
  cbn [bind place_stripes range Z.to_nat seq map fold_left cur_beds cur_aisles].
  rewrite !area_of_headhouse_only by discriminate.
  now rewrite !app_nil_r.
Qed.

(** X13: a buffer that leaves no span gives the headhouse alone, without an
    error.  For the inputs the sidebar admits, when twice the buffer is at
    least the width (north-south beds) or at least the length left behind
    the headhouse (east-west beds), the span is 0.0, the packer answers 0
    and the layout has no bed and no aisle and zero bed and aisle area. *)
Theorem buffer_swallows_span :
  forall p,
    ui_valid p = true ->
    (if beds_along_length p then (W p <=? 2 * buffer p)%float
     else (L p - headhouse_depth p <=? 2 * buffer p)%float) = true ->
    stripes_span p = 0%float /\
    compute_layout p =
    Ok (mkLayout (headhouse_rects p) [] [] 0 0
          (headhouse_depth p * W p)%float (W p * L p)%float).
Proof.
  intros p Hv Hb.
  destruct (ui_valid_inv p Hv) as (Nb & Nh & _ & _).
  destruct (ui_valid_dims p Hv) as (NW & FW & NL & FL & _ & _).
  pose proof (F64Order.mul2_nonneg (buffer p) Nb) as N2.
  assert (Hspan : stripes_span p = 0%float).
  { unfold stripes_span, grow_W, grow_L, F64.max0.
    destruct (beds_along_length p).
    - rewrite (F64Order.leb_grid _ _ NW N2) in Hb. apply Z.leb_le in Hb.
      now rewrite (F64More.sub_le _ _ NW FW N2 Hb).
    - destruct (0 <? L p - headhouse_depth p)%float eqn:E.
      + destruct (F64Order.sub_above _ _ NL FL Nh E) as [N1 H1].
        assert (F1 : F64.finite (L p - headhouse_depth p) = true).
        { apply (F64Order.finite_grid _ N1).
          apply (F64Order.finite_grid _ NL) in FL. lia. }
        rewrite (F64Order.leb_grid _ _ N1 N2) in Hb. apply Z.leb_le in Hb.
        now rewrite (F64More.sub_le _ _ N1 F1 N2 Hb).
      + now rewrite (F64Order.sub_below _ _ E N2). }
  split; [exact Hspan|].
  apply compute_layout_no_beds. unfold n_beds. rewrite Hspan.
  apply pack_guard. right; left. reflexivity.
Qed.

Lemma buffer_swallows_span_witness :
  compute_layout (mkParams 3 1.5 2 24 NorthSouth true 0.8 SoilBeds 1.2 0.5 160) =
  Ok (mkLayout [mkRect "headhouse" 0 0 3 2 [("label"%string, VStr "Headhouse")]]
        [] [] 0 0 (2 * 3)%float (3 * 24)%float).
Proof.
  exact (proj2 (buffer_swallows_span
                  (mkParams 3 1.5 2 24 NorthSouth true 0.8 SoilBeds 1.2 0.5 160)
                  eq_refl eq_refl)).
Defined.

Lemma advance_zero k : advance 0 0 k = 0%float.
Proof.
  induction k as [|k IH]; [reflexivity|]. cbn [advance]. now rewrite IH.
Qed.

(** X14: stripes of zero length are still placed, with zero area.  For the
    inputs the sidebar admits, when the length left for the stripes is 0.0
    the layout still holds as many beds as the packer counts, each of zero
    extent along its length, and both area sums are exactly 0.0. *)
Theorem zero_length_areas :
  forall p lay,
    ui_valid p = true ->
    stripe_length p = 0%float ->
    compute_layout p = Ok lay ->
    exists n,
      n_beds p = Ok n /\
      List.length (beds lay) = Z.to_nat n /\
      Forall (fun r => (if beds_along_length p then h r else w r) = 0%float)
        (beds lay ++ aisles lay) /\
      bed_area lay = 0%float /\ aisle_area lay = 0%float.
Proof.
  intros p lay Hv Hz Hlay.
  destruct (ui_valid_dims p Hv) as (_ & _ & _ & _ & Hbed & Hais).
  assert (Fb : F64.finite (bed_w p) = true /\ F64.finite (aisle_w p) = true).
  { revert Hv. unfold ui_valid. rewrite !andb_true_iff. tauto. }
  pose proof (F64Order.ltb_0_trans 0.3 (bed_w p) eq_refl Hbed) as Pb.
  pose proof (F64Order.ltb_0_trans 0.3 (aisle_w p) eq_refl Hais) as Pa.
  destruct (layout_areas p lay Hlay) as (n & Hn & _ & Hba & Haa).
  destruct (compute_layout_inv p lay Hlay) as (n' & Hn' & Hbs & Has & _).
  assert (n' = n) by congruence. subst n'.
  exists n. split; [exact Hn|]. split; [|split; [|split]].
  - now rewrite Hbs, length_map, range_length.
  - rewrite Hbs, Has. apply Forall_app.
    split; apply Forall_forall; intros r Hr; apply in_map_iff in Hr;
      destruct Hr as (i & <- & _); unfold bed_at, aisle_at;
      destruct (beds_along_length p); cbn [w h]; exact Hz.
  - rewrite Hba. unfold bed_product. rewrite Hz.
    rewrite (F64More.mul_comm 0 (bed_w p)).
    rewrite (F64More.mul_zero_r _ Pb (proj1 Fb)).
    destruct (beds_along_length p); apply advance_zero.
  - rewrite Haa. unfold aisle_product. rewrite Hz.
    rewrite (F64More.mul_comm 0 (aisle_w p)).
    rewrite (F64More.mul_zero_r _ Pa (proj2 Fb)).
    destruct (beds_along_length p); apply advance_zero.
Qed.

Lemma zero_length_areas_witness :
  exists lay,
    compute_layout (mkParams 9 0.3 3 3 NorthSouth true 0.8 SoilBeds 1.2 0.5 160)
      = Ok lay /\
    List.length (beds lay) = 5%nat /\ bed_area lay = 0%float.
Proof.
  destruct (compute_layout
              (mkParams 9 0.3 3 3 NorthSouth true 0.8 SoilBeds 1.2 0.5 160))
    as [lay|e] eqn:E; [|vm_compute in E; discriminate].
  exists lay. split; [reflexivity|].
  destruct (zero_length_areas
              (mkParams 9 0.3 3 3 NorthSouth true 0.8 SoilBeds 1.2 0.5 160)
              lay eq_refl eq_refl E)
    as (n & Hn & Hl & _ & Hb & _).
  vm_compute in Hn. injection Hn as <-. split; [exact Hl|exact Hb].
Defined.

Lemma layout_totals p lay :
  compute_layout p = Ok lay ->
  headhouse_area lay = (headhouse_depth p * W p)%float /\
  total_area lay = (W p * L p)%float.
Proof.
  unfold compute_layout. destruct (n_beds p) as [n|e]; cbn [bind];
    [|discriminate].
  destruct (place_stripes _ _ _ _ _ _ _). intros [= <-]. split; reflexivity.
Qed.

(** X15: the Headhouse figure agrees with the drawing.  [headhouse_area]
    is computed apart from the rectangles, as [headhouse_depth * W]; it is
    the product [r.w * r.h] of the headhouse rectangle whenever one is
    drawn, and for the inputs the sidebar admits it is zero when the depth
    is zero and none is drawn. *)
Theorem headhouse_area_matches :
  forall p lay,
    compute_layout p = Ok lay ->
    Forall (fun r => kind r = "headhouse"%string ->
                     (w r * h r)%float = headhouse_area lay)
      (rects lay) /\
    ((0 <? headhouse_depth p)%float = true ->
     exists r, In r (rects lay) /\ kind r = "headhouse"%string) /\
    (ui_valid p = true -> (headhouse_depth p =? 0)%float = true ->
     (headhouse_area lay =? 0)%float = true /\
     Forall (fun r => kind r <> "headhouse"%string) (rects lay)).
Proof.
  intros p lay Hlay. destruct (layout_totals p lay Hlay) as [Hh _].
  pose proof (layout_kinds p lay Hlay) as Hk.
  destruct (compute_layout_inv p lay Hlay) as (n & _ & Hb & Ha & Hr).
  split; [|split].
  - rewrite Hr, Hb, Ha. apply Forall_app. split; [|apply Forall_app; split].
    + unfold headhouse_rects.
      destruct (0 <? headhouse_depth p)%float; constructor; [|constructor].
      intros _. cbn [w h]. rewrite Hh. apply F64More.mul_comm.
    + apply Forall_forall. intros r Hin. apply in_map_iff in Hin.
      destruct Hin as (i & <- & _). unfold bed_at.
      destruct (beds_along_length p); discriminate.
    + apply Forall_forall. intros r Hin. apply in_map_iff in Hin.
      destruct Hin as (i & <- & _). unfold aisle_at.
      destruct (beds_along_length p); discriminate.
  - intros Hpos. rewrite Hr. unfold headhouse_rects. rewrite Hpos.
    eexists. split; [left; reflexivity|reflexivity].
  - intros Hv H0. destruct (ui_valid_dims p Hv) as (NW & FW & _).
    split.
    + rewrite Hh. revert H0 NW FW. unfold F64.nonneg, F64.finite.
      rewrite !eqb_spec, mul_spec. change (Prim2SF 0) with (S754_zero false).
      destruct (Prim2SF (headhouse_depth p)) as [s|s| |s m e],
               (Prim2SF (W p)) as [s'|s'| |s' m' e'];
        try destruct s; try destruct s'; cbn; congruence.
    + rewrite Hr, Hb, Ha. apply Forall_app. split; [|apply Forall_app; split].
      * unfold headhouse_rects.
        replace (0 <? headhouse_depth p)%float with false; [constructor|].
        revert H0. rewrite eqb_spec, ltb_spec.
        change (Prim2SF 0) with (S754_zero false).
        destruct (Prim2SF (headhouse_depth p)) as [s|s| |s m e];
          try destruct s; cbn; congruence.
      * apply Forall_forall. intros r Hin. apply in_map_iff in Hin.
        destruct Hin as (i & <- & _). unfold bed_at.
        destruct (beds_along_length p); discriminate.
      * apply Forall_forall. intros r Hin. apply in_map_iff in Hin.
        destruct Hin as (i & <- & _). unfold aisle_at.
        destruct (beds_along_length p); discriminate.
Qed.

Lemma headhouse_area_matches_witness :
  exists lay,
    compute_layout example_params = Ok lay /\
    (9 * 2)%float = headhouse_area lay.
Proof.
  destruct (compute_layout example_params) as [lay|e] eqn:E;
    [|vm_compute in E; discriminate].
  exists lay. split; [reflexivity|].
  destruct (headhouse_area_matches example_params lay E) as [H _].
  pose proof E as E'. vm_compute in E'. injection E' as <-.
  apply Forall_inv in H. exact (H eq_refl).
Defined.



(** * The layout as a function of the geometry *)

(** X17: the layout mode and the export resolution, like the service-aisle
    inputs, never reach the computation: two parameter tuples with the same
    house, buffer, headhouse, orientation and widths give the same layout,
    key figures and export rows (or the same exception) and the same
    patches; "Soil Beds" and "Benches" differ in labels and defaults
    only. *)
Theorem geometry_determines_run :
  forall p1 p2,
    same_geometry p1 p2 ->
    run p1 = run p2 /\
    forall lay, plot_patches p1 lay = plot_patches p2 lay.
Proof.
  intros [W1 b1 h1 L1 o1 i1 s1 m1 bw1 aw1 d1] [W2 b2 h2 L2 o2 i2 s2 m2 bw2 aw2 d2].
  unfold same_geometry.
  cbn [W buffer headhouse_depth L orientation bed_w aisle_w].
  intros (-> & -> & -> & -> & -> & -> & ->). split; [reflexivity|].
  intros lay. reflexivity.
Qed.

Lemma geometry_determines_run_witness :
  run (mkParams 9 0.3 2 24 NorthSouth true 0.8 SoilBeds 1 0.6 160) =
  run (mkParams 9 0.3 2 24 NorthSouth false 0 Benches 1 0.6 300).
Proof.
  apply (geometry_determines_run
           (mkParams 9 0.3 2 24 NorthSouth true 0.8 SoilBeds 1 0.6 160)
           (mkParams 9 0.3 2 24 NorthSouth false 0 Benches 1 0.6 300)).
  repeat split.
Defined.

(** * Clamped differences, exactly *)

Module F64Sub.
Import F64 F64Facts F64Round F64Order F64More.

(** The difference of two non-negative finite floats, the larger first, is
    their exact difference, rounded. *)
Lemma SFsub_grid x y :
  valid_binary x = true -> valid_binary y = true ->
  SFnonneg x = true -> SFnonneg y = true -> gz y < gz x ->
  rounds (rndG (inject_Z (gz x - gz y))) (SF64sub x y).
Proof.
  intros Hx Hy Nx Ny Hlt.
  destruct x as [sx|sx| |sx mx ex]; try discriminate;
    destruct y as [sy|sy| |sy my ey]; try discriminate.
  - pose proof (valid_gz _ _ _ Hy). cbn [gz] in Hlt. lia.
  - cbn [gz SF64sub SFsub]. rewrite Z.sub_0_r.
    apply (rounds_id (S754_finite sx mx ex)); assumption.
  - destruct sx, sy; try discriminate.
    destruct (valid_finite _ _ _ Hx) as (Hex & _).
    destruct (valid_finite _ _ _ Hy) as (Hey & _).
    unfold SF64sub, SFsub. cbn [cond_Zopp gz] in *.
    set (ez := Z.min ex ey).
    destruct (shl_align_spec mx ex ez) as [_ Ea].
    destruct (shl_align_spec my ey ez) as [_ Eb].
    replace (Z.min ex ez) with ez in Ea by (unfold ez; lia).
    replace (Z.min ey ez) with ez in Eb by (unfold ez; lia).
    set (a := fst (shl_align mx ex ez)) in *.
    set (b := fst (shl_align my ey ez)) in *.
    assert (He : -1074 <= ez) by (unfold ez; lia).
    assert (P : 0 < 2 ^ (ez + 1074)) by (apply pow2_pos; lia).
    assert (Ex : Z.pos mx * 2 ^ (ex + 1074) = Z.pos a * 2 ^ (ez + 1074)).
    { rewrite Ea, <- Z.mul_assoc, <- Z.pow_add_r by (unfold ez; lia).
      do 2 f_equal. lia. }
    assert (Ey : Z.pos my * 2 ^ (ey + 1074) = Z.pos b * 2 ^ (ez + 1074)).
    { rewrite Eb, <- Z.mul_assoc, <- Z.pow_add_r by (unfold ez; lia).
      do 2 f_equal. lia. }
    rewrite Ex, Ey in *.
    destruct (Z.pos a - Z.pos b) as [|m|m] eqn:D; cbn [binary_normalize];
      try nia.
    replace (Z.pos a * 2 ^ (ez + 1074) - Z.pos b * 2 ^ (ez + 1074))
      with (Z.pos m * 2 ^ (ez + 1074)) by nia.
    now apply binary_round_grid.
Qed.

(** [max(0.0, x - y)] for non-negative floats: the exact difference,
    clamped at zero and rounded. *)
Lemma max0_sub_grid x y :
  nonneg x = true -> finite x = true -> nonneg y = true ->
  nonneg (max0 (x - y)) = true /\
  grid (max0 (x - y)) = rndG (inject_Z (Z.max 0 (grid x - grid y))).
Proof.
  intros Nx Fx Ny.
  destruct (Z.le_gt_cases (grid x) (grid y)) as [Hle|Hgt].
  - unfold max0. rewrite (sub_le x y Nx Fx Ny Hle).
    split; [reflexivity|]. now rewrite Z.max_l by lia.
  - pose proof (grid_nonneg y) as G0.
    pose proof (proj1 (finite_grid x Nx) Fx) as Bx.
    assert (Fy : finite y = true) by (apply (finite_grid y Ny); lia).
    assert (Gx : SFnonneg (Prim2SF x) = true).
    { unfold nonneg, finite in Nx, Fx.
      destruct (Prim2SF x); try discriminate; assumption. }
    assert (Gy : SFnonneg (Prim2SF y) = true).
    { unfold nonneg, finite in Ny, Fy.
      destruct (Prim2SF y); try discriminate; assumption. }
    destruct (SFnonneg_nn _ Gx) as [_ Rx]. destruct (SFnonneg_nn _ Gy) as [_ Ry].
    fold (grid x) in Rx. fold (grid y) in Ry.
    pose proof (SFsub_grid _ _ (Prim2SF_valid x) (Prim2SF_valid y) Gx Gy
                  ltac:(lia)) as R.
    rewrite <- Rx, <- Ry, <- sub_spec in R.
    set (G := rndG (inject_Z (grid x - grid y))) in *.
    assert (G1 : 1 <= G).
    { pose proof (rndG_pow2 0 ltac:(lia)) as R0. change (2 ^ 0) with 1 in R0.
      rewrite <- R0. apply rndG_mono; [change (inject_Z 1) with 1%Q; lra|].
      rewrite <- Zle_Qle. lia. }
    assert (G2 : G <= grid x).
    { destruct (rndG_rank _ (Prim2SF_valid x) Nx) as [E _].
      fold (grid x) in E. rewrite <- E. apply rndG_mono.
      - change 0%Q with (inject_Z 0). rewrite <- Zle_Qle. lia.
      - rewrite <- Zle_Qle. lia. }
    destruct (rounds_rank G _ ltac:(lia) R) as [N E].
    fold (nonneg (x - y)) in N. fold (grid (x - y)) in E.
    rewrite Z.min_l in E by lia.
    assert (Hpos : (0 <? x - y)%float = true).
    { rewrite (ltb_grid 0 _ (proj1 nonneg_0) N), (proj2 nonneg_0).
      apply Z.ltb_lt. lia. }
    unfold max0. rewrite Hpos. split; [exact N|].
    rewrite E. unfold G. now rewrite Z.max_r by lia.
Qed.

(** A smaller minuend and a larger subtrahend give a smaller clamped
    difference, rounding included. *)
Lemma max0_sub_mono x1 x2 y1 y2 :
  nonneg x1 = true -> finite x1 = true -> nonneg y1 = true ->
  nonneg x2 = true -> finite x2 = true -> nonneg y2 = true ->
  grid x1 <= grid x2 -> grid y2 <= grid y1 ->
  grid (max0 (x1 - y1)) <= grid (max0 (x2 - y2)).
Proof.
  intros Nx1 Fx1 Ny1 Nx2 Fx2 Ny2 Hx Hy.
  destruct (max0_sub_grid x1 y1 Nx1 Fx1 Ny1) as [_ ->].
  destruct (max0_sub_grid x2 y2 Nx2 Fx2 Ny2) as [_ ->].
  apply rndG_mono.
  - change 0%Q with (inject_Z 0). rewrite <- Zle_Qle. lia.
  - rewrite <- Zle_Qle. lia.
Qed.

(** Clamping an intermediate difference changes nothing: what is not above
    zero stays so when more is taken away. *)
Lemma max0_sub_clamp v z :
  nonneg z = true -> max0 (v - z) = max0 (max0 v - z).
Proof.
  intros Nz. unfold max0 at 3. destruct (0 <? v)%float eqn:E; [reflexivity|].
  unfold max0. rewrite (sub_below v z E Nz).
  now rewrite (sub_below 0 z eq_refl Nz).
Qed.

(** Doubling keeps the order of non-negative finite floats. *)
Lemma mul2_grid_mono b1 b2 :
  nonneg b1 = true -> finite b1 = true ->
  nonneg b2 = true -> finite b2 = true ->
  grid b1 <= grid b2 -> grid (2 * b1) <= grid (2 * b2).
Proof.
  intros N1 F1 N2 F2 H.
  destruct (mul_grid 2 b1 eq_refl eq_refl N1 F1) as [_ ->].
  destruct (mul_grid 2 b2 eq_refl eq_refl N2 F2) as [_ ->].
  pose proof (grid_nonneg 2) as G2. pose proof (grid_nonneg b1) as G1.
  pose proof (inject_pow2_pos 1074 ltac:(lia)) as PC.
  apply Z.min_le_compat_r, rndG_mono.
  - apply Qle_shift_div_l; [assumption|]. rewrite Qmult_0_l.
    change 0%Q with (inject_Z 0). rewrite <- Zle_Qle. nia.
  - apply Qdiv_le_pos; [assumption|]. rewrite <- Zle_Qle. nia.
Qed.

End F64Sub.

(** * Smaller houses hold no more beds *)

Lemma ui_valid_finite p :
  ui_valid p = true ->
  F64.finite (buffer p) = true /\ F64.finite (headhouse_depth p) = true.
Proof.
  unfold ui_valid. rewrite !andb_true_iff. tauto.
Qed.

Lemma stripes_span_mono p1 p2 :
  ui_valid p1 = true -> ui_valid p2 = true -> tighter p1 p2 ->
  F64.nonneg (stripes_span p1) = true /\
  F64.nonneg (stripes_span p2) = true /\
  F64.grid (stripes_span p1) <= F64.grid (stripes_span p2).
Proof.
  intros Hv1 Hv2 (HW & HL & Hb & Hh & Ho & _ & _).
  destruct (ui_valid_inv p1 Hv1) as (Nb1 & Nh1 & _ & _).
  destruct (ui_valid_inv p2 Hv2) as (Nb2 & Nh2 & _ & _).
  destruct (ui_valid_dims p1 Hv1) as (NW1 & FW1 & NL1 & FL1 & _ & _).
  destruct (ui_valid_dims p2 Hv2) as (NW2 & FW2 & NL2 & FL2 & _ & _).
  destruct (ui_valid_finite p1 Hv1) as [Fb1 Fh1].
  destruct (ui_valid_finite p2 Hv2) as [Fb2 Fh2].
  destruct (stripes_span_bound p1 Hv1) as [N1 _].
  destruct (stripes_span_bound p2 Hv2) as [N2 _].
  split; [exact N1|]. split; [exact N2|].
  rewrite (F64Order.leb_grid _ _ NW1 NW2) in HW. apply Z.leb_le in HW.
  rewrite (F64Order.leb_grid _ _ NL1 NL2) in HL. apply Z.leb_le in HL.
  rewrite (F64Order.leb_grid _ _ Nb2 Nb1) in Hb. apply Z.leb_le in Hb.
  rewrite (F64Order.leb_grid _ _ Nh2 Nh1) in Hh. apply Z.leb_le in Hh.
  pose proof (F64Order.mul2_nonneg _ Nb1) as M1.
  pose proof (F64Order.mul2_nonneg _ Nb2) as M2.
  pose proof (F64Sub.mul2_grid_mono _ _ Nb2 Fb2 Nb1 Fb1 Hb) as HM.
  unfold stripes_span, beds_along_length. rewrite Ho.
  destruct (orientation p2); unfold grow_W, grow_L.
  - now apply F64Sub.max0_sub_mono.
  - rewrite (F64Sub.max0_sub_clamp (L p1 - headhouse_depth p1) _ M1).
    rewrite (F64Sub.max0_sub_clamp (L p2 - headhouse_depth p2) _ M2).
    destruct (F64Order.max0_sub_le (L p1) (headhouse_depth p1) NL1 FL1 Nh1)
      as [I1 B1].
    destruct (F64Order.max0_sub_le (L p2) (headhouse_depth p2) NL2 FL2 Nh2)
      as [I2 B2].
    apply F64Sub.max0_sub_mono; try assumption.
    + apply (F64Order.finite_grid _ I1).
      apply (F64Order.finite_grid _ NL1) in FL1. lia.
    + apply (F64Order.finite_grid _ I2).
      apply (F64Order.finite_grid _ NL2) in FL2. lia.
    + now apply F64Sub.max0_sub_mono.
Qed.

(** A smaller span gets a count when the larger one does, and no larger
    one. *)
Lemma pack_mono_span t1 t2 s g n2 :
  F64.nonneg t1 = true -> F64.nonneg t2 = true ->
  F64.grid t1 <= F64.grid t2 ->
  pack_repeating_stripes t2 s g = Ok n2 ->
  exists n1, pack_repeating_stripes t1 s g = Ok n1 /\ n1 <= n2.
Proof.
  intros Nt1 Nt2 Hle H2.
  pose proof (pack_nonneg _ _ _ _ H2) as Hn2.
  destruct (s <=? 0)%float eqn:Hs;
    [exists 0; split; [apply pack_guard; auto|exact Hn2]|].
  destruct (t1 <=? 0)%float eqn:Ht1;
    [exists 0; split; [apply pack_guard; auto|exact Hn2]|].
  destruct (0 <=? g)%float eqn:Hg;
    [|exists 0; split; [apply pack_guard; auto|exact Hn2]].
  destruct (F64Order.not_leb_0 t1 Ht1) as [E|[_ Pt1]].
  { unfold F64.nonneg in Nt1. rewrite E in Nt1. discriminate. }
  destruct (pack_inv _ _ _ _ H2) as [[_ G]|(_ & Ht2 & _ & F2 & ->)].
  { destruct G as [G|[G|G]]; try congruence.
    rewrite (F64Order.leb_grid _ _ Nt2 (proj1 F64Order.nonneg_0)) in G.
    rewrite (proj2 F64Order.nonneg_0) in G. apply Z.leb_le in G. lia. }
  destruct (pack_operands _ _ _ Hs Ht2 Hg F2) as (_ & (Ns & Ps) & Ng).
  destruct (quotient_mono t1 t2 s s g Nt1 Nt2 Ns Ns Ng Hle ltac:(lia) F2)
    as [F1 Hq].
  eexists. split; [apply pack_eval; assumption|].
  now apply Z.max_le_compat_l.
Qed.

(** X18: a smaller house holds no more beds.  For two admitted inputs with
    the same orientation and widths, where the first has a width and a
    length that are no larger and a buffer and a headhouse depth that are
    no smaller, whenever the packer returns a count for the second it
    returns one for the first, and that count is not larger; this holds in
    binary64 through the subtractions, the doubling, the clamping and the
    closed form, rounding included. *)
Theorem n_beds_monotone :
  forall p1 p2 n2,
    ui_valid p1 = true -> ui_valid p2 = true -> tighter p1 p2 ->
    n_beds p2 = Ok n2 ->
    exists n1, n_beds p1 = Ok n1 /\ n1 <= n2.
Proof.
  intros p1 p2 n2 Hv1 Hv2 Ht Hn.
  destruct (stripes_span_mono p1 p2 Hv1 Hv2 Ht) as (N1 & N2 & Hle).
  destruct Ht as (_ & _ & _ & _ & _ & Eb & Ea).
  unfold n_beds in *. rewrite Eb, Ea.
  exact (pack_mono_span _ _ _ _ n2 N1 N2 Hle Hn).
Qed.

Lemma n_beds_monotone_witness :
  exists n1,
    n_beds (mkParams 8 0.5 2 24 NorthSouth true 0.8 SoilBeds 1.2 0.5 160)
      = Ok n1 /\ n1 <= 5.
Proof.
  apply (n_beds_monotone
           (mkParams 8 0.5 2 24 NorthSouth true 0.8 SoilBeds 1.2 0.5 160)
           example_params 5);
    [vm_compute; reflexivity|vm_compute; reflexivity| |vm_compute; reflexivity].
  repeat split.
Defined.
